(** * ta_functions: indicator columns, portfolio ledger and trading simulation

    A shallow embedding of [ta_functions.py] and the properties of its
    portfolio ledger, its indicator columns and its simulation loop.

    Numbers.  The program computes on Python numbers.  They are embedded
    as exact rationals [Q]: [+], [-], [*] and [/] are the exact operations
    and [<=], [<], [==] the exact comparisons, so rounding, overflow and
    the infinities of binary floating point are outside this model.  The
    missing value of pandas (NaN) is a cell of its own, see [cell].

    Where rounding decides what a method does, the purchase of
    [buy_max_securities], the methods are embedded a second time on
    binary64 floats, see [Binary64]. *)

From Stdlib Require Import QArith Qround Qabs Lqa Lia ZArith String Ascii List Bool.
From Stdlib Require Import PrimFloat FloatOps SpecFloat.
From stdpp Require Import gmap strings list fin_maps pretty.

Local Open Scope Q_scope.
Local Open Scope string_scope.

(** ** Comparisons of numbers, as booleans *)

Definition Qlt_bool (x y : Q) : bool := negb (Qle_bool y x).

(** ** Exceptions

    The exceptions the program raises, by the statement that raises them. *)

Inductive exn : Type :=
| InsufficientCash
    (* Exception('You do not own enough cash to purchase this many securities.') *)
| NotEnoughShares (amount num_of_security : Q)
    (* Exception('You do not have {} shares in this security. ...') *)
| NoSharesOwned
    (* Exception('You do not own shares in this security.') *)
| BadNdays
    (* Exception('Length of ndays must be 2.') *)
| KeyError (key : string)
    (* a dict, row or frame has no such key *)
| ZeroDivisionError
    (* division by zero *)
| UnboundLocalError (name : string)
    (* a local variable is read before any assignment to it *)
| TypeError
    (* a number is expected and a label is found *)
| ValueError
    (* lengths that do not match; a NaN converted to an integer *)
| OverflowError
    (* an infinity converted to an integer *).

(** A call that may raise. *)
Inductive result (A : Type) : Type :=
| Ok (a : A)
| Raise (e : exn).
Arguments Ok {A} a.
Arguments Raise {A} e.

Definition rbind {A B} (r : result A) (k : A -> result B) : result B :=
  match r with
  | Ok a => k a
  | Raise e => Raise e
  end.

Notation "'do' x <- r ; k" := (rbind r (fun x => k))
  (at level 10, x name, r at level 100, k at level 200).

(** A method call on a mutable object: the object after the call, and
    whether the call returned or raised.  The object is the one the method
    left behind when it raised, so that what a failed call did to it can be
    stated. *)
Inductive outcome (S : Type) : Type :=
| Returned (s : S)
| Raised (e : exn) (s : S).
Arguments Returned {S} s.
Arguments Raised {S} e s.

Definition state_of {S} (o : outcome S) : S :=
  match o with
  | Returned s => s
  | Raised _ s => s
  end.

Definition raised {S} (o : outcome S) : option exn :=
  match o with
  | Returned _ => None
  | Raised e _ => Some e
  end.

(** ** class security_portfolio *)

Module Portfolio.

Inductive trans_type : Type := Buy | Sell.

(** A row of [trans_df]: the columns 'date', 'security', 'trans_type',
    'security_price', 'amt' and 'total_cash_amt'. *)
Record transaction : Type := mk_transaction {
  tr_date : Z;
  tr_security : string;
  tr_trans_type : trans_type;
  tr_security_price : Q;
  tr_amt : Q;
  tr_total_cash_amt : Q
}.

Record security_portfolio : Type := mk_portfolio {
  start_cash_amt : Q;
  total_cash_amt : Q;
  security_dict : gmap string Q;
  verbose : bool;
  trans_df : list transaction
}.

(** [__init__] *)
Definition init (cash : Q) (verbose : bool) : security_portfolio :=
  {| start_cash_amt := cash;
     total_cash_amt := cash;
     security_dict := ∅;
     verbose := verbose;
     trans_df := [] |}.

(** [buy_securities].  The narration printed when [verbose] is set does
    not change the object and is left out. *)
Definition buy_securities (ticker_symbol : string) (amount security_price : Q)
    (trans_date : Z) (self : security_portfolio) : outcome security_portfolio :=
  if Qle_bool (amount * security_price) (total_cash_amt self) then
    let dict :=
      match security_dict self !! ticker_symbol with
      | Some held => <[ticker_symbol := held + amount]> (security_dict self)
      | None => <[ticker_symbol := amount]> (security_dict self)
      end in
    let cash := total_cash_amt self - amount * security_price in
    let added_row :=
      mk_transaction trans_date ticker_symbol Buy security_price
                     (security_price * amount) cash in
    Returned {| start_cash_amt := start_cash_amt self;
                total_cash_amt := cash;
                security_dict := dict;
                verbose := verbose self;
                trans_df := trans_df self ++ [added_row] |}
  else Raised InsufficientCash self.

(** [buy_max_securities]: [amount = int(np.floor(total_cash_amt / security_price))].
    Dividing by a zero price raises before anything is bought. *)
Definition buy_max_securities (ticker_symbol : string) (security_price : Q)
    (trans_date : Z) (self : security_portfolio) : outcome security_portfolio :=
  if Qeq_bool security_price 0 then Raised ZeroDivisionError self
  else
    let amount := inject_Z (Qfloor (total_cash_amt self / security_price)) in
    buy_securities ticker_symbol amount security_price trans_date self.

(** [get_total_cash_amt] *)
Definition get_total_cash_amt (self : security_portfolio) : Q :=
  total_cash_amt self.

(** [sell_securities] *)
Definition sell_securities (ticker_symbol : string) (amount security_price : Q)
    (trans_date : Z) (self : security_portfolio) : outcome security_portfolio :=
  match security_dict self !! ticker_symbol with
  | Some num_of_security =>
      if Qlt_bool num_of_security amount then
        Raised (NotEnoughShares amount num_of_security) self
      else
        let dict := <[ticker_symbol := num_of_security - amount]> (security_dict self) in
        let cash := total_cash_amt self + amount * security_price in
        let added_row :=
          mk_transaction trans_date ticker_symbol Sell security_price
                         (security_price * amount) cash in
        Returned {| start_cash_amt := start_cash_amt self;
                    total_cash_amt := cash;
                    security_dict := dict;
                    verbose := verbose self;
                    trans_df := trans_df self ++ [added_row] |}
  | None => Raised NoSharesOwned self
  end.

(** [sell_all_securities] *)
Definition sell_all_securities (ticker_symbol : string) (security_price : Q)
    (trans_date : Z) (self : security_portfolio) : outcome security_portfolio :=
  match security_dict self !! ticker_symbol with
  | Some amount => sell_securities ticker_symbol amount security_price trans_date self
  | None => Raised NoSharesOwned self
  end.

(** [get_all_transactions] *)
Definition get_all_transactions (self : security_portfolio) : list transaction :=
  trans_df self.

(** *** Sequences of calls

    A client of the ledger: one of the four trading methods with its
    arguments.  A call that raises leaves the object as the method left it,
    and the client goes on with the next call. *)
Inductive call : Type :=
| CallBuy (ticker_symbol : string) (amount security_price : Q) (trans_date : Z)
| CallBuyMax (ticker_symbol : string) (security_price : Q) (trans_date : Z)
| CallSell (ticker_symbol : string) (amount security_price : Q) (trans_date : Z)
| CallSellAll (ticker_symbol : string) (security_price : Q) (trans_date : Z).

Definition run_call (c : call) (self : security_portfolio) : outcome security_portfolio :=
  match c with
  | CallBuy t a p d => buy_securities t a p d self
  | CallBuyMax t p d => buy_max_securities t p d self
  | CallSell t a p d => sell_securities t a p d self
  | CallSellAll t p d => sell_all_securities t p d self
  end.

Definition run_calls (cs : list call) (self : security_portfolio) : security_portfolio :=
  fold_left (fun s c => state_of (run_call c s)) cs self.

(** Positive price, non-negative amount. *)
Definition call_ok (c : call) : Prop :=
  match c with
  | CallBuy _ a p _ => 0 <= a /\ 0 < p
  | CallBuyMax _ p _ => 0 < p
  | CallSell _ a p _ => 0 <= a /\ 0 < p
  | CallSellAll _ p _ => 0 < p
  end.

(** The ledger invariant: cash, every share count and every cash balance
    recorded in the transaction log are non-negative. *)
Definition ledger_ok (self : security_portfolio) : Prop :=
  0 <= total_cash_amt self
  /\ map_Forall (fun _ n => 0 <= n) (security_dict self)
  /\ Forall (fun tx => 0 <= tr_total_cash_amt tx) (trans_df self).

End Portfolio.

(** ** Strings: the naming convention of the columns *)

(** [str.lower()] on ASCII letters. *)
Definition lower_ascii (c : ascii) : ascii :=
  let n := nat_of_ascii c in
  if (65 <=? n)%nat && (n <=? 90)%nat then ascii_of_nat (n + 32) else c.

Fixpoint lower (s : string) : string :=
  match s with
  | EmptyString => EmptyString
  | String c s' => String (lower_ascii c) (lower s')
  end.

(** [word.split('_')[-1]]: what follows the last underscore, the whole
    word when it has none. *)
Fixpoint last_component_go (acc s : string) : string :=
  match s with
  | EmptyString => acc
  | String c s' =>
      if Ascii.eqb c "_"%char then last_component_go EmptyString s'
      else last_component_go (acc ++ String c EmptyString) s'
  end.

Definition last_component (word : string) : string :=
  last_component_go EmptyString word.

(** ** Cells, columns and frames

    A pandas column holds floats, with NaN for a missing value, or
    labels.  A frame is held row by row: its column names, and for every
    row its index label and its cells by column name. *)

Inductive cell : Type :=
| Num (q : Q)
| NaN
| Str (s : string).

Definition is_nan (c : cell) : bool :=
  match c with NaN => true | _ => false end.

(** A cell read as a float: [None] is NaN. *)
Definition as_float (c : cell) : result (option Q) :=
  match c with
  | Num q => Ok (Some q)
  | NaN => Ok None
  | Str _ => Raise TypeError
  end.

Definition of_float (o : option Q) : cell :=
  match o with
  | Some q => Num q
  | None => NaN
  end.

Fixpoint map_result {A B} (f : A -> result B) (l : list A) : result (list B) :=
  match l with
  | [] => Ok []
  | a :: l' => do b <- f a; do bs <- map_result f l'; Ok (b :: bs)
  end.

Fixpoint fold_result {A B} (f : A -> B -> result A) (l : list B) (a : A) : result A :=
  match l with
  | [] => Ok a
  | b :: l' => do a' <- f a b; fold_result f l' a'
  end.

Definition as_floats (col : list cell) : result (list (option Q)) :=
  map_result as_float col.

Definition of_floats (xs : list (option Q)) : list cell :=
  map of_float xs.

Record DataFrame : Type := mk_frame {
  df_columns : list string;
  df_rows : list (Z * gmap string cell)
}.

(** The cells of a column, row by row. *)
Definition column_cells (name : string) (rows : list (Z * gmap string cell)) : list cell :=
  map (fun r => default NaN (r.2 !! name)) rows.

(** [df[name]] *)
Definition get_column (name : string) (df : DataFrame) : result (list cell) :=
  if decide (name ∈ df_columns df)
  then Ok (column_cells name (df_rows df))
  else Raise (KeyError name).

Definition add_column (name : string) (cols : list string) : list string :=
  if decide (name ∈ cols) then cols else cols ++ [name].

(** Assigning values to a frame that has no row gives the frame the rows
    of the values, labelled 0, 1, ..., with NaN in every other column. *)
Definition grown_rows (name : string) (cols : list string) (vals : list cell)
    : list (Z * gmap string cell) :=
  imap (fun i v => (Z.of_nat i, <[name := v]> (gset_to_gmap NaN (list_to_set cols)))) vals.

(** [df[name] = series]: a Series is aligned on the index of the frame,
    and a row the Series has no value for gets NaN. *)
Definition assign_rows (name : string) (vals : list cell)
    (rows : list (Z * gmap string cell)) : list (Z * gmap string cell) :=
  imap (fun i r => (r.1, <[name := default NaN (vals !! i)]> r.2)) rows.

Definition set_series (name : string) (vals : list cell) (df : DataFrame) : DataFrame :=
  match df_rows df with
  | [] => {| df_columns := add_column name (df_columns df);
             df_rows := grown_rows name (df_columns df) vals |}
  | _ => {| df_columns := add_column name (df_columns df);
            df_rows := assign_rows name vals (df_rows df) |}
  end.

(** [df[name] = array]: an array or list must have the length of the
    frame. *)
Definition set_array (name : string) (vals : list cell) (df : DataFrame) : result DataFrame :=
  match df_rows df with
  | [] => Ok {| df_columns := add_column name (df_columns df);
                df_rows := grown_rows name (df_columns df) vals |}
  | _ => if decide (length vals = length (df_rows df))
         then Ok (set_series name vals df)
         else Raise ValueError
  end.

(** [df.loc[mask, name] = value] *)
Definition set_where (mask : list bool) (name : string) (value : cell) (df : DataFrame)
    : DataFrame :=
  {| df_columns := add_column name (df_columns df);
     df_rows := imap (fun i r => if default false (mask !! i)
                                 then (r.1, <[name := value]> r.2) else r)
                     (df_rows df) |}.

(** [df.dropna()]: the rows with no NaN in any column. *)
Definition row_complete (cols : list string) (r : Z * gmap string cell) : bool :=
  forallb (fun c => negb (is_nan (default NaN (r.2 !! c)))) cols.

Definition dropna (df : DataFrame) : DataFrame :=
  {| df_columns := df_columns df;
     df_rows := List.filter (row_complete (df_columns df)) (df_rows df) |}.

(** ** Rolling windows *)

Definition Qsum (xs : list Q) : Q := fold_right Qplus 0 xs.

Definition np_mean (xs : list Q) : Q := Qsum xs / inject_Z (Z.of_nat (length xs)).

(** The window of [n] observations that ends at position [i], when there
    are [n] of them and none is NaN ([min_periods] is the window length). *)
Definition window (n i : nat) (xs : list (option Q)) : option (list Q) :=
  if (n =? 0)%nat || (i + 1 <? n)%nat then None
  else mapM id (take n (drop (i + 1 - n) xs)).

Definition rolling {A} (n : nat) (agg : list Q -> option A) (xs : list (option Q))
    : list (option A) :=
  imap (fun i _ => w ← window n i xs; agg w) xs.

(** [rolling(n).mean()] *)
Definition rolling_mean (n : nat) (xs : list (option Q)) : list (option Q) :=
  rolling n (fun w => Some (np_mean w)) xs.

(** The sample variance of a window (one degree of freedom taken off). *)
Definition sample_var (w : list Q) : Q :=
  let m := np_mean w in
  Qsum (map (fun x => (x - m) * (x - m)) w) / inject_Z (Z.of_nat (length w - 1)).

(** [rolling(n).std()]: the square root of the sample variance, NaN on a
    window of fewer than two observations.  The square root is the one of
    the numeric library, a parameter of the model. *)
Definition rolling_std (sqrt : Q -> Q) (n : nat) (xs : list (option Q)) : list (option Q) :=
  rolling n (fun w => if (length w <=? 1)%nat then None else Some (sqrt (sample_var w))) xs.

(** ** Indicator columns *)

Module Indicators.

(** Labels of the signal columns. *)
Definition BUY : cell := Str "Buy".
Definition SELL : cell := Str "Sell".
Definition NA : cell := Str "N/A".

(** *** Moving averages and crossovers *)

(** [short_ma - long_ma], NaN where either is. *)
Definition series_sub (xs ys : list (option Q)) : list (option Q) :=
  zip_with (fun x y => a ← x; b ← y; Some (a - b)) xs ys.

(** [np.array(d)[:-1] * np.array(d[1:])] *)
Definition adjacent_products (d : list (option Q)) : list (option Q) :=
  zip_with (fun x y => a ← x; b ← y; Some (a * b)) (removelast d) (tail d).

(** [np.sign] *)
Definition np_sign (q : Q) : Q :=
  if Qlt_bool 0 q then 1 else if Qlt_bool q 0 then -1 else 0.

(** [.map({1:0, 0:0, -1:1})]: a value that is no key of the dict is
    mapped to NaN. *)
Definition crossover_map (c : option Q) : option Q :=
  match c with
  | Some q => if Qeq_bool q 1 then Some 0
              else if Qeq_bool q 0 then Some 0
              else if Qeq_bool q (-1) then Some 1
              else None
  | None => None
  end.

(** The column 'crossover_SECURITY' before the map: the sign of the
    products, after a leading 0 for the first row. *)
Definition crossover_sign (d : list (option Q)) : list (option Q) :=
  map (option_map np_sign) (Some 0 :: adjacent_products d).

(** The column 'crossover_SECURITY': the signs, through the map. *)
Definition crossover_flags (d : list (option Q)) : list (option Q) :=
  map crossover_map (crossover_sign d).

(** [(short_ma > long_ma).map({True: 'Buy', False: 'Sell'})]; a
    comparison with NaN is False. *)
Definition gt_float (x y : option Q) : bool :=
  match x, y with
  | Some a, Some b => Qlt_bool b a
  | _, _ => false
  end.

Definition lt_float (x y : option Q) : bool := gt_float y x.

Definition buy_or_sell (short_ma long_ma : list (option Q)) : list cell :=
  zip_with (fun x y => if gt_float x y then BUY else SELL) short_ma long_ma.

(** [series == 0] *)
Definition eq_num (c : cell) (q : Q) : bool :=
  match c with
  | Num x => Qeq_bool x q
  | _ => false
  end.

(** The column name ['{}_{}d_ma_{}'.format(col_name, n, security)]. *)
Definition ma_col (col_name : string) (n : nat) (security : string) : string :=
  col_name ++ "_" ++ pretty n ++ "d_ma_" ++ security.

(** The body of the loop of [generate_ma_columns] for one security. *)
Definition ma_security (col_name : string) (n0 n1 : nat) (df : DataFrame)
    (security : string) : result DataFrame :=
  let col_name := lower col_name in
  let security := lower security in
  let input_col := col_name ++ "_" ++ security in
  (* for n in ndays *)
  do df <- fold_result
            (fun df n =>
               let final_col := ma_col col_name n security in
               do c <- get_column input_col df;
               do xs <- as_floats c;
               Ok (set_series final_col (of_floats (rolling_mean n xs)) df))
            [n0; n1] df;
  let short_ma_col := ma_col col_name n0 security in
  let long_ma_col := ma_col col_name n1 security in
  do short_ma <- (do c <- get_column short_ma_col df; as_floats c);
  do long_ma <- (do c <- get_column long_ma_col df; as_floats c);
  let ma_diff_col_name := "ma_diff_" ++ security in
  let df := set_series ma_diff_col_name (of_floats (series_sub short_ma long_ma)) df in
  do d <- (do c <- get_column ma_diff_col_name df; as_floats c);
  let crossover_col_name := "crossover_" ++ security in
  do df <- set_array crossover_col_name (of_floats (crossover_sign d)) df;
  do s <- (do c <- get_column crossover_col_name df; as_floats c);
  let df := set_series crossover_col_name (of_floats (map crossover_map s)) df in
  let signal_col_name := "crossover_signal_" ++ security in
  let df := set_series signal_col_name (buy_or_sell short_ma long_ma) df in
  do flags <- get_column crossover_col_name df;
  Ok (set_where (map (fun c => eq_num c 0) flags) signal_col_name NA df).

(** [generate_ma_columns] *)
Definition generate_ma_columns (security_df : DataFrame) (securities : list string)
    (col_name : string) (ndays : list nat) : result DataFrame :=
  match ndays with
  | [n0; n1] =>
      do df <- fold_result (ma_security col_name n0 n1) securities security_df;
      Ok (dropna df)
  | _ => Raise BadNdays
  end.

(** *** Bollinger bands *)

Section Bollinger.

(** The square root of the numeric library. *)
Variable np_sqrt : Q -> Q.

(** [rolling_mean + bollinger_std * rolling_std] and
    [rolling_mean - bollinger_std * rolling_std] *)
Definition band_high (k : Q) (mean std : list (option Q)) : list (option Q) :=
  zip_with (fun m s => a ← m; b ← s; Some (a + k * b)) mean std.

Definition band_low (k : Q) (mean std : list (option Q)) : list (option Q) :=
  zip_with (fun m s => a ← m; b ← s; Some (a - k * b)) mean std.

(** ['Buy' if buy else 'Sell' if sell else 'N/A' for buy, sell in zip(...)] *)
Definition bollinger_signal (buy_signal sell_signal : list bool) : list cell :=
  zip_with (fun buy sell : bool => if buy then BUY else if sell then SELL else NA)
           buy_signal sell_signal.

(** The body of the loop of [generate_bollinger_columns] for one security. *)
Definition bollinger_security (col_name : string) (bollinger_std : Q)
    (bollinger_len : nat) (df : DataFrame) (security : string) : result DataFrame :=
  let col_name := lower col_name in
  let security := lower security in
  let input_col := col_name ++ "_" ++ security in
  let bollinger_high := col_name ++ "_bollinger_high_" ++ security in
  let bollinger_low := col_name ++ "_bollinger_low_" ++ security in
  do xs <- (do c <- get_column input_col df; as_floats c);
  let rolling_mean := rolling_mean bollinger_len xs in
  let rolling_std := rolling_std np_sqrt bollinger_len xs in
  let df := set_series bollinger_high
              (of_floats (band_high bollinger_std rolling_mean rolling_std)) df in
  let df := set_series bollinger_low
              (of_floats (band_low bollinger_std rolling_mean rolling_std)) df in
  do price <- (do c <- get_column input_col df; as_floats c);
  do low <- (do c <- get_column bollinger_low df; as_floats c);
  do high <- (do c <- get_column bollinger_high df; as_floats c);
  let buy_signal := zip_with lt_float price low in
  let sell_signal := zip_with gt_float price high in
  let signal_col_name := "bollinger_signal_" ++ lower security in
  set_array signal_col_name (bollinger_signal buy_signal sell_signal) df.

(** [generate_bollinger_columns] *)
Definition generate_bollinger_columns (security_df : DataFrame) (securities : list string)
    (col_name : string) (bollinger_std : Q) (bollinger_len : nat) : result DataFrame :=
  do df <- fold_result (bollinger_security col_name bollinger_std bollinger_len)
             securities security_df;
  Ok (dropna df).

End Bollinger.

(** *** Relative strength index *)

(** [np.diff] *)
Definition np_diff (xs : list Q) : list Q :=
  zip_with (fun a b => b - a) xs (tail xs).

(** Reading a local variable that may not have been assigned. *)
Definition read_local (name : string) (v : option Q) : result Q :=
  match v with
  | Some q => Ok q
  | None => Raise (UnboundLocalError name)
  end.

Definition py_div (a b : Q) : result Q :=
  if Qeq_bool b 0 then Raise ZeroDivisionError else Ok (a / b).

(** [plot_rsi._rsi_agg].  The locals [pos_mean], [neg_mean] and [rsi] are
    assigned on some paths only; the first branch of the chain assigns
    [rs], not [rsi]. *)
Definition _rsi_agg (security_array : list Q) : result Q :=
  let sec_diff := np_diff security_array in
  let pos_array := List.filter (fun d => Qlt_bool 0 d) sec_diff in
  let neg_array := List.filter (fun d => Qlt_bool d 0) sec_diff in
  let pos_mean := if (0 <? length pos_array)%nat then Some (np_mean pos_array) else None in
  let neg_mean := if (0 <? length neg_array)%nat then Some (- np_mean neg_array) else None in
  do rsi <-
    (if (length neg_array =? 0)%nat && (length pos_array =? 0)%nat then
       (* rs = 50 *) Ok None
     else if (length neg_array =? 0)%nat && (0 <? length pos_array)%nat then
       Ok (Some 100)
     else if (length pos_array =? 0)%nat && (0 <? length neg_array)%nat then
       Ok (Some 0)
     else
       do p <- read_local "pos_mean" pos_mean;
       do n <- read_local "neg_mean" neg_mean;
       do rs <- py_div p n;
       do q <- py_div 100 (1 + rs);
       Ok (Some (100 - q)));
  read_local "rsi" rsi.

End Indicators.

(** ** The simulation: run_simulation_df *)

Module Simulation.
Import Portfolio Indicators.

(** The dict [indicators]: the keys 'ma_crossovers', 'bollinger_len' and
    'bollinger_std', each present or not. *)
Record indicators : Type := mk_indicators {
  ma_crossovers : option (list nat);
  bollinger_len : option nat;
  bollinger_std : option Q
}.

(** The default value of the parameter: [dict(ma_crossovers=[5, 10])]. *)
Definition default_indicators : indicators :=
  {| ma_crossovers := Some [5%nat; 10%nat]; bollinger_len := None; bollinger_std := None |}.

(** What the nested functions of [run_simulation_df] share and change:
    the portfolio and the set of securities held. *)
Record sim_state : Type := mk_sim {
  sec_port : security_portfolio;
  bought_securities : gset string
}.

(** [_get_security_names]: the set of the last components of the column
    names, in the order the simulation goes through it. *)
Definition _get_security_names (security_df : DataFrame) : list string :=
  remove_dups (map last_component (df_columns security_df)).

(** [row[name]] *)
Definition row_get (row : gmap string cell) (name : string) : result cell :=
  match row !! name with
  | Some c => Ok c
  | None => Raise (KeyError name)
  end.

Definition row_float (row : gmap string cell) (name : string) : result (option Q) :=
  do c <- row_get row name; as_float c.

(** [row[name]] where a price is passed on to the portfolio; a NaN there
    fails in [int(np.floor(...))]. *)
Definition row_price (row : gmap string cell) (name : string) : result Q :=
  do c <- row_float row name;
  match c with
  | Some q => Ok q
  | None => Raise ValueError
  end.

(** [a and b]: [b] is evaluated only when [a] is true. *)
Definition rand (a b : result bool) : result bool :=
  do x <- a; if x then b else Ok false.

(** A method of the portfolio called from the simulation: an exception is
    not caught and ends the run. *)
Definition call_port (o : outcome security_portfolio) : result security_portfolio :=
  match o with
  | Returned s => Ok s
  | Raised e _ => Raise e
  end.

(** [_get_ma_crossovers_price] *)
Definition _get_ma_crossovers_price (index : Z) (row : gmap string cell)
    (security : string) (purchase_price : Q) (st : sim_state) : result (Q * sim_state) :=
  let close_col_name := "close_" ++ security in
  let ma_diff_col_name := "ma_diff_" ++ security in
  do buy <- rand (Ok (negb (bool_decide (security ∈ bought_securities st))))
            (rand (do d <- row_float row ma_diff_col_name; Ok (gt_float d (Some 0)))
                  (Ok (Qlt_bool purchase_price (get_total_cash_amt (sec_port st)))));
  if buy then
    do close <- row_price row close_col_name;
    do port <- call_port (buy_max_securities security close index (sec_port st));
    Ok (close, {| sec_port := port;
                  bought_securities := {[security]} ∪ bought_securities st |})
  else
    do sell <- rand (Ok (bool_decide (security ∈ bought_securities st)))
               (rand (do d <- row_float row ma_diff_col_name; Ok (lt_float d (Some 0)))
                     (do c <- row_float row close_col_name;
                      Ok (gt_float c (Some purchase_price))));
    if sell then
      do close <- row_price row close_col_name;
      do port <- call_port (sell_all_securities security close index (sec_port st));
      Ok (purchase_price, {| sec_port := port;
                             bought_securities := bought_securities st ∖ {[security]} |})
    else Ok (purchase_price, st).

(** [_get_bollinger_price].  The sale has no condition on
    [purchase_price]: the source has it in a comment,
    [# and row[close_col_name] > purchase_price]. *)
Definition _get_bollinger_price (index : Z) (row : gmap string cell)
    (security : string) (purchase_price : Q) (st : sim_state) : result (Q * sim_state) :=
  let close_col_name := "close_" ++ security in
  let high_col_name := "close_" ++ security ++ "_bollinger_high" in
  let low_col_name := "close_" ++ security ++ "_bollinger_low" in
  do buy <- rand (Ok (negb (bool_decide (security ∈ bought_securities st))))
            (rand (do c <- row_float row close_col_name;
                   do l <- row_float row low_col_name;
                   Ok (lt_float c l))
                  (Ok (Qlt_bool purchase_price (get_total_cash_amt (sec_port st)))));
  if buy then
    do close <- row_price row close_col_name;
    do port <- call_port (buy_max_securities security close index (sec_port st));
    Ok (close, {| sec_port := port;
                  bought_securities := {[security]} ∪ bought_securities st |})
  else
    do sell <- rand (Ok (bool_decide (security ∈ bought_securities st)))
               (do c <- row_float row close_col_name;
                do h <- row_float row high_col_name;
                Ok (gt_float c h));
    if sell then
      do close <- row_price row close_col_name;
      do port <- call_port (sell_all_securities security close index (sec_port st));
      Ok (purchase_price, {| sec_port := port;
                             bought_securities := bought_securities st ∖ {[security]} |})
    else Ok (purchase_price, st).

Definition has {A} (o : option A) : bool :=
  match o with Some _ => true | None => false end.

(** The body of the two loops of [_run_simulation]: one row, one security. *)
Definition simulate_security (ind : indicators) (index : Z) (row : gmap string cell)
    (acc : Q * sim_state) (security : string) : result (Q * sim_state) :=
  let '(purchase_price, st) := acc in
  let crossover_col_name := "crossover_" ++ security in
  do ma <- rand (Ok (has (ma_crossovers ind)))
           (do c <- row_get row crossover_col_name; Ok (eq_num c 1));
  do acc <- (if ma then _get_ma_crossovers_price index row security purchase_price st
             else Ok (purchase_price, st));
  let '(purchase_price, st) := acc in
  if has (bollinger_len ind) && has (bollinger_std ind)
  then _get_bollinger_price index row security purchase_price st
  else Ok (purchase_price, st).

(** [_run_simulation]: [purchase_price = 0], then every row in order and,
    for each, every security. *)
Definition _run_simulation (ind : indicators) (security_data : DataFrame)
    (securities : list string) (st : sim_state) : result (Q * sim_state) :=
  fold_result
    (fun acc r => fold_result (simulate_security ind r.1 r.2) securities acc)
    (df_rows security_data) (0, st).

(** *** Plotting

    What [_plot_simulation] draws is outside the model; when it raises is
    inside, since [run_simulation_df] calls it before it returns. *)

(** The parameter [plot_options], a set of strings, and its default
    [set(['transactions'])]. *)
Definition default_plot_options : gset string := {["transactions"]}.

(** [security_data[name].plot(c=black)].  Reading the column raises
    KeyError for a column the frame does not have.  pandas plots numeric
    data only: on a series without a row, or one that holds labels,
    [plot] raises TypeError ('Empty ...: no numeric data to plot'). *)
Definition series_plot (security_data : DataFrame) (name : string) : result unit :=
  do col <- get_column name security_data;
  match col with
  | [] => Raise TypeError
  | _ => do _ <- as_floats col; Ok tt
  end.

(** [plt.plot(security_data.index, security_data[name], ...)]: the column
    is read, which raises KeyError where the frame does not have it; what
    matplotlib does with the values is not modelled. *)
Definition plt_plot (security_data : DataFrame) (name : string) : result unit :=
  do _ <- get_column name security_data; Ok tt.

(** The body of the loop of [_plot_simulation] for one security.  The
    columns of the moving averages and of the bands are read under the
    names 'close_<security>_<n>d_ma' and 'close_<security>_bollinger_high'
    and '..._low'.  ([blues] has six colours and [ndays] two windows when
    the columns were generated, so [blues[i]] is in range.) *)
Definition plot_security (ind : indicators) (plot_options : gset string)
    (security_data : DataFrame) (security : string) : result unit :=
  let close_col_name := "close_" ++ security in
  if bool_decide (plot_options = ∅) then Ok tt
  else
    do _ <- series_plot security_data close_col_name;
    do _ <- match ma_crossovers ind with
            | Some ndays =>
                if bool_decide ("ma" ∈ plot_options) then
                  fold_result
                    (fun _ day =>
                       plt_plot security_data
                         ("close_" ++ security ++ "_" ++ pretty day ++ "d_ma"))
                    ndays tt
                else Ok tt
            | None => Ok tt
            end;
    match bollinger_std ind with
    | Some _ =>
        if bool_decide ("bollinger" ∈ plot_options) then
          do _ <- plt_plot security_data ("close_" ++ security ++ "_bollinger_high");
          plt_plot security_data ("close_" ++ security ++ "_bollinger_low")
        else Ok tt
    | None => Ok tt
    end.

(** [_plot_simulation]: every security in turn, then, with 'transactions'
    in [plot_options], one vertical line for each row of the log, which
    is drawn only. *)
Definition _plot_simulation (ind : indicators) (plot_options : gset string)
    (security_data : DataFrame) (securities : list string) : result unit :=
  fold_result (fun _ security => plot_security ind plot_options security_data security)
    securities tt.

Section Run.

Variable np_sqrt : Q -> Q.

(** [run_simulation_df]: the columns of the indicators are generated, the
    loop runs on a new portfolio, the plot is drawn and the portfolio
    returned. *)
Definition run_simulation_df (security_data : DataFrame) (col_name : string)
    (start_cash_amt : Q) (ind : indicators) (verbose : bool)
    (plot_options : gset string) : result security_portfolio :=
  let securities := _get_security_names security_data in
  let col_name := lower col_name in
  do security_data <-
    match ma_crossovers ind with
    | Some ndays => generate_ma_columns security_data securities col_name ndays
    | None => Ok security_data
    end;
  do security_data <-
    match bollinger_std ind, bollinger_len ind with
    | Some k, Some len =>
        generate_bollinger_columns np_sqrt security_data securities col_name k len
    | _, _ => Ok security_data
    end;
  let sec_port := Portfolio.init start_cash_amt verbose in
  let bought_securities : gset string := ∅ in
  do final <- _run_simulation ind security_data securities
                (mk_sim sec_port bought_securities);
  do _ <- _plot_simulation ind plot_options security_data securities;
  Ok (Simulation.sec_port final.2).

End Run.

End Simulation.

(** ** The loop bodies, cut in two

    The body of the loop of [generate_ma_columns] sets the moving averages
    and their difference, then the crossover columns; the one of
    [generate_bollinger_columns] sets three columns.  The frames in
    between, named for the proofs. *)

Module Parts.
Import Indicators.

(** The frame after the moving averages and their difference are set. *)
Definition with_ma_diff (c s : string) (n0 n1 : nat) (xs : list (option Q))
    (df : DataFrame) : DataFrame :=
  let short := rolling_mean n0 xs in
  let long := rolling_mean n1 xs in
  set_series ("ma_diff_" ++ s) (of_floats (series_sub short long))
    (set_series (ma_col c n1 s) (of_floats long)
       (set_series (ma_col c n0 s) (of_floats short) df)).

(** What is left of the loop body from the crossover on. *)
Definition crossover_part (s : string) (short long : list (option Q))
    (df3 : DataFrame) : result DataFrame :=
  let d := series_sub short long in
  let cross := "crossover_" ++ s in
  let sig := "crossover_signal_" ++ s in
  do df4 <- set_array cross (of_floats (crossover_sign d)) df3;
  do s <- (do c <- get_column cross df4; as_floats c);
  let df5 := set_series cross (of_floats (map crossover_map s)) df4 in
  let df6 := set_series sig (buy_or_sell short long) df5 in
  do flags <- get_column cross df6;
  Ok (set_where (map (fun c => eq_num c 0) flags) sig NA df6).

(** The frame [generate_bollinger_columns] builds for one security. *)
Definition with_bands (np_sqrt : Q -> Q) (c s : string) (k : Q) (len : nat)
    (xs : list (option Q)) (df : DataFrame) : DataFrame :=
  let mean := rolling_mean len xs in
  let std := rolling_std np_sqrt len xs in
  let high := band_high k mean std in
  let low := band_low k mean std in
  set_series ("bollinger_signal_" ++ s)
    (bollinger_signal (zip_with lt_float xs low) (zip_with gt_float xs high))
    (set_series (c ++ "_bollinger_low_" ++ s) (of_floats low)
       (set_series (c ++ "_bollinger_high_" ++ s) (of_floats high) df)).

End Parts.

(** ** Price series

    The fields of a price series, and the columns of a field. *)
Definition ohlcv : list string := ["open"; "high"; "low"; "close"; "volume"].

(** A column of the field [c]: its name is [c], an underscore and a rest. *)
Definition field_column (c name : string) : Prop :=
  exists rest, name = c ++ "_" ++ rest.

(** Rows with NaN in every column whose name satisfies [P]. *)
Definition nan_at (P : string -> Prop) (rows : list (Z * gmap string cell)) : Prop :=
  Forall (fun r => forall name, P name -> default NaN (r.2 !! name) = NaN) rows.

(** ** Inputs for the examples *)

(** A frame of one price column, its rows labelled 0, 1, ... *)
Definition price_frame (col : string) (prices : list Q) : DataFrame :=
  {| df_columns := [col];
     df_rows := imap (fun i p => (Z.of_nat i, {[col := Num p]})) prices |}.

(** Some columns of a frame, row by row, the numbers in lowest terms. *)
Definition reduced (c : cell) : cell :=
  match c with
  | Num q => Num (Qred q)
  | _ => c
  end.

Definition column_view (cols : list string) (r : result DataFrame)
    : result (list (Z * list cell)) :=
  do df <- r;
  Ok (map (fun row => (row.1, map (fun c => reduced (default NaN (row.2 !! c))) cols))
          (df_rows df)).

(** A square root that is exact on the squares of rationals, to run the
    Bollinger columns on examples. *)
Definition sqrt_exact (q : Q) : Q :=
  let r := Qred q in
  match Qnum r with
  | Zpos p => Z.sqrt (Zpos p) # Pos.sqrt (Qden r)
  | _ => 0
  end.

(** Windows of prices that go up, or down, at every step. *)
Definition strictly_increasing (xs : list Q) : Prop :=
  forall i a b, xs !! i = Some a -> xs !! S i = Some b -> a < b.

Definition strictly_decreasing (xs : list Q) : Prop :=
  forall i a b, xs !! i = Some a -> xs !! S i = Some b -> b < a.

(** ** Reports on the ledger *)

Module Reports.
Import Portfolio Indicators.

Definition is_sell (tx : transaction) : bool :=
  match tr_trans_type tx with Sell => true | Buy => false end.

(** [get_last_sell_cash_amt]: the balance the last 'Sell' row recorded,
    the starting cash amount when the log has no 'Sell'.  [float] of a
    selection without a row would raise. *)
Definition get_last_sell_cash_amt (self : security_portfolio) : result Q :=
  let df := get_all_transactions self in
  if existsb is_sell df then
    match last (List.filter is_sell df) with
    | Some tx => Ok (tr_total_cash_amt tx)
    | None => Raise TypeError
    end
  else Ok (start_cash_amt self).

(** [get_avg_transaction_freq]: [trans_df.date.diff().mean()].  The mean
    leaves out the NaN that [diff] puts first, and is NaN ([None]) when
    nothing is left. *)
Definition get_avg_transaction_freq (self : security_portfolio) : option Q :=
  match np_diff (map (fun tx => inject_Z (tr_date tx)) (trans_df self)) with
  | [] => None
  | d => Some (np_mean d)
  end.

(** What a row of the log did to the cash: its amount was taken off by a
    'Buy' and put on by a 'Sell'. *)
Definition replay_cash (cash : Q) (tx : transaction) : Q :=
  match tr_trans_type tx with
  | Buy => cash - tr_amt tx
  | Sell => cash + tr_amt tx
  end.

(** The log accounts for the cash: replayed row by row from the starting
    cash amount, with the subtractions and additions of the methods in
    their order, it gives the balance every row recorded and the balance
    now. *)
Definition replayed (self : security_portfolio) : Prop :=
  total_cash_amt self = fold_left replay_cash (trans_df self) (start_cash_amt self)
  /\ forall i tx, trans_df self !! i = Some tx ->
       tr_total_cash_amt tx
       = fold_left replay_cash (take (S i) (trans_df self)) (start_cash_amt self).

(** The last row of the log holds the current balance. *)
Definition last_row_current (self : security_portfolio) : Prop :=
  match last (trans_df self) with
  | Some tx => tr_total_cash_amt tx = total_cash_amt self
  | None => total_cash_amt self = start_cash_amt self
  end.

End Reports.

(** ** Positions

    What the simulation keeps of its trades: the log of the portfolio and
    the set of securities held. *)

Module Positions.
Import Portfolio Simulation.

(** Replaying a log from no position: a 'Buy' opens a position in a
    security that has none, a 'Sell' closes the one it has; a row that
    does neither stops the replay. *)
Definition replay_row (held : option (gset string)) (tx : transaction)
    : option (gset string) :=
  h ← held;
  match tr_trans_type tx with
  | Buy => if bool_decide (tr_security tx ∈ h) then None
           else Some ({[tr_security tx]} ∪ h)
  | Sell => if bool_decide (tr_security tx ∈ h) then Some (h ∖ {[tr_security tx]})
            else None
  end.

Definition replay (log : list transaction) : option (gset string) :=
  fold_left replay_row log (Some ∅).

(** The log replays to the set of securities held, and each of them has an
    entry in the holdings. *)
Definition positions_ok (st : sim_state) : Prop :=
  replay (trans_df (sec_port st)) = Some (bought_securities st)
  /\ forall s, s ∈ bought_securities st -> is_Some (security_dict (sec_port st) !! s).

(** What one of the two rules does to the state when it returns: nothing,
    a purchase of a security that is not held, or the sale of one that
    is. *)
Definition trade (index : Z) (row : gmap string cell) (s : string)
    (st st' : sim_state) : Prop :=
  st' = st
  \/ ((s ∉ bought_securities st)
      /\ exists close,
           row_price row ("close_" ++ s) = Ok close
           /\ buy_max_securities s close index (sec_port st) = Returned (sec_port st')
           /\ bought_securities st' = {[s]} ∪ bought_securities st)
  \/ ((s ∈ bought_securities st)
      /\ exists close,
           row_price row ("close_" ++ s) = Ok close
           /\ sell_all_securities s close index (sec_port st) = Returned (sec_port st')
           /\ bought_securities st' = bought_securities st ∖ {[s]}).

(** How a rule raises: on the data of the row, or in the purchase of a
    security that is not held, or in the sale of one that is. *)
Definition data_error (e : exn) : Prop :=
  match e with
  | KeyError _ | TypeError | ValueError | OverflowError => True
  | _ => False
  end.

Definition trade_raises (index : Z) (row : gmap string cell) (s : string)
    (st : sim_state) (e : exn) : Prop :=
  data_error e
  \/ ((s ∉ bought_securities st)
      /\ exists close port,
           row_price row ("close_" ++ s) = Ok close
           /\ buy_max_securities s close index (sec_port st) = Raised e port)
  \/ ((s ∈ bought_securities st)
      /\ exists close port,
           row_price row ("close_" ++ s) = Ok close
           /\ sell_all_securities s close index (sec_port st) = Raised e port).

(** The errors of a sale. *)
Definition oversell (e : exn) : Prop :=
  match e with
  | NoSharesOwned | NotEnoughShares _ _ => True
  | _ => False
  end.

(** The close prices of the securities, where they are numbers, are
    positive. *)
Definition positive_closes (security_data : DataFrame) (securities : list string) : Prop :=
  forall r s q, r ∈ df_rows security_data -> s ∈ securities ->
    r.2 !! ("close_" ++ s) = Some (Num q) -> 0 < q.

(** A property of the state a run ends in, or of the error it raises. *)
Definition holds (I : sim_state -> Prop) (E : exn -> Prop)
    (r : result (Q * sim_state)) : Prop :=
  match r with
  | Ok (_, st') => I st'
  | Raise e => E e
  end.

End Positions.

(** ** Column names: trimming the security *)

(** [str.rfind]: the highest index at which [sub] starts in [s]. *)
Fixpoint rfind_from (sub s : string) : option nat :=
  match s with
  | EmptyString => if String.prefix sub s then Some 0%nat else None
  | String _ s' =>
      match rfind_from sub s' with
      | Some i => Some (S i)
      | None => if String.prefix sub s then Some 0%nat else None
      end
  end.

(** [s.rfind(sub)], which is -1 when [sub] is nowhere in [s]. *)
Definition rfind (sub s : string) : Z :=
  match rfind_from sub s with
  | Some i => Z.of_nat i
  | None => -1
  end.

(** [s[:i]]: a negative [i] counts from the end. *)
Definition slice_to (s : string) (i : Z) : string :=
  if (0 <=? i)%Z then String.substring 0 (Z.to_nat i) s
  else String.substring 0 (Z.to_nat (Z.of_nat (String.length s) + i)) s.

(** [_trim_security_name] *)
Definition _trim_security_name (sec_string sec_name : string) : string :=
  let last_index := rfind ("_" ++ sec_name) sec_string in
  if (last_index + Z.of_nat (String.length sec_name) + 1
      =? Z.of_nat (String.length sec_string))%Z
  then slice_to sec_string last_index
  else sec_string.

(** A name without an underscore. *)
Fixpoint no_underscore (s : string) : bool :=
  match s with
  | EmptyString => true
  | String c s' => negb (Ascii.eqb c "_"%char) && no_underscore s'
  end.

(** ** Returns: generate_returns *)

Module Returns.
Import Indicators Simulation.

(** A float that a division gives: a number, NaN, or an infinity. *)
Inductive xfloat : Type :=
| XNum (q : Q)
| XNaN
| XInf (negative : bool).

(** The division of two columns of floats: a number by zero is an
    infinity of its sign, zero by zero is NaN, and NaN gives NaN. *)
Definition float_div (a b : option Q) : xfloat :=
  match a, b with
  | Some x, Some y =>
      if Qeq_bool y 0 then
        if Qeq_bool x 0 then XNaN else XInf (Qlt_bool x 0)
      else XNum (x / y)
  | _, _ => XNaN
  end.

(** [Series.shift(1)]: every value one row down, NaN in the first row. *)
Definition shift1 (xs : list (option Q)) : list (option Q) :=
  match xs with
  | [] => []
  | _ => None :: removelast xs
  end.

(** How [generate_returns] fails: its own exception, [list(...)[0]] on no
    security, or what reading the column raises. *)
Inductive returns_error : Type :=
| OneSecurityOnly
| IndexError
| FrameError (e : exn).

(** [generate_returns] *)
Definition generate_returns (security_df : DataFrame) (col_name : string)
    : returns_error + list xfloat :=
  let security_names := _get_security_names security_df in
  if (1 <? length security_names)%nat then inl OneSecurityOnly
  else
    match security_names with
    | [] => inl IndexError
    | security_name :: _ =>
        let col_name := col_name ++ "_" ++ security_name in
        match (do c <- get_column col_name security_df; as_floats c) with
        | Raise e => inl (FrameError e)
        | Ok df_col =>
            let df_last_col := shift1 df_col in
            inr (zip_with float_div (series_sub df_col df_last_col) df_last_col)
        end
    end.

End Returns.

(** ** What the generators leave of a frame *)

Module Kept.
Import Indicators.

(** The columns [generate_ma_columns] sets for a security. *)
Definition ma_columns (c : string) (n0 n1 : nat) (s : string) : list string :=
  [ma_col c n0 s; ma_col c n1 s; "ma_diff_" ++ s; "crossover_" ++ s;
   "crossover_signal_" ++ s].

(** The columns [generate_bollinger_columns] sets for a security. *)
Definition bollinger_columns (c s : string) : list string :=
  [c ++ "_bollinger_high_" ++ s; c ++ "_bollinger_low_" ++ s; "bollinger_signal_" ++ s].

(** The frame [df'] has the rows of [df], with their labels and in their
    order, and their cells in every column but those of [P]. *)
Definition same_rows_except (P : string -> Prop) (df df' : DataFrame) : Prop :=
  length (df_rows df') = length (df_rows df)
  /\ forall i idx r', df_rows df' !! i = Some (idx, r') ->
       exists r, df_rows df !! i = Some (idx, r)
                 /\ forall name, ~ P name -> r' !! name = r !! name.

End Kept.

(** ** The data store *)

(** [data_storage] keeps the downloaded frames in a dict under the
    security's name as given.  The download itself (the module's
    [get_security_data], a call to pandas_datareader) is outside the
    model: the frame it returned is the argument [security_df].  Dates are
    the labels of the index, compared as the index compares them. *)
Module Storage.

Record data_storage : Type := mk_store {
  data_store_dict : gmap string DataFrame
}.

(** [__init__] *)
Definition init : data_storage := {| data_store_dict := ∅ |}.

(** [get_security_data], after the download: the frame is stored and,
    with [return_df], returned. *)
Definition get_security_data (security_df : DataFrame) (security : string)
    (return_df : bool) (self : data_storage) : option DataFrame * data_storage :=
  (if return_df then Some security_df else None,
   {| data_store_dict := <[security := security_df]> (data_store_dict self) |}).

(** [security_df.query(...)] on the index *)
Definition query (keep : Z -> bool) (df : DataFrame) : DataFrame :=
  {| df_columns := df_columns df;
     df_rows := List.filter (fun r => keep (fst r)) (df_rows df) |}.

Definition load_security_data (security : string) (start_date end_date : option Z)
    (self : data_storage) : result DataFrame :=
  match data_store_dict self !! security with
  | None => Raise (KeyError "security not in data dictionary.")
  | Some security_df =>
      match start_date, end_date with
      | None, None => Ok security_df
      | None, Some e => Ok (query (fun index => index <=? e)%Z security_df)
      | Some s, None => Ok (query (fun index => index >=? s)%Z security_df)
      | Some s, Some e =>
          Ok (query (fun index => (index >=? s)%Z && (index <=? e)%Z) security_df)
      end
  end.

End Storage.

(** ** The purchases on binary64 floats

    [security_portfolio] once more, with the cash and the prices as the
    floats of Python (binary64, every operation rounded to the nearest
    float, ties to even) and the share counts as the integers
    [buy_max_securities] passes on.  Only the purchases are embedded
    here; they are where rounding decides between a return and an
    exception.  Dividing by a zero price raises ZeroDivisionError, as it
    does for the floats of Python. *)

Module Binary64.

#[local] Set Warnings "-inexact-float".

Record transaction : Type := mk_transaction {
  tr_date : Z;
  tr_security : string;
  tr_trans_type : Portfolio.trans_type;
  tr_security_price : float;
  tr_amt : float;
  tr_total_cash_amt : float
}.

Record security_portfolio : Type := mk_portfolio {
  start_cash_amt : float;
  total_cash_amt : float;
  security_dict : gmap string Z;
  verbose : bool;
  trans_df : list transaction
}.

(** [__init__] *)
Definition init (cash : float) (verbose : bool) : security_portfolio :=
  {| start_cash_amt := cash;
     total_cash_amt := cash;
     security_dict := ∅;
     verbose := verbose;
     trans_df := [] |}.

(** [int(np.floor(x))]: the largest integer that is not above a finite
    float.  The conversion of an infinity raises OverflowError, the one
    of a NaN ValueError. *)
Definition floor_int (x : float) : result Z :=
  match Prim2SF x with
  | S754_zero _ => Ok 0%Z
  | S754_finite s m e => Ok (Z.shiftl (if s then Z.neg m else Z.pos m) e)
  | S754_infinity _ => Raise OverflowError
  | S754_nan => Raise ValueError
  end.

(** The float an integer is converted to where it meets a float in a
    product: the nearest one, ties to even. *)
Definition of_int (n : Z) : float :=
  SF2Prim (binary_normalize prec emax n 0 false).

(** The rational a finite float stands for. *)
Definition to_Q (x : float) : Q :=
  match Prim2SF x with
  | S754_finite s m e =>
      inject_Z (if s then Z.neg m else Z.pos m) * (2 ^ e)
  | _ => 0
  end.

(** [buy_securities], with an integer amount.  An integer too large for a
    float fails in the product.  The narration printed when [verbose] is
    set does not change the object and is left out. *)
Definition buy_securities (ticker_symbol : string) (amount : Z) (security_price : float)
    (trans_date : Z) (self : security_portfolio) : outcome security_portfolio :=
  if PrimFloat.is_infinity (of_int amount) then Raised OverflowError self
  else if (of_int amount * security_price <=? total_cash_amt self)%float then
    let dict :=
      match security_dict self !! ticker_symbol with
      | Some held => <[ticker_symbol := (held + amount)%Z]> (security_dict self)
      | None => <[ticker_symbol := amount]> (security_dict self)
      end in
    let cash := (total_cash_amt self - of_int amount * security_price)%float in
    let added_row :=
      mk_transaction trans_date ticker_symbol Portfolio.Buy security_price
                     (security_price * of_int amount)%float cash in
    Returned {| start_cash_amt := start_cash_amt self;
                total_cash_amt := cash;
                security_dict := dict;
                verbose := verbose self;
                trans_df := trans_df self ++ [added_row] |}
  else Raised InsufficientCash self.

(** [buy_max_securities]: [amount = int(np.floor(total_cash_amt / security_price))],
    the quotient rounded to a float before the floor is taken. *)
Definition buy_max_securities (ticker_symbol : string) (security_price : float)
    (trans_date : Z) (self : security_portfolio) : outcome security_portfolio :=
  if PrimFloat.is_zero security_price then Raised ZeroDivisionError self
  else
    match floor_int (total_cash_amt self / security_price)%float with
    | Ok amount => buy_securities ticker_symbol amount security_price trans_date self
    | Raise e => Raised e self
    end.

End Binary64.

(** * Properties *)

(** ** Numbers *)

Lemma Qlt_bool_iff x y : Qlt_bool x y = true <-> x < y.
Proof.
  unfold Qlt_bool. rewrite negb_true_iff. split.
  - intros H. apply Qnot_le_lt. intros Hle.
    apply Qle_bool_iff in Hle. congruence.
  - intros H. destruct (Qle_bool y x) eqn:E; [|reflexivity].
    apply Qle_bool_iff in E. exfalso. apply (Qlt_not_le _ _ H E).
Qed.

Lemma Qlt_bool_false x y : Qlt_bool x y = false <-> y <= x.
Proof.
  unfold Qlt_bool. rewrite negb_false_iff. apply Qle_bool_iff.
Qed.

Lemma Qle_bool_false x y : Qle_bool x y = false <-> y < x.
Proof.
  rewrite <- Qlt_bool_iff. unfold Qlt_bool.
  destruct (Qle_bool x y); simpl; split; congruence.
Qed.

Lemma Qeq_bool_false_pos p : 0 < p -> Qeq_bool p 0 = false.
Proof.
  intros Hp. destruct (Qeq_bool p 0) eqn:E; [|reflexivity].
  apply Qeq_bool_iff in E. rewrite E in Hp. exfalso. apply (Qlt_irrefl 0 Hp).
Qed.

(** What [int(np.floor(c / p))] shares cost, for a positive price. *)
Lemma floor_cost_le c p :
  0 < p -> inject_Z (Qfloor (c / p)) * p <= c.
Proof.
  intros Hp.
  assert (H1 : inject_Z (Qfloor (c / p)) <= c / p) by apply Qfloor_le.
  assert (H2 : c / p * p == c) by (field; intros E; rewrite E in Hp; apply (Qlt_irrefl 0 Hp)).
  rewrite <- H2 at 2. apply Qmult_le_compat_r; [exact H1 | apply Qlt_le_weak, Hp].
Qed.

Lemma floor_rest_lt c p :
  0 < p -> c - inject_Z (Qfloor (c / p)) * p < p.
Proof.
  intros Hp.
  assert (H1 : c / p < inject_Z (Qfloor (c / p) + 1)) by apply Qlt_floor.
  assert (H2 : c / p * p == c) by (field; intros E; rewrite E in Hp; apply (Qlt_irrefl 0 Hp)).
  rewrite inject_Z_plus in H1.
  assert (H3 : c / p * p < (inject_Z (Qfloor (c / p)) + inject_Z 1) * p)
    by (apply Qmult_lt_compat_r; assumption).
  rewrite H2 in H3. change (inject_Z 1) with 1 in H3. lra.
Qed.

Lemma floor_nonneg c p : 0 <= c -> 0 < p -> 0 <= inject_Z (Qfloor (c / p)).
Proof.
  intros Hc Hp.
  change 0 with (inject_Z 0). rewrite <- Zle_Qle.
  change 0%Z with (Qfloor 0). apply Qfloor_resp_le.
  apply Qle_shift_div_l; [exact Hp | lra].
Qed.

Lemma floor_zero c p : 0 <= c -> c < p -> Qfloor (c / p) = 0%Z.
Proof.
  intros Hc Hp.
  assert (Hpos : 0 < p) by lra.
  assert (H0 : (0 <= Qfloor (c / p))%Z).
  { change 0%Z with (Qfloor 0). apply Qfloor_resp_le.
    apply Qle_shift_div_l; [exact Hpos | lra]. }
  assert (H1 : (Qfloor (c / p) < 1)%Z).
  { rewrite Zlt_Qlt. apply Qle_lt_trans with (c / p); [apply Qfloor_le|].
    apply Qlt_shift_div_r; [exact Hpos | change (inject_Z 1) with 1; lra]. }
  lia.
Qed.

(** ** The portfolio ledger *)

Module PortfolioFacts.
Import Portfolio.

(** A call that raises leaves the portfolio as it was. *)
Lemma run_call_raised c self e self' :
  run_call c self = Raised e self' -> self' = self.
Proof.
  destruct c as [t a p d|t p d|t a p d|t p d]; simpl;
    unfold buy_max_securities, sell_all_securities, sell_securities, buy_securities;
    repeat (match goal with
            | |- context [match ?x with _ => _ end] => destruct x eqn:?
            end); intros H; inversion H; reflexivity.
Qed.

Lemma buy_securities_ledger_ok t a p d self :
  0 <= a -> ledger_ok self -> ledger_ok (state_of (buy_securities t a p d self)).
Proof.
  intros Ha (Hcash & Hdict & Hlog). unfold buy_securities.
  destruct (Qle_bool (a * p) (total_cash_amt self)) eqn:E; simpl; [|done].
  apply Qle_bool_iff in E.
  assert (Hnew : 0 <= total_cash_amt self - a * p) by lra.
  split; [exact Hnew|]. split.
  - destruct (security_dict self !! t) as [held|] eqn:Ht.
    + apply map_Forall_insert_2; [|exact Hdict].
      specialize (Hdict t held Ht). simpl in Hdict. lra.
    + apply map_Forall_insert_2; [exact Ha | exact Hdict].
  - apply Forall_app. split; [exact Hlog|]. constructor; [exact Hnew | constructor].
Qed.

Lemma sell_securities_ledger_ok t a p d self :
  0 <= a -> 0 < p -> ledger_ok self -> ledger_ok (state_of (sell_securities t a p d self)).
Proof.
  intros Ha Hp (Hcash & Hdict & Hlog). unfold sell_securities.
  destruct (security_dict self !! t) as [n|] eqn:Ht; simpl; [|done].
  destruct (Qlt_bool n a) eqn:E; simpl; [done|].
  apply Qlt_bool_false in E.
  assert (Hnew : 0 <= total_cash_amt self + a * p).
  { assert (0 <= a * p) by (apply Qmult_le_0_compat; lra). lra. }
  split; [exact Hnew|]. split.
  - apply map_Forall_insert_2; [lra | exact Hdict].
  - apply Forall_app. split; [exact Hlog|]. constructor; [exact Hnew | constructor].
Qed.

Lemma run_call_ledger_ok c self :
  call_ok c -> ledger_ok self -> ledger_ok (state_of (run_call c self)).
Proof.
  destruct c as [t a p d|t p d|t a p d|t p d]; simpl.
  - intros [Ha _]. by apply buy_securities_ledger_ok.
  - intros Hp Hok. unfold buy_max_securities.
    rewrite (Qeq_bool_false_pos _ Hp).
    apply buy_securities_ledger_ok; [|exact Hok].
    apply floor_nonneg; [apply Hok | exact Hp].
  - intros [Ha Hp]. by apply sell_securities_ledger_ok.
  - intros Hp Hok. unfold sell_all_securities.
    destruct (security_dict self !! t) as [n|] eqn:Ht; simpl; [|done].
    apply sell_securities_ledger_ok; [|exact Hp|exact Hok].
    destruct Hok as (_ & Hdict & _). apply (Hdict t n Ht).
Qed.

Lemma init_ledger_ok c v : 0 <= c -> ledger_ok (init c v).
Proof.
  intros Hc. repeat split; simpl; [exact Hc | apply map_Forall_empty | constructor].
Qed.

Lemma run_calls_ledger_ok cs : forall self,
  Forall call_ok cs -> ledger_ok self -> ledger_ok (run_calls cs self).
Proof.
  induction cs as [|c cs IH]; intros self Hcs Hok; simpl; [exact Hok|].
  inversion Hcs as [|? ? Hc Hcs']; subst.
  apply IH; [exact Hcs'|]. by apply run_call_ledger_ok.
Qed.

(** With cash [C >= 0] and a price [P > 0] the guard of [buy_securities]
    holds for [floor(C / P)] shares: the object [buy_max_securities]
    returns, field by field. *)
Lemma buy_max_securities_returns t P d self :
  0 <= total_cash_amt self -> 0 < P ->
  let shares := inject_Z (Qfloor (total_cash_amt self / P)) in
  let cash := total_cash_amt self - shares * P in
  buy_max_securities t P d self
  = Returned {| start_cash_amt := start_cash_amt self;
                total_cash_amt := cash;
                security_dict :=
                  match security_dict self !! t with
                  | Some held => <[t := held + shares]> (security_dict self)
                  | None => <[t := shares]> (security_dict self)
                  end;
                verbose := verbose self;
                trans_df := trans_df self
                            ++ [mk_transaction d t Buy P (P * shares) cash] |}.
Proof.
  intros HC HP shares cash.
  unfold buy_max_securities. rewrite (Qeq_bool_false_pos _ HP).
  unfold buy_securities. fold shares.
  assert (Hle : Qle_bool (shares * P) (total_cash_amt self) = true).
  { apply Qle_bool_iff. apply floor_cost_le, HP. }
  rewrite Hle. reflexivity.
Qed.

(** C1.  A portfolio created with a non-negative amount of cash, after any
    sequence of calls of [buy_securities], [buy_max_securities],
    [sell_securities] and [sell_all_securities] with positive prices and
    non-negative amounts, has a non-negative cash balance and a
    non-negative count of shares for every security, and every cash
    balance its transaction log recorded is non-negative; the calls that
    raised left the portfolio as it was. *)
Theorem ledger_never_negative (cash : Q) (v : bool) (cs : list call) :
  0 <= cash ->
  Forall call_ok cs ->
  let final := run_calls cs (init cash v) in
  0 <= total_cash_amt final
  /\ (forall ticker n, security_dict final !! ticker = Some n -> 0 <= n)
  /\ Forall (fun tx => 0 <= tr_total_cash_amt tx) (trans_df final)
  /\ (forall c self e self', run_call c self = Raised e self' -> self' = self).
Proof.
  intros Hc Hcs final.
  destruct (run_calls_ledger_ok cs (init cash v) Hcs (init_ledger_ok cash v Hc))
    as (H1 & H2 & H3).
  repeat split; [exact H1 | exact H2 | exact H3 | apply run_call_raised].
Qed.

Lemma ledger_never_negative_witness :
  let final :=
    run_calls [CallBuy "aapl" 3 10 1; CallBuyMax "msft" 7 2;
               CallSell "aapl" 5 11 3; CallSellAll "msft" 8 4] (init 100 false) in
  0 <= total_cash_amt final
  /\ (forall ticker n, security_dict final !! ticker = Some n -> 0 <= n)
  /\ Forall (fun tx => 0 <= tr_total_cash_amt tx) (trans_df final)
  /\ (forall c self e self', run_call c self = Raised e self' -> self' = self).
Proof.
  apply (ledger_never_negative 100 false
           [CallBuy "aapl" 3 10 1; CallBuyMax "msft" 7 2;
            CallSell "aapl" 5 11 3; CallSellAll "msft" 8 4]).
  - discriminate.
  - repeat constructor; discriminate.
Defined.

(** C7.  [buy_securities] raises exactly when [amount * security_price]
    is strictly more than the cash balance, and then it raises the
    insufficient-cash exception and leaves cash, holdings and log as they
    were; when it returns it has appended exactly one transaction, a 'Buy'
    that records the cash balance after the trade. *)
Theorem buy_securities_spec (t : string) (a p : Q) (d : Z) (self : security_portfolio) :
  match buy_securities t a p d self with
  | Returned self' =>
      a * p <= total_cash_amt self
      /\ total_cash_amt self' = total_cash_amt self - a * p
      /\ security_dict self' =
           <[t := match security_dict self !! t with
                  | Some held => held + a
                  | None => a
                  end]> (security_dict self)
      /\ exists tx, trans_df self' = (trans_df self ++ [tx])%list
           /\ tr_trans_type tx = Buy /\ tr_security tx = t /\ tr_date tx = d
           /\ tr_security_price tx = p /\ tr_amt tx = p * a
           /\ tr_total_cash_amt tx = total_cash_amt self'
  | Raised e self' =>
      total_cash_amt self < a * p /\ e = InsufficientCash /\ self' = self
  end.
Proof.
  unfold buy_securities.
  destruct (Qle_bool (a * p) (total_cash_amt self)) eqn:E.
  - apply Qle_bool_iff in E. simpl.
    split; [exact E|]. split; [reflexivity|]. split.
    + destruct (security_dict self !! t); reflexivity.
    + eexists. split; [reflexivity|]. simpl. repeat split.
  - apply Qle_bool_false in E. repeat split. exact E.
Qed.

(** C8.  [sell_securities] raises exactly when the ticker is no key of
    the holdings or the amount is strictly more than the count held, and
    then it leaves the portfolio as it was; when it returns, the count held
    went down by the amount, the cash went up by [amount * security_price],
    and exactly one transaction, a 'Sell', was appended. *)
Theorem sell_securities_spec (t : string) (a p : Q) (d : Z) (self : security_portfolio) :
  match sell_securities t a p d self with
  | Returned self' =>
      exists n, security_dict self !! t = Some n
        /\ a <= n
        /\ security_dict self' = <[t := n - a]> (security_dict self)
        /\ total_cash_amt self' = total_cash_amt self + a * p
        /\ exists tx, trans_df self' = (trans_df self ++ [tx])%list
             /\ tr_trans_type tx = Sell /\ tr_security tx = t /\ tr_date tx = d
             /\ tr_security_price tx = p /\ tr_amt tx = p * a
             /\ tr_total_cash_amt tx = total_cash_amt self'
  | Raised e self' =>
      (security_dict self !! t = None /\ e = NoSharesOwned
       \/ exists n, security_dict self !! t = Some n /\ n < a
                    /\ e = NotEnoughShares a n)
      /\ self' = self
  end.
Proof.
  unfold sell_securities.
  destruct (security_dict self !! t) as [n|] eqn:Ht.
  - destruct (Qlt_bool n a) eqn:E.
    + apply Qlt_bool_iff in E. split; [|reflexivity].
      right. exists n. repeat split. exact E.
    + apply Qlt_bool_false in E. exists n. simpl.
      split; [reflexivity|]. split; [exact E|]. split; [reflexivity|].
      split; [reflexivity|]. eexists. split; [reflexivity|]. simpl. repeat split.
  - split; [|reflexivity]. left. split; reflexivity.
Qed.

(** The purchase [buy_max_securities] aims at.  With exact quotients, on
    a portfolio with cash [C >= 0], at a price [P > 0], it returns; it has
    bought [floor(C / P)] shares, added to the count held; the cash left is
    [C - floor(C / P) * P], which is strictly less than [P] (and not
    negative).  On floats the quotient is rounded before the floor is
    taken, and the method can raise instead: see [Binary64]. *)
Theorem buy_max_securities_spec (t : string) (P : Q) (d : Z) (self : security_portfolio) :
  0 <= total_cash_amt self ->
  0 < P ->
  let C := total_cash_amt self in
  let shares := inject_Z (Qfloor (C / P)) in
  exists self',
    buy_max_securities t P d self = Returned self'
    /\ security_dict self' =
         <[t := match security_dict self !! t with
                | Some held => held + shares
                | None => shares
                end]> (security_dict self)
    /\ total_cash_amt self' = C - shares * P
    /\ total_cash_amt self' < P
    /\ 0 <= total_cash_amt self'
    /\ exists tx, trans_df self' = (trans_df self ++ [tx])%list
         /\ tr_trans_type tx = Buy /\ tr_security tx = t
         /\ tr_security_price tx = P /\ tr_amt tx = P * shares
         /\ tr_total_cash_amt tx = total_cash_amt self'.
Proof.
  intros HC HP C shares.
  rewrite (buy_max_securities_returns t P d self HC HP).
  fold C. fold shares.
  eexists. split; [reflexivity|]. cbn [security_dict total_cash_amt trans_df].
  split; [destruct (security_dict self !! t); reflexivity|].
  split; [reflexivity|].
  split; [apply floor_rest_lt, HP|].
  split; [pose proof (floor_cost_le C P HP); subst C shares; lra|].
  eexists. split; [reflexivity|]. repeat split.
Qed.

Lemma buy_max_securities_spec_witness :
  let self := init 100 false in
  exists self',
    buy_max_securities "aapl" 7 1 self = Returned self'
    /\ security_dict self' =
         <["aapl" := match security_dict self !! "aapl" with
                     | Some held => held + inject_Z (Qfloor (100 / 7))
                     | None => inject_Z (Qfloor (100 / 7))
                     end]> (security_dict self)
    /\ total_cash_amt self' = 100 - inject_Z (Qfloor (100 / 7)) * 7
    /\ total_cash_amt self' < 7
    /\ 0 <= total_cash_amt self'
    /\ exists tx, trans_df self' = (trans_df self ++ [tx])%list
         /\ tr_trans_type tx = Buy /\ tr_security tx = "aapl"
         /\ tr_security_price tx = 7 /\ tr_amt tx = 7 * inject_Z (Qfloor (100 / 7))
         /\ tr_total_cash_amt tx = total_cash_amt self'.
Proof.
  apply (buy_max_securities_spec "aapl" 7 1 (init 100 false));
    [cbv; discriminate | reflexivity].
Defined.

(** C10.  On a portfolio with cash [C], at a price [P > C > 0],
    [buy_max_securities] does not raise: it buys zero shares.  The cash
    balance is unchanged, the ticker has an entry in the holdings, of 0
    shares when it had none and of the count it had otherwise, no other
    entry changes, and one 'Buy' transaction of amount 0 is appended. *)
Theorem buy_max_securities_unaffordable (t : string) (P : Q) (d : Z)
    (self : security_portfolio) :
  0 < total_cash_amt self ->
  total_cash_amt self < P ->
  exists self',
    buy_max_securities t P d self = Returned self'
    /\ total_cash_amt self' == total_cash_amt self
    /\ (exists n, security_dict self' !! t = Some n
                  /\ n == default 0 (security_dict self !! t))
    /\ (forall t', t' <> t -> security_dict self' !! t' = security_dict self !! t')
    /\ exists tx, trans_df self' = (trans_df self ++ [tx])%list
         /\ tr_trans_type tx = Buy /\ tr_security tx = t /\ tr_security_price tx = P
         /\ tr_amt tx == 0
         /\ tr_total_cash_amt tx == total_cash_amt self.
Proof.
  intros HC HP.
  assert (HC0 : 0 <= total_cash_amt self) by lra.
  assert (HP0 : 0 < P) by lra.
  rewrite (buy_max_securities_returns t P d self HC0 HP0).
  rewrite (floor_zero _ _ HC0 HP). change (inject_Z 0) with 0.
  eexists. split; [reflexivity|]. cbn [security_dict total_cash_amt trans_df].
  split; [ring|].
  split.
  { destruct (security_dict self !! t) as [held|]; rewrite lookup_insert_eq;
      eexists; (split; [reflexivity|]); simpl; ring. }
  split.
  { intros t' Hne.
    destruct (security_dict self !! t) as [held|]; apply lookup_insert_ne; congruence. }
  eexists. split; [reflexivity|]. cbn.
  repeat split; ring.
Qed.

Lemma buy_max_securities_unaffordable_witness :
  let self := init 5 false in
  exists self',
    buy_max_securities "aapl" 7 1 self = Returned self'
    /\ total_cash_amt self' == total_cash_amt self
    /\ (exists n, security_dict self' !! "aapl" = Some n
                  /\ n == default 0 (security_dict self !! "aapl"))
    /\ (forall t', t' <> "aapl" -> security_dict self' !! t' = security_dict self !! t')
    /\ exists tx, trans_df self' = (trans_df self ++ [tx])%list
         /\ tr_trans_type tx = Buy /\ tr_security tx = "aapl" /\ tr_security_price tx = 7
         /\ tr_amt tx == 0
         /\ tr_total_cash_amt tx == total_cash_amt self.
Proof.
  apply (buy_max_securities_unaffordable "aapl" 7 1 (init 5 false)); reflexivity.
Defined.

End PortfolioFacts.

(** ** The relative strength index *)

Module RsiFacts.
Import Indicators.

Lemma filter_repeat_false {A} (f : A -> bool) (y : A) (k : nat) :
  f y = false -> List.filter f (repeat y k) = [].
Proof.
  intros Hf. induction k as [|k IH]; simpl; [reflexivity|]. by rewrite Hf.
Qed.

Lemma zip_with_repeat {A B C} (f : A -> B -> C) (x : A) (y : B) (n m : nat) :
  zip_with f (repeat x n) (repeat y m) = repeat (f x y) (Nat.min n m).
Proof.
  revert m. induction n as [|n IH]; intros [|m]; simpl; try reflexivity.
  by rewrite IH.
Qed.

Lemma np_diff_repeat (x : Q) (n : nat) :
  np_diff (repeat x n) = repeat (x - x) (n - 1).
Proof.
  unfold np_diff.
  replace (tail (repeat x n)) with (repeat x (n - 1)).
  - rewrite zip_with_repeat. f_equal. lia.
  - destruct n; simpl; [reflexivity|]. by rewrite Nat.sub_0_r.
Qed.

(** C4.  On a window of equal prices of any length, where there is no
    gain and no loss, [_rsi_agg] does not return 50: the branch assigns
    [rs], the function returns [rsi], and the call ends in an
    UnboundLocalError. *)
Theorem rsi_agg_flat_window_raises (x : Q) (n : nat) :
  _rsi_agg (repeat x n) = Raise (UnboundLocalError "rsi").
Proof.
  unfold _rsi_agg. rewrite np_diff_repeat.
  rewrite !filter_repeat_false; [reflexivity| |].
  - apply Qlt_bool_false. lra.
  - apply Qlt_bool_false. lra.
Qed.

(** The same at a window of three prices of 5. *)
Example rsi_agg_5_5_5 : _rsi_agg [5; 5; 5] = Raise (UnboundLocalError "rsi").
Proof. reflexivity. Qed.

(** The other three cases of the aggregation. *)

Lemma np_diff_lookup (xs : list Q) (i : nat) (d : Q) :
  np_diff xs !! i = Some d ->
  exists a b, xs !! i = Some a /\ xs !! S i = Some b /\ d = b - a.
Proof.
  unfold np_diff. rewrite lookup_zip_with. rewrite lookup_tail.
  destruct (xs !! i) as [a|]; simpl; [|discriminate].
  destruct (xs !! S i) as [b|]; simpl; [|discriminate].
  intros [= <-]. by exists a, b.
Qed.

Lemma np_diff_length (xs : list Q) : length (np_diff xs) = (length xs - 1)%nat.
Proof.
  unfold np_diff. rewrite length_zip_with. destruct xs; cbn [length tail]; lia.
Qed.

Lemma filter_all {A} (f : A -> bool) (l : list A) :
  Forall (fun x => f x = true) l -> List.filter f l = l.
Proof.
  induction 1 as [|x l Hx _ IH]; simpl; [reflexivity|]. by rewrite Hx, IH.
Qed.

Lemma filter_none {A} (f : A -> bool) (l : list A) :
  Forall (fun x => f x = false) l -> List.filter f l = [].
Proof.
  induction 1 as [|x l Hx _ IH]; simpl; [reflexivity|]. by rewrite Hx, IH.
Qed.

(** X7.  On a window of at least two prices that goes up at every step,
    [_rsi_agg] returns 100. *)
Lemma rsi_agg_increasing (xs : list Q) :
  strictly_increasing xs -> (2 <= length xs)%nat -> _rsi_agg xs = Ok 100.
Proof.
  intros Hinc Hlen. unfold _rsi_agg.
  assert (Hpos : Forall (fun d => 0 < d) (np_diff xs)).
  { apply Forall_lookup. intros i d Hd.
    destruct (np_diff_lookup _ _ _ Hd) as (a & b & Ha & Hb & ->).
    specialize (Hinc i a b Ha Hb). lra. }
  rewrite (filter_all (fun d => Qlt_bool 0 d)), (filter_none (fun d => Qlt_bool d 0)).
  - rewrite np_diff_length. simpl.
    destruct (length xs - 1)%nat eqn:E; [lia|reflexivity].
  - eapply Forall_impl; [exact Hpos|]. intros d Hd. apply Qlt_bool_false. simpl in Hd. lra.
  - eapply Forall_impl; [exact Hpos|]. intros d Hd. by apply Qlt_bool_iff.
Qed.

(** X8.  On a window of at least two prices that goes down at every
    step, [_rsi_agg] returns 0. *)
Lemma rsi_agg_decreasing (xs : list Q) :
  strictly_decreasing xs -> (2 <= length xs)%nat -> _rsi_agg xs = Ok 0.
Proof.
  intros Hdec Hlen. unfold _rsi_agg.
  assert (Hneg : Forall (fun d => d < 0) (np_diff xs)).
  { apply Forall_lookup. intros i d Hd.
    destruct (np_diff_lookup _ _ _ Hd) as (a & b & Ha & Hb & ->).
    specialize (Hdec i a b Ha Hb). lra. }
  rewrite (filter_none (fun d => Qlt_bool 0 d)), (filter_all (fun d => Qlt_bool d 0)).
  - rewrite np_diff_length. simpl.
    destruct (length xs - 1)%nat eqn:E; [lia|reflexivity].
  - eapply Forall_impl; [exact Hneg|]. intros d Hd. by apply Qlt_bool_iff.
  - eapply Forall_impl; [exact Hneg|]. intros d Hd. apply Qlt_bool_false. simpl in Hd. lra.
Qed.

Lemma Qsum_pos (l : list Q) : Forall (fun d => 0 < d) l -> l <> [] -> 0 < Qsum l.
Proof.
  induction 1 as [|x l Hx Hl IH]; intros Hne; [done|]. simpl.
  destruct l as [|y l]; [simpl; lra|].
  assert (0 < Qsum (y :: l)) by (apply IH; discriminate). lra.
Qed.

Lemma Qsum_neg (l : list Q) : Forall (fun d => d < 0) l -> l <> [] -> Qsum l < 0.
Proof.
  induction 1 as [|x l Hx Hl IH]; intros Hne; [done|]. simpl.
  destruct l as [|y l]; [simpl; lra|].
  assert (Qsum (y :: l) < 0) by (apply IH; discriminate). lra.
Qed.

Lemma length_pos_Q {A} (l : list A) : l <> [] -> 0 < inject_Z (Z.of_nat (length l)).
Proof.
  intros Hne. destruct l; [done|].
  change 0 with (inject_Z 0). rewrite <- Zlt_Qlt. simpl. lia.
Qed.

(** With a gain and a loss in the window, the index is
    [100 - 100 / (1 + avg_gain / avg_loss)]. *)
Lemma rsi_agg_mixed (xs : list Q) :
  let pos := List.filter (fun d => Qlt_bool 0 d) (np_diff xs) in
  let neg := List.filter (fun d => Qlt_bool d 0) (np_diff xs) in
  pos <> [] -> neg <> [] ->
  _rsi_agg xs = Ok (100 - 100 / (1 + np_mean pos / - np_mean neg)).
Proof.
  intros pos neg Hpos Hneg. unfold _rsi_agg. fold pos. fold neg.
  assert (Hp : 0 < np_mean pos).
  { unfold np_mean. apply Qlt_shift_div_l; [by apply length_pos_Q|].
    rewrite Qmult_0_l. apply Qsum_pos; [|exact Hpos].
    apply Forall_forall. intros d Hd. apply list_elem_of_In, filter_In in Hd.
    destruct Hd as [_ Hd]. by apply Qlt_bool_iff. }
  assert (Hn : 0 < - np_mean neg).
  { unfold np_mean.
    assert (Qsum neg / inject_Z (Z.of_nat (length neg)) < 0); [|lra].
    apply Qlt_shift_div_r; [by apply length_pos_Q|].
    rewrite Qmult_0_l. apply Qsum_neg; [|exact Hneg].
    apply Forall_forall. intros d Hd. apply list_elem_of_In, filter_In in Hd.
    destruct Hd as [_ Hd]. by apply Qlt_bool_iff. }
  assert (Hrs : 0 < np_mean pos / - np_mean neg).
  { apply Qlt_shift_div_l; [exact Hn | lra]. }
  destruct pos as [|p0 pos']; [done|]. destruct neg as [|n0 neg']; [done|].
  cbn [length Nat.eqb Nat.ltb Nat.leb andb]. cbn [read_local rbind].
  unfold py_div. rewrite (Qeq_bool_false_pos _ Hn). cbn [rbind].
  rewrite Qeq_bool_false_pos; [reflexivity | lra].
Qed.

End RsiFacts.

(** ** Column names *)

Module NameFacts.
Import Indicators.

Lemma append_cons (x : ascii) (a b : string) : String x a ++ b = String x (a ++ b).
Proof. reflexivity. Qed.

Lemma append_nil (b : string) : "" ++ b = b.
Proof. reflexivity. Qed.

Lemma length_append (a b : string) :
  String.length (a ++ b) = (String.length a + String.length b)%nat.
Proof.
  induction a as [|c a IH]; [reflexivity|].
  rewrite append_cons. simpl. by rewrite IH.
Qed.

Lemma append_assoc (a b c : string) : (a ++ b) ++ c = a ++ (b ++ c).
Proof.
  induction a as [|x a IH]; [reflexivity|].
  rewrite !append_cons. by rewrite IH.
Qed.

Lemma append_inv_tail (a b s : string) : a ++ s = b ++ s -> a = b.
Proof.
  revert b. induction a as [|x a IH]; intros [|y b] H;
    rewrite ?append_cons, ?append_nil in H.
  - reflexivity.
  - exfalso. apply (f_equal String.length) in H. simpl in H.
    rewrite length_append in H. lia.
  - exfalso. apply (f_equal String.length) in H. simpl in H.
    rewrite length_append in H. lia.
  - injection H as -> H. f_equal. by apply IH.
Qed.

Lemma append_neq_tail (a s : string) : a <> "" -> a ++ s <> s.
Proof.
  intros Ha H. apply (f_equal String.length) in H. rewrite length_append in H.
  destruct a; [done|]. simpl in H. lia.
Qed.

Lemma ma_col_neq_input c n s : ma_col c n s <> c ++ "_" ++ s.
Proof.
  unfold ma_col. intros H. apply String.app_inj in H.
  apply (String.app_inj "_") in H.
  rewrite <- append_assoc in H.
  apply (append_neq_tail (pretty n ++ "d_ma_") s); [|exact H].
  intros E. apply (f_equal String.length) in E. rewrite length_append in E.
  simpl in E. lia.
Qed.

Lemma ma_col_inj c n0 n1 s : ma_col c n0 s = ma_col c n1 s -> n0 = n1.
Proof.
  unfold ma_col. intros H. apply String.app_inj in H.
  apply (String.app_inj "_") in H.
  rewrite <- !append_assoc in H. apply append_inv_tail in H.
  apply append_inv_tail in H. by apply (inj pretty) in H.
Qed.

Lemma diff_neq_crossover s : "ma_diff_" ++ s <> "crossover_" ++ s.
Proof. intros H. cbv in H. discriminate. Qed.

Lemma diff_neq_signal s : "ma_diff_" ++ s <> "crossover_signal_" ++ s.
Proof. intros H. cbv in H. discriminate. Qed.

Lemma crossover_neq_signal s : "crossover_" ++ s <> "crossover_signal_" ++ s.
Proof.
  intros H. apply (String.app_inj "crossover_" s ("signal_" ++ s)) in H.
  symmetry in H. by apply (append_neq_tail "signal_" s) in H.
Qed.

End NameFacts.

(** ** Frames *)

Module FrameFacts.
Import Indicators.

Lemma rbind_ok {A B} (r : result A) (k : A -> result B) (b : B) :
  rbind r k = Ok b -> exists a, r = Ok a /\ k a = Ok b.
Proof. destruct r as [a|e]; simpl; [eauto | discriminate]. Qed.

Lemma as_floats_of_floats (l : list (option Q)) : as_floats (of_floats l) = Ok l.
Proof.
  unfold as_floats, of_floats. induction l as [|o l IH]; simpl; [reflexivity|].
  rewrite IH. by destruct o.
Qed.

Lemma as_floats_inv (col : list cell) (xs : list (option Q)) :
  as_floats col = Ok xs -> col = of_floats xs.
Proof.
  unfold as_floats, of_floats. revert xs.
  induction col as [|c col IH]; intros xs H; simpl in H.
  - by injection H as <-.
  - apply rbind_ok in H as (o & Ho & H). apply rbind_ok in H as (os & Hos & H).
    injection H as <-. simpl. rewrite <- (IH os Hos).
    destruct c; simpl in Ho; try discriminate; by injection Ho as <-.
Qed.

Lemma length_of_floats l : length (of_floats l) = length l.
Proof. apply length_map. Qed.

Lemma lookup_of_floats l i : of_floats l !! i = of_float <$> l !! i.
Proof. apply list_lookup_fmap. Qed.

Lemma length_column_cells name rows : length (column_cells name rows) = length rows.
Proof. apply length_map. Qed.

Lemma length_assign_rows name vals rows : length (assign_rows name vals rows) = length rows.
Proof. apply length_imap. Qed.

Lemma lookup_assign_rows name vals rows i :
  assign_rows name vals rows !! i
  = (fun r => (r.1, <[name := default NaN (vals !! i)]> r.2)) <$> rows !! i.
Proof. unfold assign_rows. by rewrite list_lookup_imap. Qed.

Lemma column_cells_assign_eq name vals rows :
  length vals = length rows -> column_cells name (assign_rows name vals rows) = vals.
Proof.
  intros Hlen. apply list_eq. intros i. unfold column_cells.
  rewrite list_lookup_fmap, lookup_assign_rows.
  destruct (rows !! i) as [r|] eqn:Hr; simpl.
  - rewrite lookup_insert_eq. simpl.
    destruct (vals !! i) as [v|] eqn:Hv; [reflexivity|].
    apply lookup_ge_None in Hv. apply lookup_lt_Some in Hr. lia.
  - symmetry. apply lookup_ge_None. apply lookup_ge_None in Hr. lia.
Qed.

Lemma column_cells_assign_ne name name' vals rows :
  name <> name' -> column_cells name' (assign_rows name vals rows) = column_cells name' rows.
Proof.
  intros Hne. apply list_eq. intros i. unfold column_cells.
  rewrite !list_lookup_fmap, lookup_assign_rows.
  destruct (rows !! i) as [r|]; simpl; [|reflexivity].
  by rewrite lookup_insert_ne.
Qed.

Lemma elem_of_add_column x name cols :
  x ∈ add_column name cols <-> x = name \/ x ∈ cols.
Proof.
  unfold add_column. destruct (decide (name ∈ cols)) as [Hin|Hnin].
  - split; [auto|]. intros [->|H]; assumption.
  - rewrite elem_of_app, list_elem_of_singleton. tauto.
Qed.

Lemma set_series_nonempty name vals df :
  df_rows df <> [] ->
  set_series name vals df
  = {| df_columns := add_column name (df_columns df);
       df_rows := assign_rows name vals (df_rows df) |}.
Proof. unfold set_series. by destruct (df_rows df). Qed.

Lemma set_series_columns name vals df :
  df_columns (set_series name vals df) = add_column name (df_columns df).
Proof. unfold set_series. by destruct (df_rows df). Qed.

Lemma get_column_ok name df :
  name ∈ df_columns df -> get_column name df = Ok (column_cells name (df_rows df)).
Proof. intros H. unfold get_column. by rewrite decide_True. Qed.

Lemma get_column_inv name df col :
  get_column name df = Ok col ->
  name ∈ df_columns df /\ col = column_cells name (df_rows df).
Proof.
  unfold get_column. destruct (decide (name ∈ df_columns df)); [|discriminate].
  by intros [= <-].
Qed.

Lemma set_series_rows name vals df :
  length vals = length (df_rows df) ->
  df_rows (set_series name vals df) = assign_rows name vals (df_rows df).
Proof.
  unfold set_series. destruct (df_rows df) as [|r rows] eqn:E; [|reflexivity].
  destruct vals; [reflexivity | discriminate].
Qed.

Lemma get_set_series_eq name vals df :
  length vals = length (df_rows df) ->
  get_column name (set_series name vals df) = Ok vals.
Proof.
  intros Hlen. rewrite get_column_ok.
  - by rewrite set_series_rows, column_cells_assign_eq.
  - rewrite set_series_columns. apply elem_of_add_column. by left.
Qed.

Lemma get_set_series_ne name name' vals df :
  name <> name' ->
  length vals = length (df_rows df) ->
  get_column name' (set_series name vals df) = get_column name' df.
Proof.
  intros Hne Hlen. unfold get_column.
  rewrite set_series_columns, set_series_rows, column_cells_assign_ne by done.
  destruct (decide (name' ∈ df_columns df)) as [Hin|Hnin].
  - rewrite decide_True; [reflexivity|]. apply elem_of_add_column. by right.
  - rewrite decide_False; [reflexivity|]. rewrite elem_of_add_column.
    intros [->|?]; done.
Qed.

Lemma set_array_same_length name vals df :
  length vals = length (df_rows df) ->
  set_array name vals df = Ok (set_series name vals df).
Proof.
  intros Hlen. unfold set_array.
  destruct (df_rows df) as [|r rows] eqn:E.
  - unfold set_series. by rewrite E.
  - by rewrite decide_True.
Qed.

Lemma length_rolling {A} n (agg : list Q -> option A) xs :
  length (rolling n agg xs) = length xs.
Proof. apply length_imap. Qed.

Lemma length_series_sub xs ys :
  length xs = length ys -> length (series_sub xs ys) = length xs.
Proof. intros H. unfold series_sub. rewrite length_zip_with. lia. Qed.

Lemma length_removelast {A} (l : list A) : length (removelast l) = (length l - 1)%nat.
Proof.
  induction l as [|x [|y l] IH]; [reflexivity..|].
  change (removelast (x :: y :: l)) with (x :: removelast (y :: l)).
  cbn [length] in *. lia.
Qed.

Lemma lookup_removelast {A} (l : list A) i :
  (S i < length l)%nat -> removelast l !! i = l !! i.
Proof.
  revert i. induction l as [|x [|y l] IH]; intros i Hi; cbn [length] in Hi; [lia..|].
  change (removelast (x :: y :: l)) with (x :: removelast (y :: l)).
  destruct i as [|i]; [reflexivity|]. cbn [lookup list_lookup]. simpl.
  apply IH. cbn [length]. lia.
Qed.

Lemma length_crossover_sign d :
  d <> [] -> length (crossover_sign d) = length d.
Proof.
  intros Hd. unfold crossover_sign, adjacent_products.
  rewrite length_map. cbn [length]. rewrite length_zip_with, length_removelast.
  destruct d; [done|]. cbn [length tail]. lia.
Qed.

Lemma crossover_sign_first d : crossover_sign d !! 0%nat = Some (Some 0).
Proof. reflexivity. Qed.

Lemma crossover_sign_next d i :
  (S i < length d)%nat ->
  crossover_sign d !! S i
  = Some (option_map np_sign (a ← default None (d !! i);
                              b ← default None (d !! S i); Some (a * b))).
Proof.
  intros Hi. unfold crossover_sign, adjacent_products.
  rewrite list_lookup_fmap.
  change ((Some 0 :: ?l) !! S i) with (l !! i).
  rewrite lookup_zip_with, lookup_removelast, lookup_tail by done.
  destruct (d !! i) as [x|] eqn:Hx; [|apply lookup_ge_None in Hx; lia].
  destruct (d !! S i) as [y|] eqn:Hy; [|apply lookup_ge_None in Hy; lia].
  reflexivity.
Qed.

(** The flag of a product: 1 when it is negative, 0 otherwise. *)
Lemma crossover_map_sign q :
  crossover_map (Some (np_sign q)) = Some (if Qlt_bool q 0 then 1 else 0).
Proof.
  unfold np_sign. destruct (Qlt_bool 0 q) eqn:E1.
  - apply Qlt_bool_iff in E1.
    assert (Qlt_bool q 0 = false) as -> by (apply Qlt_bool_false; lra).
    reflexivity.
  - destruct (Qlt_bool q 0); reflexivity.
Qed.

End FrameFacts.

(** ** Moving averages and crossovers *)

Module MaFacts.
Import Indicators Parts NameFacts FrameFacts.

Lemma length_rolling_mean n xs : length (rolling_mean n xs) = length xs.
Proof. apply length_rolling. Qed.

Lemma input_floats_length name df xs :
  (do c <- get_column name df; as_floats c) = Ok xs ->
  length xs = length (df_rows df).
Proof.
  intros H. apply rbind_ok in H as (col & Hcol & Hxs).
  apply get_column_inv in Hcol as [_ ->]. apply as_floats_inv in Hxs.
  apply (f_equal length) in Hxs.
  rewrite length_column_cells, length_of_floats in Hxs. lia.
Qed.

Lemma ma_security_unfold c n0 n1 df sec :
  ma_security c n0 n1 df sec =
  do xs <- (do col <- get_column (lower c ++ "_" ++ lower sec) df; as_floats col);
  crossover_part (lower sec) (rolling_mean n0 xs) (rolling_mean n1 xs)
    (with_ma_diff (lower c) (lower sec) n0 n1 xs df).
Proof.
  unfold ma_security. cbn [fold_result].
  set (c' := lower c). set (s' := lower sec). set (input := c' ++ "_" ++ s').
  destruct (get_column input df) as [col|e] eqn:Hcol; [|reflexivity].
  cbn [rbind].
  destruct (as_floats col) as [xs|e] eqn:Hxs; [|reflexivity].
  cbn [rbind].
  assert (Hlen : length xs = length (df_rows df)).
  { apply (input_floats_length input). by rewrite Hcol. }
  set (short := rolling_mean n0 xs). set (long := rolling_mean n1 xs).
  assert (Hshort : length (of_floats short) = length (df_rows df)).
  { unfold short. by rewrite length_of_floats, length_rolling_mean. }
  assert (Hlong : length (of_floats long) = length (df_rows df)).
  { unfold long. by rewrite length_of_floats, length_rolling_mean. }
  set (df1 := set_series (ma_col c' n0 s') (of_floats short) df).
  assert (Hrows1 : length (df_rows df1) = length (df_rows df)).
  { unfold df1. by rewrite set_series_rows, length_assign_rows. }
  unfold df1.
  rewrite (get_set_series_ne _ input); [|apply ma_col_neq_input|exact Hshort].
  fold df1. rewrite Hcol. cbn [rbind]. rewrite Hxs. cbn [rbind]. fold long.
  set (df2 := set_series (ma_col c' n1 s') (of_floats long) df1).
  assert (Hrows2 : length (df_rows df2) = length (df_rows df)).
  { unfold df2. rewrite set_series_rows, length_assign_rows; lia. }
  assert (Hs : get_column (ma_col c' n0 s') df2 = Ok (of_floats short)).
  { unfold df2. destruct (decide (ma_col c' n1 s' = ma_col c' n0 s')) as [E|E].
    - rewrite <- E. rewrite get_set_series_eq by lia.
      apply ma_col_inj in E. unfold short, long. by rewrite E.
    - rewrite get_set_series_ne by (done || lia).
      unfold df1. by rewrite get_set_series_eq. }
  rewrite Hs. cbn [rbind]. rewrite as_floats_of_floats. cbn [rbind].
  assert (Hl : get_column (ma_col c' n1 s') df2 = Ok (of_floats long)).
  { unfold df2. rewrite get_set_series_eq; [reflexivity | lia]. }
  rewrite Hl. cbn [rbind]. rewrite as_floats_of_floats. cbn [rbind].
  rewrite get_set_series_eq.
  2:{ rewrite length_of_floats, length_series_sub.
      - unfold short. rewrite length_rolling_mean. lia.
      - unfold short, long. by rewrite !length_rolling_mean. }
  cbn [rbind]. rewrite as_floats_of_floats. cbn [rbind].
  reflexivity.
Qed.

Lemma length_buy_or_sell short long :
  length short = length long -> length (buy_or_sell short long) = length short.
Proof. intros H. unfold buy_or_sell. rewrite length_zip_with. lia. Qed.

Lemma length_crossover_flags d : d <> [] -> length (crossover_flags d) = length d.
Proof. intros H. unfold crossover_flags. by rewrite length_map, length_crossover_sign. Qed.

Lemma crossover_part_nonempty s short long df3 :
  df_rows df3 <> [] ->
  length short = length (df_rows df3) ->
  length long = length (df_rows df3) ->
  let d := series_sub short long in
  let cross := "crossover_" ++ s in
  let sig := "crossover_signal_" ++ s in
  crossover_part s short long df3 =
  Ok (set_where (map (fun c => eq_num c 0) (of_floats (crossover_flags d))) sig NA
        (set_series sig (buy_or_sell short long)
           (set_series cross (of_floats (crossover_flags d))
              (set_series cross (of_floats (crossover_sign d)) df3)))).
Proof.
  intros Hne Hs Hl d cross sig. unfold crossover_part. fold d cross sig.
  assert (Hd : length d = length (df_rows df3)).
  { unfold d. rewrite length_series_sub; lia. }
  assert (Hdne : d <> []).
  { intros E. rewrite E in Hd. destruct (df_rows df3); done. }
  assert (Hc_len : length (of_floats (crossover_sign d)) = length (df_rows df3)).
  { rewrite length_of_floats, length_crossover_sign; done. }
  assert (Hf_len : length (of_floats (crossover_flags d)) = length (df_rows df3)).
  { rewrite length_of_floats, length_crossover_flags; done. }
  assert (Hb_len : length (buy_or_sell short long) = length (df_rows df3)).
  { rewrite length_buy_or_sell; lia. }
  rewrite set_array_same_length by done.
  cbn [rbind]. rewrite get_set_series_eq by done.
  cbn [rbind]. rewrite as_floats_of_floats. cbn [rbind].
  fold (crossover_flags d).
  set (df4 := set_series cross (of_floats (crossover_sign d)) df3).
  assert (H4 : length (df_rows df4) = length (df_rows df3)).
  { unfold df4. by rewrite set_series_rows, length_assign_rows. }
  set (df5 := set_series cross (of_floats (crossover_flags d)) df4).
  assert (H5 : length (df_rows df5) = length (df_rows df3)).
  { unfold df5. rewrite set_series_rows, length_assign_rows; lia. }
  rewrite get_set_series_ne.
  - unfold df5 at 1. rewrite get_set_series_eq; [reflexivity|lia].
  - intros E. symmetry in E. by apply crossover_neq_signal in E.
  - lia.
Qed.

Lemma assign_rows_nonempty name vals rows :
  rows <> [] -> assign_rows name vals rows <> [].
Proof.
  intros H E. apply (f_equal length) in E. rewrite length_assign_rows in E.
  destruct rows; done.
Qed.

Lemma set_series_rows_nonempty name vals df :
  df_rows df <> [] ->
  df_rows (set_series name vals df) = assign_rows name vals (df_rows df).
Proof. intros H. by rewrite set_series_nonempty. Qed.

Lemma set_series_keeps_rows name vals df :
  df_rows df <> [] -> df_rows (set_series name vals df) <> [].
Proof.
  intros H. rewrite set_series_rows_nonempty by done. by apply assign_rows_nonempty.
Qed.

(** The rows of [set_where]. *)
Lemma lookup_set_where mask name v df i :
  df_rows (set_where mask name v df) !! i
  = (fun r => if default false (mask !! i) then (r.1, <[name := v]> r.2) else r)
      <$> df_rows df !! i.
Proof. unfold set_where. cbn [df_rows]. by rewrite list_lookup_imap. Qed.

Lemma lookup_buy_or_sell short long i x y :
  short !! i = Some x -> long !! i = Some y ->
  buy_or_sell short long !! i = Some (if gt_float x y then BUY else SELL).
Proof. intros Hx Hy. unfold buy_or_sell. by rewrite lookup_zip_with, Hx, Hy. Qed.

Local Opaque crossover_sign crossover_flags buy_or_sell of_floats.

(** The row at position [i] after the loop body, on a frame that has rows. *)
Lemma crossover_part_row s short long df3 df' i idx r' :
  df_rows df3 <> [] ->
  length short = length (df_rows df3) ->
  length long = length (df_rows df3) ->
  crossover_part s short long df3 = Ok df' ->
  df_rows df' !! i = Some (idx, r') ->
  let d := series_sub short long in
  exists r f x y,
    df_rows df3 !! i = Some (idx, r)
    /\ crossover_flags d !! i = Some f
    /\ short !! i = Some x /\ long !! i = Some y
    /\ r' !! ("crossover_" ++ s) = Some (of_float f)
    /\ r' !! ("crossover_signal_" ++ s)
       = Some (if eq_num (of_float f) 0 then NA
               else if gt_float x y then BUY else SELL)
    /\ (forall name, name <> "crossover_" ++ s -> name <> "crossover_signal_" ++ s ->
                     r' !! name = r !! name).
Proof.
  intros Hne Hs Hl Hrun Hrow d.
  rewrite crossover_part_nonempty in Hrun by done. injection Hrun as <-.
  fold d in Hrow.
  assert (Hd : length d = length (df_rows df3)).
  { unfold d. rewrite length_series_sub; lia. }
  assert (Hdne : d <> []).
  { intros E. rewrite E in Hd. destruct (df_rows df3); done. }
  set (cross := "crossover_" ++ s) in *. set (sig := "crossover_signal_" ++ s) in *.
  assert (Hc_len : length (of_floats (crossover_sign d)) = length (df_rows df3)).
  { rewrite length_of_floats, length_crossover_sign; done. }
  assert (Hf_len : length (of_floats (crossover_flags d)) = length (df_rows df3)).
  { rewrite length_of_floats, length_crossover_flags; done. }
  assert (Hb_len : length (buy_or_sell short long) = length (df_rows df3)).
  { rewrite length_buy_or_sell; lia. }
  rewrite lookup_set_where in Hrow.
  rewrite !set_series_rows_nonempty in Hrow
    by (repeat apply set_series_keeps_rows; exact Hne).
  rewrite !lookup_assign_rows in Hrow.
  destruct (df_rows df3 !! i) as [[idx0 r]|] eqn:Hr; [|discriminate].
  pose proof (lookup_lt_Some _ _ _ Hr) as Hi.
  destruct (crossover_flags d !! i) as [f|] eqn:Hf;
    [|apply lookup_ge_None in Hf; rewrite length_crossover_flags in Hf; done || lia].
  destruct (short !! i) as [x|] eqn:Hx; [|apply lookup_ge_None in Hx; lia].
  destruct (long !! i) as [y|] eqn:Hy; [|apply lookup_ge_None in Hy; lia].
  assert (Hcs : cross <> sig) by apply crossover_neq_signal.
  rewrite list_lookup_fmap, lookup_of_floats, Hf in Hrow.
  rewrite (lookup_buy_or_sell _ _ _ _ _ Hx Hy) in Hrow. cbn [fmap option_fmap option_map default fst snd] in Hrow.
  exists r, f, x, y.
  split; [|split; [reflexivity|split; [reflexivity|split; [reflexivity|]]]].
  - destruct (eq_num (of_float f) 0); by injection Hrow as -> _.
  - destruct (eq_num (of_float f) 0); injection Hrow as _ <-.
    + split; [|split].
      * rewrite lookup_insert_ne, lookup_insert_ne, lookup_insert_eq by done. done.
      * by rewrite lookup_insert_eq.
      * intros name H1 H2. by rewrite !lookup_insert_ne.
    + split; [|split].
      * rewrite lookup_insert_ne, lookup_insert_eq by done. done.
      * by rewrite lookup_insert_eq.
      * intros name H1 H2. by rewrite !lookup_insert_ne.
Qed.

Local Transparent crossover_sign crossover_flags buy_or_sell of_floats.

Lemma set_series_row name vals df i idx r' :
  df_rows df <> [] ->
  df_rows (set_series name vals df) !! i = Some (idx, r') ->
  exists r, df_rows df !! i = Some (idx, r)
            /\ r' = <[name := default NaN (vals !! i)]> r.
Proof.
  intros Hne. rewrite set_series_rows_nonempty, lookup_assign_rows by done.
  destruct (df_rows df !! i) as [[idx0 r]|]; [|discriminate].
  intros [= <- <-]. by exists r.
Qed.

Lemma set_where_row mask name v df i idx r' :
  df_rows (set_where mask name v df) !! i = Some (idx, r') ->
  exists r, df_rows df !! i = Some (idx, r)
            /\ forall n, n <> name -> r' !! n = r !! n.
Proof.
  rewrite lookup_set_where.
  destruct (df_rows df !! i) as [[idx0 r]|]; [|discriminate].
  cbn [fmap option_fmap option_map].
  destruct (default false (mask !! i)); intros [= <- <-]; exists r.
  - split; [reflexivity|]. intros n Hn. by rewrite lookup_insert_ne.
  - by split.
Qed.

Lemma set_series_length name vals df :
  length vals = length (df_rows df) ->
  length (df_rows (set_series name vals df)) = length (df_rows df).
Proof. intros H. by rewrite set_series_rows, length_assign_rows. Qed.

Lemma set_where_columns mask name v df :
  df_columns (set_where mask name v df) = add_column name (df_columns df).
Proof. reflexivity. Qed.

Lemma set_array_empty name vals df :
  df_rows df = [] ->
  set_array name vals df
  = Ok {| df_columns := add_column name (df_columns df);
          df_rows := grown_rows name (df_columns df) vals |}.
Proof. intros H. unfold set_array. by rewrite H. Qed.

Lemma series_sub_nil : series_sub [] [] = [].
Proof. reflexivity. Qed.

(** On a frame without rows the crossover part leaves one row, and that
    row has NaN in every column the frame had before. *)
Lemma crossover_part_empty s df3 df' name :
  df_rows df3 = [] ->
  crossover_part s [] [] df3 = Ok df' ->
  name ∈ df_columns df3 ->
  name <> "crossover_" ++ s -> name <> "crossover_signal_" ++ s ->
  name ∈ df_columns df'
  /\ Forall (fun r => r.2 !! name = Some NaN) (df_rows df').
Proof.
  intros Hrows Hrun Hin Hc Hs. unfold crossover_part in Hrun.
  rewrite series_sub_nil, set_array_empty in Hrun by done.
  cbn [rbind] in Hrun.
  set (cross := "crossover_" ++ s) in *. set (sig := "crossover_signal_" ++ s) in *.
  set (df4 := {| df_columns := add_column cross (df_columns df3);
                 df_rows := grown_rows cross (df_columns df3)
                              (of_floats (crossover_sign [])) |}) in *.
  assert (H4 : df_rows df4 <> []) by discriminate.
  apply rbind_ok in Hrun as (s0 & _ & Hrun).
  apply rbind_ok in Hrun as (flags & _ & Hrun).
  injection Hrun as <-. split.
  - rewrite set_where_columns, !set_series_columns.
    rewrite !elem_of_add_column. right. right. right.
    unfold df4. cbn [df_columns]. apply elem_of_add_column. by right.
  - apply Forall_lookup. intros i [idx r'] Hr'. cbn [snd].
    apply set_where_row in Hr' as (r1 & Hr1 & Hsame1).
    apply set_series_row in Hr1 as (r2 & Hr2 & ->);
      [|by apply set_series_keeps_rows].
    apply set_series_row in Hr2 as (r3 & Hr3 & ->); [|done].
    rewrite Hsame1, !lookup_insert_ne by done.
    destruct i as [|i]; [|discriminate].
    injection Hr3 as _ <-.
    rewrite lookup_insert_ne by done.
    rewrite lookup_gset_to_gmap, option_guard_True; [reflexivity|].
    by apply elem_of_list_to_set.
Qed.

(** The frame with the moving averages and their difference: its rows
    are those of the frame it comes from, and the difference is set. *)
Lemma with_ma_diff_row c s n0 n1 xs df i idx r :
  length xs = length (df_rows df) ->
  df_rows (with_ma_diff c s n0 n1 xs df) !! i = Some (idx, r) ->
  exists r0 dv,
    df_rows df !! i = Some (idx, r0)
    /\ series_sub (rolling_mean n0 xs) (rolling_mean n1 xs) !! i = Some dv
    /\ r !! ("ma_diff_" ++ s) = Some (of_float dv).
Proof.
  intros Hlen. unfold with_ma_diff.
  set (short := rolling_mean n0 xs). set (long := rolling_mean n1 xs).
  assert (Hs : length short = length (df_rows df)).
  { unfold short. rewrite length_rolling_mean. lia. }
  assert (Hl : length long = length (df_rows df)).
  { unfold long. rewrite length_rolling_mean. lia. }
  assert (Hd : length (series_sub short long) = length (df_rows df)).
  { rewrite length_series_sub; lia. }
  set (df1 := set_series (ma_col c n0 s) (of_floats short) df).
  assert (H1 : length (df_rows df1) = length (df_rows df)).
  { unfold df1. apply set_series_length. by rewrite length_of_floats. }
  set (df2 := set_series (ma_col c n1 s) (of_floats long) df1).
  assert (H2 : length (df_rows df2) = length (df_rows df)).
  { unfold df2. rewrite set_series_length; [done|]. rewrite length_of_floats. lia. }
  rewrite set_series_rows by (rewrite length_of_floats; lia).
  unfold df2. rewrite set_series_rows by (rewrite length_of_floats; lia).
  unfold df1. rewrite set_series_rows by (rewrite length_of_floats; lia).
  rewrite !lookup_assign_rows.
  destruct (df_rows df !! i) as [[idx0 r0]|] eqn:Hr; [|discriminate].
  cbn [fmap option_fmap option_map fst snd]. intros [= <- <-].
  pose proof (lookup_lt_Some _ _ _ Hr) as Hi.
  destruct (series_sub short long !! i) as [dv|] eqn:Hdv;
    [|apply lookup_ge_None in Hdv; lia].
  exists r0, dv. split; [reflexivity|]. split; [reflexivity|].
  by rewrite lookup_insert_eq, lookup_of_floats, Hdv.
Qed.

Lemma with_ma_diff_rows_length c s n0 n1 xs df :
  length xs = length (df_rows df) ->
  length (df_rows (with_ma_diff c s n0 n1 xs df)) = length (df_rows df).
Proof.
  intros Hlen. unfold with_ma_diff.
  set (short := rolling_mean n0 xs). set (long := rolling_mean n1 xs).
  assert (Hs : length short = length (df_rows df)).
  { unfold short. rewrite length_rolling_mean. lia. }
  assert (Hl : length long = length (df_rows df)).
  { unfold long. rewrite length_rolling_mean. lia. }
  assert (Hd : length (series_sub short long) = length (df_rows df)).
  { rewrite length_series_sub; lia. }
  set (df1 := set_series (ma_col c n0 s) (of_floats short) df).
  assert (H1 : length (df_rows df1) = length (df_rows df)).
  { unfold df1. apply set_series_length. by rewrite length_of_floats. }
  set (df2 := set_series (ma_col c n1 s) (of_floats long) df1).
  assert (H2 : length (df_rows df2) = length (df_rows df)).
  { unfold df2. rewrite set_series_length; [done|]. rewrite length_of_floats. lia. }
  rewrite set_series_length; [done|]. rewrite length_of_floats. lia.
Qed.

Lemma with_ma_diff_columns c s n0 n1 xs df :
  "ma_diff_" ++ s ∈ df_columns (with_ma_diff c s n0 n1 xs df).
Proof.
  unfold with_ma_diff. rewrite set_series_columns.
  apply elem_of_add_column. by left.
Qed.

Lemma row_complete_cell cols r name :
  row_complete cols r = true -> name ∈ cols ->
  exists c, r.2 !! name = Some c /\ c <> NaN.
Proof.
  unfold row_complete. rewrite forallb_forall. intros H Hin.
  specialize (H name). rewrite <- list_elem_of_In in H. specialize (H Hin).
  destruct (r.2 !! name) as [c|]; [|discriminate].
  exists c. split; [reflexivity|]. intros ->. discriminate.
Qed.

Lemma dropna_rows df r :
  r ∈ df_rows (dropna df) <-> r ∈ df_rows df /\ row_complete (df_columns df) r = true.
Proof.
  unfold dropna. cbn [df_rows]. rewrite !list_elem_of_In. apply filter_In.
Qed.

Lemma lookup_series_sub xs ys i q :
  series_sub xs ys !! i = Some (Some q) ->
  exists a b, xs !! i = Some (Some a) /\ ys !! i = Some (Some b) /\ q = a - b.
Proof.
  unfold series_sub. rewrite lookup_zip_with.
  destruct (xs !! i) as [[a|]|]; simpl; try discriminate;
    destruct (ys !! i) as [[b|]|]; simpl; try discriminate.
  intros [= <-]. by exists a, b.
Qed.

Lemma crossover_part_columns s short long df3 df' name :
  crossover_part s short long df3 = Ok df' ->
  name ∈ df_columns df3 \/ name = "crossover_" ++ s \/ name = "crossover_signal_" ++ s ->
  name ∈ df_columns df'.
Proof.
  unfold crossover_part. intros Hrun Hin.
  apply rbind_ok in Hrun as (df4 & H4 & Hrun).
  apply rbind_ok in Hrun as (s0 & _ & Hrun).
  apply rbind_ok in Hrun as (flags & _ & Hrun).
  injection Hrun as <-.
  rewrite set_where_columns, !set_series_columns, !elem_of_add_column.
  assert (Hc4 : df_columns df4 = add_column ("crossover_" ++ s) (df_columns df3)).
  { unfold set_array in H4. destruct (df_rows df3).
    - by injection H4 as <-.
    - destruct (decide _); [|discriminate]. injection H4 as <-.
      apply set_series_columns. }
  rewrite Hc4, elem_of_add_column. tauto.
Qed.

Lemma flags_first d f : crossover_flags d !! 0%nat = Some f -> f = Some 0.
Proof.
  unfold crossover_flags. rewrite list_lookup_fmap, crossover_sign_first.
  by intros [= <-].
Qed.

Lemma flags_next d i q flag :
  (S i < length d)%nat ->
  d !! S i = Some (Some q) ->
  crossover_flags d !! S i = Some (Some flag) ->
  exists prev, d !! i = Some (Some prev)
               /\ flag = if Qlt_bool (prev * q) 0 then 1 else 0.
Proof.
  intros Hi Hq. unfold crossover_flags.
  rewrite list_lookup_fmap, crossover_sign_next, Hq by done.
  destruct (d !! i) as [[prev|]|] eqn:Hp.
  - intros H.
    assert (H' : crossover_map (Some (np_sign (prev * q))) = Some flag).
    { injection H as H. exact H. }
    rewrite crossover_map_sign in H'. injection H' as <-. by exists prev.
  - discriminate.
  - apply lookup_ge_None in Hp. lia.
Qed.

Lemma generate_ma_single df security col_name n0 n1 out :
  generate_ma_columns df [security] col_name [n0; n1] = Ok out ->
  exists df', ma_security col_name n0 n1 df security = Ok df' /\ out = dropna df'.
Proof.
  unfold generate_ma_columns. cbn [fold_result]. intros H.
  apply rbind_ok in H as (df' & H & [= <-]).
  apply rbind_ok in H as (df'' & H & [= <-]). by exists df''.
Qed.

Lemma sign_pattern_flags (a1 a2 a3 a4 a5 a6 a7 : Q) :
  0 < a1 -> 0 < a2 -> 0 < a3 -> a4 < 0 -> a5 < 0 -> 0 < a6 -> 0 < a7 ->
  crossover_flags (map Some [a1; a2; a3; a4; a5; a6; a7])
  = map Some [0; 0; 0; 1; 0; 1; 0].
Proof.
  intros H1 H2 H3 H4 H5 H6 H7. unfold crossover_flags, crossover_sign, adjacent_products.
  cbn [map removelast tail zip_with mbind option_bind option_map].
  rewrite !crossover_map_sign.
  assert (Qlt_bool (a1 * a2) 0 = false) as -> by (apply Qlt_bool_false; nra).
  assert (Qlt_bool (a2 * a3) 0 = false) as -> by (apply Qlt_bool_false; nra).
  assert (Qlt_bool (a3 * a4) 0 = true) as -> by (apply Qlt_bool_iff; nra).
  assert (Qlt_bool (a4 * a5) 0 = false) as -> by (apply Qlt_bool_false; nra).
  assert (Qlt_bool (a5 * a6) 0 = true) as -> by (apply Qlt_bool_iff; nra).
  assert (Qlt_bool (a6 * a7) 0 = false) as -> by (apply Qlt_bool_false; nra).
  reflexivity.
Qed.

(** C3 (amended).  In the output of [generate_ma_columns] for one
    security, every row is a day of the input on which both moving
    averages are defined; its flag 'crossover_SECURITY' is 1 or 0, and it
    is 1 exactly when the day has a day before it whose difference
    [short MA - long MA] is defined and of strictly opposite sign, that is
    when the product of the two differences is negative: a difference of
    zero on either day gives no crossover.  The first day of the series
    is never flagged.  The signal is 'Buy' on a flagged day with
    [short MA > long MA], 'Sell' on a flagged day otherwise, and 'N/A' on
    a day that is not flagged.  Differences of signs
    [+, +, +, -, -, +, +] give the flags [0, 0, 0, 1, 0, 1, 0]: two
    flagged days. *)
Theorem crossover_columns_spec :
  (forall (df : DataFrame) (security col_name : string) (n0 n1 : nat)
          (out : DataFrame) (idx : Z) (row : gmap string cell),
      generate_ma_columns df [security] col_name [n0; n1] = Ok out ->
      (idx, row) ∈ df_rows out ->
      let s := lower security in
      exists prices,
        (do c <- get_column (lower col_name ++ "_" ++ s) df; as_floats c) = Ok prices
        /\ let short_ma := rolling_mean n0 prices in
           let long_ma := rolling_mean n1 prices in
           let diff := series_sub short_ma long_ma in
           exists (day : nat) (r0 : gmap string cell) (sma lma flag : Q) (signal : cell),
             df_rows df !! day = Some (idx, r0)
             /\ short_ma !! day = Some (Some sma)
             /\ long_ma !! day = Some (Some lma)
             /\ row !! ("ma_diff_" ++ s) = Some (Num (sma - lma))
             /\ row !! ("crossover_" ++ s) = Some (Num flag)
             /\ row !! ("crossover_signal_" ++ s) = Some signal
             /\ (flag = 1 \/ flag = 0)
             /\ (flag = 1 <->
                 exists day' prev, day = S day' /\ diff !! day' = Some (Some prev)
                                   /\ prev * (sma - lma) < 0)
             /\ (day = 0%nat -> flag = 0)
             /\ (flag = 1 -> lma < sma -> signal = BUY)
             /\ (flag = 1 -> sma <= lma -> signal = SELL)
             /\ (flag = 0 -> signal = NA))
  /\ (forall a1 a2 a3 a4 a5 a6 a7 : Q,
        0 < a1 -> 0 < a2 -> 0 < a3 -> a4 < 0 -> a5 < 0 -> 0 < a6 -> 0 < a7 ->
        crossover_flags (map Some [a1; a2; a3; a4; a5; a6; a7])
        = map Some [0; 0; 0; 1; 0; 1; 0]).
Proof.
  split; [|apply sign_pattern_flags].
  intros df security col_name n0 n1 out idx row Hgen Hrow s.
  apply generate_ma_single in Hgen as (df' & Hrun & ->).
  apply dropna_rows in Hrow as [Hrow Hcomplete].
  rewrite ma_security_unfold in Hrun. fold s in Hrun.
  apply rbind_ok in Hrun as (prices & Hprices & Hrun).
  exists prices. split; [exact Hprices|].
  intros short_ma long_ma diff. fold short_ma long_ma in Hrun.
  pose proof (input_floats_length _ _ _ Hprices) as Hlen.
  set (df3 := with_ma_diff (lower col_name) s n0 n1 prices df) in *.
  assert (Hlen3 : length (df_rows df3) = length (df_rows df))
    by (by apply with_ma_diff_rows_length).
  assert (Hs : length short_ma = length (df_rows df3)).
  { unfold short_ma. rewrite length_rolling_mean. lia. }
  assert (Hl : length long_ma = length (df_rows df3)).
  { unfold long_ma. rewrite length_rolling_mean. lia. }
  assert (Hdiffcol : "ma_diff_" ++ s ∈ df_columns df')
    by (eapply crossover_part_columns; [exact Hrun | left; apply with_ma_diff_columns]).
  assert (Hcrosscol : "crossover_" ++ s ∈ df_columns df')
    by (eapply crossover_part_columns; [exact Hrun | right; by left]).
  destruct (df_rows df3) as [|row3 rows3] eqn:Hrows3.
  { (* a frame without rows: the one row the loop body makes is dropped *)
    exfalso.
    assert (short_ma = []) as Es by (by apply nil_length_inv).
    assert (long_ma = []) as El by (by apply nil_length_inv).
    rewrite Es, El in Hrun.
    destruct (crossover_part_empty s df3 df' ("ma_diff_" ++ s) Hrows3 Hrun)
      as [_ Hnan];
      [apply with_ma_diff_columns | apply diff_neq_crossover | apply diff_neq_signal |].
    rewrite Forall_forall in Hnan. specialize (Hnan _ Hrow).
    destruct (row_complete_cell _ _ _ Hcomplete Hdiffcol) as (c & Hc & Hne).
    cbn [snd] in *. congruence. }
  assert (Hne3 : df_rows df3 <> []) by (rewrite Hrows3; discriminate).
  rewrite <- Hrows3 in Hs, Hl.
  apply list_elem_of_lookup in Hrow as [day Hday].
  destruct (crossover_part_row s short_ma long_ma df3 df' day idx row
              Hne3 Hs Hl Hrun Hday)
    as (r3 & f & x & y & Hr3 & Hf & Hx & Hy & Hcross & Hsig & Hsame).
  fold diff in Hf.
  destruct (with_ma_diff_row _ _ _ _ _ _ _ _ _ Hlen Hr3)
    as (r0 & dv & Hr0 & Hdv & Hdiff).
  fold short_ma long_ma diff in Hdv.
  rewrite <- Hsame in Hdiff by (apply diff_neq_crossover || apply diff_neq_signal).
  destruct (row_complete_cell _ _ _ Hcomplete Hdiffcol) as (c & Hc & Hcne).
  cbn [snd] in Hc. rewrite Hdiff in Hc. injection Hc as <-.
  destruct dv as [q|]; [|done].
  destruct (lookup_series_sub _ _ _ _ Hdv) as (sma & lma & Hsma & Hlma & ->).
  rewrite Hx in Hsma. injection Hsma as ->.
  rewrite Hy in Hlma. injection Hlma as ->.
  destruct (row_complete_cell _ _ _ Hcomplete Hcrosscol) as (c & Hc & Hcne').
  cbn [snd] in Hc. rewrite Hcross in Hc. injection Hc as <-.
  destruct f as [flag|]; [|done].
  cbn [of_float eq_num gt_float] in Hsig.
  assert (Hdaylt : (day < length diff)%nat) by (eapply lookup_lt_Some; exact Hdv).
  exists day, r0, sma, lma, flag. eexists.
  split; [exact Hr0|]. split; [exact Hx|]. split; [exact Hy|].
  split; [exact Hdiff|]. split; [exact Hcross|]. split; [exact Hsig|].
  destruct day as [|day'].
  - apply flags_first in Hf. injection Hf as ->.
    split; [by right|]. split.
    + split; [discriminate|]. intros (d' & ? & ? & _); discriminate.
    + split; [reflexivity|]. split; [discriminate|]. split; [discriminate|].
      reflexivity.
  - destruct (flags_next _ _ _ _ Hdaylt Hdv Hf) as (prev & Hprev & ->).
    destruct (Qlt_bool (prev * (sma - lma)) 0) eqn:Eprod.
    + apply Qlt_bool_iff in Eprod.
      split; [by left|]. split.
      * split; [|reflexivity]. intros _. by exists day', prev.
      * split; [discriminate|]. split; [|split].
        -- intros _ Hlt. apply Qlt_bool_iff in Hlt. by rewrite Hlt.
        -- intros _ Hle. apply Qlt_bool_false in Hle. by rewrite Hle.
        -- discriminate.
    + apply Qlt_bool_false in Eprod.
      split; [by right|]. split.
      * split; [discriminate|].
        intros (d' & prev' & [= <-] & Hprev' & Hlt).
        rewrite Hprev in Hprev'. injection Hprev' as <-. lra.
      * split; [discriminate|]. split; [discriminate|]. split; [discriminate|].
        reflexivity.
Qed.

Lemma crossover_columns_spec_witness :
  let df := price_frame "close_x" [10; 10; 12; 8; 9; 11] in
  exists out row,
    generate_ma_columns df ["x"] "close" [2%nat; 3%nat] = Ok out
    /\ (5%Z, row) ∈ df_rows out
    /\ (exists flag signal,
          row !! "crossover_x" = Some (Num flag)
          /\ row !! "crossover_signal_x" = Some signal
          /\ (flag = 1 \/ flag = 0)
          /\ (flag = 0 -> signal = NA))
    /\ crossover_flags (map Some [3; 2; 1; -1; -2; 1; 2])
       = map Some [0; 0; 0; 1; 0; 1; 0].
Proof.
  intros df.
  destruct crossover_columns_spec as [Hrows Hpattern].
  let o := eval vm_compute in (generate_ma_columns df ["x"] "close" [2%nat; 3%nat]) in
  match o with
  | Ok ?out => pose (out0 := out)
  end.
  assert (H1 : generate_ma_columns df ["x"] "close" [2%nat; 3%nat] = Ok out0)
    by (vm_compute; reflexivity).
  pose (row0 := default ∅ (snd <$> df_rows out0 !! 2%nat)).
  assert (H2 : (5%Z, row0) ∈ df_rows out0).
  { apply list_elem_of_lookup. exists 2%nat. vm_compute. reflexivity. }
  exists out0, row0. split; [exact H1|]. split; [exact H2|]. split.
  - destruct (Hrows df "x" "close" 2%nat 3%nat out0 5%Z row0 H1 H2)
      as (prices & _ & day & r0 & sma & lma & flag & signal
          & _ & _ & _ & _ & Hflag & Hsig & Hbit & _ & _ & _ & _ & Hna).
    exists flag, signal. repeat split; assumption.
  - apply Hpattern; reflexivity.
Defined.

(** C3, as stated, fails on the series [10, 10, 12, 8, 9, 11] with the
    windows 2 and 3.  The signs of the difference are +, 0, -, + on the
    days 2 to 5: the sign changes from day 2 to day 3 and from day 3 to
    day 4, and neither day 3 nor day 4 is flagged. *)
Lemma crossover_zero_diff_counterexample :
  let df := price_frame "close_x" [10; 10; 12; 8; 9; 11] in
  let prices := map Some [10; 10; 12; 8; 9; 11] in
  let diff := series_sub (rolling_mean 2 prices) (rolling_mean 3 prices) in
  map (option_map np_sign) diff = [None; None; Some 1; Some 0; Some (-1); Some 1]
  /\ column_view ["crossover_x"; "crossover_signal_x"]
       (generate_ma_columns df ["x"] "close" [2%nat; 3%nat])
     = Ok [(3%Z, [Num 0; NA]); (4%Z, [Num 0; NA]); (5%Z, [Num 1; BUY])].
Proof. split; vm_compute; reflexivity. Qed.

(** The first row of the output is not the first day of the series, and
    it can be flagged: on [1, 3, 1] with the windows 1 and 2 the output
    has the one row of day 2, a crossover with the signal 'Sell'. *)
Example first_output_row_flagged :
  column_view ["crossover_x"; "crossover_signal_x"]
    (generate_ma_columns (price_frame "close_x" [1; 3; 1]) ["x"] "close" [1%nat; 2%nat])
  = Ok [(2%Z, [Num 1; SELL])].
Proof. vm_compute. reflexivity. Qed.

End MaFacts.

(** ** Rolling windows *)

Module WindowFacts.
Import Indicators.

Lemma mapM_id_Some {A} (l : list (option A)) (w : list A) :
  mapM id l = Some w -> l = map Some w.
Proof.
  intros H. apply mapM_Some_1 in H.
  induction H as [|x y l w Hxy _ IH]; [reflexivity|].
  simpl in *. by rewrite Hxy, IH.
Qed.

Lemma lookup_rolling {A} n (agg : list Q -> option A) xs i v :
  rolling n agg xs !! i = Some (Some v) ->
  exists w, window n i xs = Some w /\ agg w = Some v.
Proof.
  unfold rolling. rewrite list_lookup_imap.
  destruct (xs !! i); [|discriminate]. cbn [fmap option_fmap option_map].
  destruct (window n i xs) as [w|]; [|discriminate].
  intros [= H]. by exists w.
Qed.

(** A window that is there has [n] observations, the last of which is the
    one at position [i]. *)
Lemma window_spec n i xs w :
  (i < length xs)%nat ->
  window n i xs = Some w ->
  (1 <= n)%nat /\ (n <= S i)%nat /\ length w = n
  /\ map Some w = take n (drop (S i - n) xs)
  /\ exists p, xs !! i = Some (Some p) /\ w !! (n - 1)%nat = Some p.
Proof.
  intros Hi. unfold window.
  destruct (n =? 0)%nat eqn:E0; [discriminate|].
  destruct (i + 1 <? n)%nat eqn:E1; [discriminate|].
  apply Nat.eqb_neq in E0. apply Nat.ltb_ge in E1. cbn [orb].
  replace (i + 1 - n)%nat with (S i - n)%nat by lia.
  intros H. apply mapM_id_Some in H.
  assert (Hlen : length w = n).
  { apply (f_equal length) in H.
    rewrite length_map, length_take, length_drop in H. lia. }
  split; [lia|]. split; [lia|]. split; [exact Hlen|]. split; [by symmetry|].
  assert (Hlast : take n (drop (S i - n) xs) !! (n - 1)%nat = xs !! i).
  { rewrite lookup_take_lt by lia. rewrite lookup_drop. f_equal. lia. }
  rewrite H in Hlast. change (map Some w) with (Some <$> w) in Hlast.
  rewrite list_lookup_fmap in Hlast.
  destruct (w !! (n - 1)%nat) as [p|] eqn:Hp.
  - exists p. by split.
  - apply lookup_ge_None in Hp. lia.
Qed.

End WindowFacts.

(** ** Bollinger bands *)

Module BollingerFacts.
Import Indicators Parts NameFacts FrameFacts MaFacts WindowFacts.

Section WithSqrt.
Variable np_sqrt : Q -> Q.



Lemma lower_ascii_idem a : lower_ascii (lower_ascii a) = lower_ascii a.
Proof. destruct a as [[] [] [] [] [] [] [] []]; reflexivity. Qed.

Lemma lower_idem s : lower (lower s) = lower s.
Proof.
  induction s as [|a s IH]; [reflexivity|].
  cbn [lower]. by rewrite lower_ascii_idem, IH.
Qed.

Lemma high_neq_input c s : c ++ "_bollinger_high_" ++ s <> c ++ "_" ++ s.
Proof.
  intros H. apply String.app_inj in H. apply (String.app_inj "_") in H.
  by apply (append_neq_tail "bollinger_high_" s) in H.
Qed.

Lemma low_neq_input c s : c ++ "_bollinger_low_" ++ s <> c ++ "_" ++ s.
Proof.
  intros H. apply String.app_inj in H. apply (String.app_inj "_") in H.
  by apply (append_neq_tail "bollinger_low_" s) in H.
Qed.

Lemma high_neq_low c s : c ++ "_bollinger_high_" ++ s <> c ++ "_bollinger_low_" ++ s.
Proof. intros H. apply String.app_inj in H. cbv in H. discriminate. Qed.

Lemma signal_neq_high c s : "bollinger_signal_" ++ s <> c ++ "_bollinger_high_" ++ s.
Proof.
  intros H. rewrite <- append_assoc in H. apply append_inv_tail in H.
  destruct c as [|a [|b c]].
  - cbv in H. discriminate.
  - cbv in H. injection H as _ H. discriminate.
  - apply (f_equal String.length) in H.
    rewrite length_append in H. simpl in H. lia.
Qed.

Lemma signal_neq_low c s : "bollinger_signal_" ++ s <> c ++ "_bollinger_low_" ++ s.
Proof.
  intros H. rewrite <- append_assoc in H. apply append_inv_tail in H.
  destruct c as [|a [|b [|b' c]]].
  - cbv in H. discriminate.
  - cbv in H. injection H as _ H. discriminate.
  - cbv in H. injection H as _ _ H. discriminate.
  - apply (f_equal String.length) in H.
    rewrite length_append in H. simpl in H. lia.
Qed.



Lemma length_rolling_std n xs : length (rolling_std np_sqrt n xs) = length xs.
Proof. apply length_rolling. Qed.

Lemma length_band_high k mean std :
  length mean = length std -> length (band_high k mean std) = length mean.
Proof. intros H. unfold band_high. rewrite length_zip_with. lia. Qed.

Lemma length_band_low k mean std :
  length mean = length std -> length (band_low k mean std) = length mean.
Proof. intros H. unfold band_low. rewrite length_zip_with. lia. Qed.

Lemma length_bollinger_signal (xs low high : list (option Q)) :
  length low = length xs -> length high = length xs ->
  length (bollinger_signal (zip_with lt_float xs low) (zip_with gt_float xs high))
  = length xs.
Proof.
  intros Hl Hh. unfold bollinger_signal. rewrite !length_zip_with. lia.
Qed.

Lemma lookup_band_high k mean std i h :
  band_high k mean std !! i = Some (Some h) ->
  exists m s, mean !! i = Some (Some m) /\ std !! i = Some (Some s) /\ h = m + k * s.
Proof.
  unfold band_high. rewrite lookup_zip_with.
  destruct (mean !! i) as [[m|]|]; simpl; try discriminate;
    destruct (std !! i) as [[s|]|]; simpl; try discriminate.
  intros [= <-]. by exists m, s.
Qed.

Lemma lookup_band_low k mean std i m s :
  mean !! i = Some (Some m) -> std !! i = Some (Some s) ->
  band_low k mean std !! i = Some (Some (m - k * s)).
Proof.
  intros Hm Hs. unfold band_low. by rewrite lookup_zip_with, Hm, Hs.
Qed.

Lemma lookup_bollinger_signal (xs low high : list (option Q)) i x l h :
  xs !! i = Some x -> low !! i = Some l -> high !! i = Some h ->
  bollinger_signal (zip_with lt_float xs low) (zip_with gt_float xs high) !! i
  = Some (if lt_float x l then BUY else if gt_float x h then SELL else NA).
Proof.
  intros Hx Hl Hh. unfold bollinger_signal.
  by rewrite !lookup_zip_with, Hx, Hl, Hh.
Qed.

Lemma bollinger_security_unfold c k len df sec :
  bollinger_security np_sqrt c k len df sec =
  do xs <- (do col <- get_column (lower c ++ "_" ++ lower sec) df; as_floats col);
  Ok (with_bands np_sqrt (lower c) (lower sec) k len xs df).
Proof.
  unfold bollinger_security, with_bands. rewrite lower_idem.
  set (c' := lower c). set (s' := lower sec). set (input := c' ++ "_" ++ s').
  destruct (get_column input df) as [col|e] eqn:Hcol; [|reflexivity].
  cbn [rbind].
  destruct (as_floats col) as [xs|e] eqn:Hxs; [|reflexivity].
  cbn [rbind].
  assert (Hlen : length xs = length (df_rows df)).
  { apply (input_floats_length input). by rewrite Hcol. }
  set (mean := rolling_mean len xs). set (std := rolling_std np_sqrt len xs).
  assert (Hm : length mean = length xs) by apply length_rolling_mean.
  assert (Hs : length std = length xs) by apply length_rolling_std.
  set (high := band_high k mean std). set (low := band_low k mean std).
  assert (Hh : length high = length xs).
  { unfold high. rewrite length_band_high; lia. }
  assert (Hl : length low = length xs).
  { unfold low. rewrite length_band_low; lia. }
  set (df1 := set_series (c' ++ "_bollinger_high_" ++ s') (of_floats high) df).
  assert (H1 : length (df_rows df1) = length (df_rows df)).
  { unfold df1. apply set_series_length. rewrite length_of_floats. lia. }
  set (df2 := set_series (c' ++ "_bollinger_low_" ++ s') (of_floats low) df1).
  assert (H2 : length (df_rows df2) = length (df_rows df)).
  { unfold df2. rewrite set_series_length; [done|]. rewrite length_of_floats. lia. }
  assert (Hp : get_column input df2 = Ok col).
  { unfold df2. rewrite get_set_series_ne;
      [|apply low_neq_input|rewrite length_of_floats; lia].
    unfold df1. rewrite get_set_series_ne;
      [exact Hcol|apply high_neq_input|rewrite length_of_floats; lia]. }
  rewrite Hp. cbn [rbind]. rewrite Hxs. cbn [rbind].
  assert (Hlow : get_column (c' ++ "_bollinger_low_" ++ s') df2 = Ok (of_floats low)).
  { unfold df2. rewrite get_set_series_eq; [done|]. rewrite length_of_floats. lia. }
  rewrite Hlow. cbn [rbind]. rewrite as_floats_of_floats. cbn [rbind].
  assert (Hhigh : get_column (c' ++ "_bollinger_high_" ++ s') df2 = Ok (of_floats high)).
  { unfold df2. rewrite get_set_series_ne;
      [|intros E; symmetry in E; by apply high_neq_low in E
       |rewrite length_of_floats; lia].
    unfold df1. rewrite get_set_series_eq; [done|]. rewrite length_of_floats. lia. }
  rewrite Hhigh. cbn [rbind]. rewrite as_floats_of_floats. cbn [rbind].
  apply set_array_same_length.
  rewrite length_bollinger_signal; lia.
Qed.

Lemma with_bands_row c s k len xs df i idx r :
  length xs = length (df_rows df) ->
  df_rows (with_bands np_sqrt c s k len xs df) !! i = Some (idx, r) ->
  let mean := rolling_mean len xs in
  let std := rolling_std np_sqrt len xs in
  exists r0 x l h,
    df_rows df !! i = Some (idx, r0)
    /\ xs !! i = Some x
    /\ band_low k mean std !! i = Some l
    /\ band_high k mean std !! i = Some h
    /\ r = <["bollinger_signal_" ++ s :=
              if lt_float x l then BUY else if gt_float x h then SELL else NA]>
             (<[c ++ "_bollinger_low_" ++ s := of_float l]>
                (<[c ++ "_bollinger_high_" ++ s := of_float h]> r0)).
Proof.
  intros Hlen Hrow mean std. unfold with_bands in Hrow. fold mean std in Hrow.
  assert (Hm : length mean = length xs) by apply length_rolling_mean.
  assert (Hs : length std = length xs) by apply length_rolling_std.
  set (high := band_high k mean std) in *. set (low := band_low k mean std) in *.
  assert (Hh : length high = length xs).
  { unfold high. rewrite length_band_high; lia. }
  assert (Hl : length low = length xs).
  { unfold low. rewrite length_band_low; lia. }
  set (df1 := set_series (c ++ "_bollinger_high_" ++ s) (of_floats high) df) in *.
  assert (H1 : length (df_rows df1) = length (df_rows df)).
  { unfold df1. apply set_series_length. rewrite length_of_floats. lia. }
  set (df2 := set_series (c ++ "_bollinger_low_" ++ s) (of_floats low) df1) in *.
  assert (H2 : length (df_rows df2) = length (df_rows df)).
  { unfold df2. rewrite set_series_length; [done|]. rewrite length_of_floats. lia. }
  rewrite set_series_rows in Hrow by (rewrite length_bollinger_signal; lia).
  unfold df2 in Hrow. rewrite set_series_rows in Hrow by (rewrite length_of_floats; lia).
  unfold df1 in Hrow. rewrite set_series_rows in Hrow by (rewrite length_of_floats; lia).
  rewrite !lookup_assign_rows in Hrow.
  destruct (df_rows df !! i) as [[idx0 r0]|] eqn:Hr; [|discriminate].
  pose proof (lookup_lt_Some _ _ _ Hr) as Hi.
  destruct (xs !! i) as [x|] eqn:Hx; [|apply lookup_ge_None in Hx; lia].
  destruct (low !! i) as [l|] eqn:Hlo; [|apply lookup_ge_None in Hlo; lia].
  destruct (high !! i) as [h|] eqn:Hhi; [|apply lookup_ge_None in Hhi; lia].
  rewrite (lookup_bollinger_signal _ _ _ _ _ _ _ Hx Hlo Hhi) in Hrow.
  rewrite !lookup_of_floats, Hlo, Hhi in Hrow.
  cbn [fmap option_fmap option_map default fst snd] in Hrow.
  injection Hrow as <- <-. by exists r0, x, l, h.
Qed.

Lemma with_bands_columns c s k len xs df name :
  name ∈ df_columns (with_bands np_sqrt c s k len xs df) <->
  name = "bollinger_signal_" ++ s \/ name = c ++ "_bollinger_low_" ++ s
  \/ name = c ++ "_bollinger_high_" ++ s \/ name ∈ df_columns df.
Proof.
  unfold with_bands. by rewrite !set_series_columns, !elem_of_add_column.
Qed.



Lemma generate_bollinger_single df security col_name k len out :
  generate_bollinger_columns np_sqrt df [security] col_name k len = Ok out ->
  exists df', bollinger_security np_sqrt col_name k len df security = Ok df'
              /\ out = dropna df'.
Proof.
  unfold generate_bollinger_columns. cbn [fold_result]. intros H.
  apply rbind_ok in H as (df' & H & [= <-]).
  apply rbind_ok in H as (df'' & H & [= <-]). by exists df''.
Qed.

(** C5 (amended).  In the output of [generate_bollinger_columns] for one
    security, every row is a day of the input with [L >= 2] observations
    up to and including that day; its high band is the mean of these
    observations plus [k] times the square root of their sample variance,
    its low band the mean minus [k] times it; the signal is 'Buy' exactly
    when the price is strictly below the low band, 'Sell' exactly when it
    is strictly above the high band and not strictly below the low band,
    and 'N/A' exactly when it is within the bands, ends included: a price
    equal to a band that does not lie beyond the other band gives 'N/A'. *)
Theorem bollinger_columns_spec
    (df : DataFrame) (security col_name : string) (k : Q) (len : nat)
    (out : DataFrame) (idx : Z) (row : gmap string cell) :
  generate_bollinger_columns np_sqrt df [security] col_name k len = Ok out ->
  (idx, row) ∈ df_rows out ->
  let c := lower col_name in
  let s := lower security in
  exists prices,
    (do col <- get_column (c ++ "_" ++ s) df; as_floats col) = Ok prices
    /\ exists (day : nat) (r0 : gmap string cell) (w : list Q) (price : Q) (signal : cell),
         df_rows df !! day = Some (idx, r0)
         /\ (2 <= len)%nat
         /\ length w = len
         /\ map Some w = take len (drop (S day - len) prices)
         /\ prices !! day = Some (Some price)
         /\ w !! (len - 1)%nat = Some price
         /\ let mean := np_mean w in
            let std := np_sqrt (sample_var w) in
            let high := mean + k * std in
            let low := mean - k * std in
            row !! (c ++ "_bollinger_high_" ++ s) = Some (Num high)
            /\ row !! (c ++ "_bollinger_low_" ++ s) = Some (Num low)
            /\ row !! ("bollinger_signal_" ++ s) = Some signal
            /\ (signal = BUY <-> price < low)
            /\ (signal = SELL <-> high < price /\ low <= price)
            /\ (signal = NA <-> low <= price /\ price <= high).
Proof.
  intros Hgen Hrow c s.
  apply generate_bollinger_single in Hgen as (df' & Hrun & ->).
  apply dropna_rows in Hrow as [Hrow Hcomplete].
  rewrite bollinger_security_unfold in Hrun. fold c s in Hrun.
  apply rbind_ok in Hrun as (prices & Hprices & [= <-]).
  exists prices. split; [exact Hprices|].
  pose proof (input_floats_length _ _ _ Hprices) as Hlen.
  apply list_elem_of_lookup in Hrow as [day Hday].
  destruct (with_bands_row _ _ _ _ _ _ _ _ _ Hlen Hday)
    as (r0 & x & l & h & Hr0 & Hx & Hl & Hh & ->).
  assert (Hhighcol : c ++ "_bollinger_high_" ++ s
                     ∈ df_columns (with_bands np_sqrt c s k len prices df)).
  { apply with_bands_columns. right. right. by left. }
  destruct (row_complete_cell _ _ _ Hcomplete Hhighcol) as (cell & Hcell & Hne).
  cbn [snd] in Hcell.
  rewrite lookup_insert_ne in Hcell by apply signal_neq_high.
  rewrite lookup_insert_ne in Hcell
    by (intros E; symmetry in E; by apply high_neq_low in E).
  rewrite lookup_insert_eq in Hcell. injection Hcell as <-.
  destruct h as [hv|]; [|done].
  destruct (lookup_band_high _ _ _ _ _ Hh) as (m & sd & Hm & Hsd & ->).
  rewrite (lookup_band_low _ _ _ _ _ _ Hm Hsd) in Hl. injection Hl as <-.
  apply lookup_rolling in Hm as (w & Hw & [= <-]).
  apply lookup_rolling in Hsd as (w' & Hw' & Hsd).
  rewrite Hw in Hw'. injection Hw' as <-.
  destruct (length w <=? 1)%nat eqn:Elen; [discriminate|].
  injection Hsd as <-. apply Nat.leb_gt in Elen.
  assert (Hdaylt : (day < length prices)%nat) by (eapply lookup_lt_Some; exact Hx).
  destruct (window_spec _ _ _ _ Hdaylt Hw) as (_ & _ & Hwlen & Htake & p & Hp & Hlast).
  rewrite Hx in Hp. injection Hp as ->.
  exists day, r0, w, p. eexists.
  split; [exact Hr0|]. split; [lia|]. split; [exact Hwlen|].
  split; [exact Htake|]. split; [exact Hx|]. split; [exact Hlast|].
  cbn zeta.
  split; [|split; [|split]].
  - rewrite lookup_insert_ne by apply signal_neq_high.
    rewrite lookup_insert_ne
      by (intros E; symmetry in E; by apply high_neq_low in E).
    by rewrite lookup_insert_eq.
  - rewrite lookup_insert_ne by apply signal_neq_low.
    by rewrite lookup_insert_eq.
  - by rewrite lookup_insert_eq.
  - unfold lt_float, gt_float.
    set (mean := np_mean w). set (std := np_sqrt (sample_var w)).
    destruct (Qlt_bool p (mean - k * std)) eqn:Ebuy.
    + apply Qlt_bool_iff in Ebuy.
      split; [tauto|]. split.
      * split; [discriminate|]. intros [_ ?]. lra.
      * split; [discriminate|]. intros [? _]. lra.
    + apply Qlt_bool_false in Ebuy.
      destruct (Qlt_bool (mean + k * std) p) eqn:Esell.
      * apply Qlt_bool_iff in Esell.
        split; [split; [discriminate|intros; lra]|]. split; [tauto|].
        split; [discriminate|]. intros [_ ?]. lra.
      * apply Qlt_bool_false in Esell.
        split; [split; [discriminate|intros; lra]|].
        split; [split; [discriminate|intros [? _]; lra]|]. tauto.
Qed.


End WithSqrt.

Lemma bollinger_columns_spec_witness :
  let df := price_frame "close_x" [0; 3; 6] in
  exists out row,
    generate_bollinger_columns sqrt_exact df ["x"] "close" 2 3 = Ok out
    /\ (2%Z, row) ∈ df_rows out
    /\ exists (w : list Q) (price : Q) (signal : cell),
         length w = 3%nat
         /\ w !! 2%nat = Some price
         /\ row !! "bollinger_signal_x" = Some signal
         /\ (signal = BUY <-> price < np_mean w - 2 * sqrt_exact (sample_var w))
         /\ (signal = NA <->
             np_mean w - 2 * sqrt_exact (sample_var w) <= price
             /\ price <= np_mean w + 2 * sqrt_exact (sample_var w)).
Proof.
  intros df.
  let o := eval vm_compute in
    (generate_bollinger_columns sqrt_exact df ["x"] "close" 2 3) in
  match o with
  | Ok ?out => pose (out0 := out)
  end.
  assert (H1 : generate_bollinger_columns sqrt_exact df ["x"] "close" 2 3 = Ok out0)
    by (vm_compute; reflexivity).
  pose (row0 := default ∅ (snd <$> df_rows out0 !! 0%nat)).
  assert (H2 : (2%Z, row0) ∈ df_rows out0).
  { apply list_elem_of_lookup. exists 0%nat. vm_compute. reflexivity. }
  exists out0, row0. split; [exact H1|]. split; [exact H2|].
  destruct (bollinger_columns_spec sqrt_exact df "x" "close" 2 3 out0 2%Z row0 H1 H2)
    as (prices & _ & day & r0 & w & price & signal
        & _ & _ & Hlen & _ & _ & Hlast & _ & _ & Hsig & Hbuy & _ & Hna).
  exists w, price, signal.
  split; [exact Hlen|]. split; [exact Hlast|]. split; [exact Hsig|].
  split; [exact Hbuy | exact Hna].
Defined.

(** C5, as stated, fails for a negative multiplier: on [0, 3, 6] with
    [L = 3] and [k = -2] the mean is 3 and the deviation 3, so the high
    band is -3 and the low band 9; the price 6 of day 2 is strictly above
    the high band, and the signal is 'Buy', not 'Sell'. *)
Lemma bollinger_negative_multiplier_counterexample :
  column_view ["close_x"; "close_bollinger_high_x"; "close_bollinger_low_x";
               "bollinger_signal_x"]
    (generate_bollinger_columns sqrt_exact (price_frame "close_x" [0; 3; 6])
       ["x"] "close" (-2) 3)
  = Ok [(2%Z, [Num 6; Num (-3); Num 9; BUY])].
Proof. vm_compute. reflexivity. Qed.

(** A price equal to both bands: on a flat series the deviation is 0,
    the bands are the price, and the signal is 'N/A'. *)
Example bollinger_price_on_band :
  column_view ["close_x"; "close_bollinger_high_x"; "close_bollinger_low_x";
               "bollinger_signal_x"]
    (generate_bollinger_columns sqrt_exact (price_frame "close_x" [5; 5; 5])
       ["x"] "close" 2 3)
  = Ok [(2%Z, [Num 5; Num 5; Num 5; NA])].
Proof. vm_compute. reflexivity. Qed.

End BollingerFacts.

(** ** The simulation loop *)

Module SimulationFacts.
Import Portfolio Indicators Simulation FrameFacts.

Lemma buy_max_securities_log t p d self self' :
  buy_max_securities t p d self = Returned self' ->
  exists tx, trans_df self' = (trans_df self ++ [tx])%list
             /\ tr_trans_type tx = Buy /\ tr_security tx = t
             /\ tr_security_price tx = p.
Proof.
  unfold buy_max_securities, buy_securities.
  destruct (Qeq_bool p 0); [discriminate|].
  destruct (Qle_bool _ _); [|discriminate].
  intros [= <-]. eexists. split; [reflexivity|]. by repeat split.
Qed.

Lemma sell_all_securities_log t p d self self' :
  sell_all_securities t p d self = Returned self' ->
  exists tx, trans_df self' = (trans_df self ++ [tx])%list
             /\ tr_trans_type tx = Sell /\ tr_security tx = t
             /\ tr_security_price tx = p.
Proof.
  unfold sell_all_securities, sell_securities.
  destruct (security_dict self !! t) as [n|]; [|discriminate].
  destruct (Qlt_bool n n); [discriminate|].
  intros [= <-]. eexists. split; [reflexivity|]. by repeat split.
Qed.
Lemma call_port_ok o port :
  call_port o = Ok port -> o = Returned port.
Proof. destruct o; simpl; [by intros [= ->] | discriminate]. Qed.

Lemma row_price_float row name q :
  row_float row name = Ok (Some q) -> row_price row name = Ok q.
Proof. intros H. unfold row_price. by rewrite H. Qed.

Lemma lt_float_true x y :
  lt_float x y = true -> exists a b, x = Some a /\ y = Some b /\ a < b.
Proof.
  unfold lt_float, gt_float. destruct y as [b|], x as [a|]; try discriminate.
  intros H. apply Qlt_bool_iff in H. by exists a, b.
Qed.

Lemma gt_float_true x y :
  gt_float x y = true -> exists a b, x = Some a /\ y = Some b /\ b < a.
Proof.
  unfold gt_float. destruct x as [a|], y as [b|]; try discriminate.
  intros H. apply Qlt_bool_iff in H. by exists a, b.
Qed.

(** C6 (amended).  A call of [_get_bollinger_price] that returns has done
    one of three things.  A purchase: the security was not held, the
    close was strictly below the low band and the cash strictly above
    [purchase_price]; [buy_max_securities] ran at the close, one 'Buy' was
    logged, the security is held and [purchase_price] is the close.  A
    sale: the security was held and the close was strictly above the high
    band; [sell_all_securities] ran at the close, one 'Sell' was logged,
    the security is no longer held and [purchase_price] is unchanged: the
    sale has no condition on [purchase_price].  Or no trade: nothing
    changed, and the condition of the purchase or of the sale was false. *)
Theorem bollinger_rule_gates (index : Z) (row : gmap string cell) (security : string)
    (purchase_price : Q) (st : sim_state) (purchase_price' : Q) (st' : sim_state) :
  _get_bollinger_price index row security purchase_price st
  = Ok (purchase_price', st') ->
  let close_col := "close_" ++ security in
  let high_col := "close_" ++ security ++ "_bollinger_high" in
  let low_col := "close_" ++ security ++ "_bollinger_low" in
  let port := sec_port st in
  (* a purchase *)
  ((security ∉ bought_securities st)
   /\ exists close low tx,
        row_float row close_col = Ok (Some close)
        /\ row_float row low_col = Ok (Some low)
        /\ close < low
        /\ purchase_price < total_cash_amt port
        /\ buy_max_securities security close index port = Returned (sec_port st')
        /\ trans_df (sec_port st') = (trans_df port ++ [tx])%list
        /\ tr_trans_type tx = Buy /\ tr_security_price tx = close
        /\ bought_securities st' = {[security]} ∪ bought_securities st
        /\ purchase_price' = close)
  \/ (* a sale *)
  ((security ∈ bought_securities st)
   /\ exists close high tx,
        row_float row close_col = Ok (Some close)
        /\ row_float row high_col = Ok (Some high)
        /\ high < close
        /\ sell_all_securities security close index port = Returned (sec_port st')
        /\ trans_df (sec_port st') = (trans_df port ++ [tx])%list
        /\ tr_trans_type tx = Sell /\ tr_security_price tx = close
        /\ bought_securities st' = bought_securities st ∖ {[security]}
        /\ purchase_price' = purchase_price)
  \/ (* no trade *)
  (st' = st /\ purchase_price' = purchase_price
   /\ (((security ∉ bought_securities st)
        /\ exists c l, row_float row close_col = Ok c /\ row_float row low_col = Ok l
                       /\ (lt_float c l = false
                           \/ total_cash_amt port <= purchase_price))
       \/ ((security ∈ bought_securities st)
           /\ exists c h, row_float row close_col = Ok c /\ row_float row high_col = Ok h
                          /\ gt_float c h = false))).
Proof.
  intros Hrun close_col high_col low_col port.
  unfold _get_bollinger_price in Hrun.
  fold close_col high_col low_col in Hrun.
  unfold rand in Hrun. cbn [rbind] in Hrun.
  destruct (bool_decide (security ∈ bought_securities st)) eqn:Hheld.
  - (* held *)
    apply bool_decide_eq_true in Hheld. cbn [negb rbind] in Hrun.
    destruct (row_float row close_col) as [c|e] eqn:Hc; [|discriminate].
    cbn [rbind] in Hrun.
    destruct (row_float row high_col) as [h|e] eqn:Hh; [|discriminate].
    cbn [rbind] in Hrun.
    destruct (gt_float c h) eqn:Hgt.
    + right. left. split; [exact Hheld|].
      destruct (gt_float_true _ _ Hgt) as (close & high & -> & -> & Hlt).
      rewrite (row_price_float _ _ _ Hc) in Hrun. cbn [rbind] in Hrun.
      destruct (call_port _) as [port'|e] eqn:Hcall; [|discriminate].
      cbn [rbind] in Hrun. injection Hrun as <- <-.
      apply call_port_ok in Hcall.
      destruct (sell_all_securities_log _ _ _ _ _ Hcall) as (tx & Hlog & Hty & _ & Hpr).
      exists close, high, tx. cbn [sec_port bought_securities]. by repeat split.
    + right. right. injection Hrun as <- <-.
      split; [reflexivity|]. split; [reflexivity|]. right.
      split; [exact Hheld|]. by exists c, h.
  - (* not held *)
    apply bool_decide_eq_false in Hheld. cbn [negb rbind] in Hrun.
    destruct (row_float row close_col) as [c|e] eqn:Hc; [|discriminate].
    cbn [rbind] in Hrun.
    destruct (row_float row low_col) as [l|e] eqn:Hl; [|discriminate].
    cbn [rbind] in Hrun.
    destruct (lt_float c l) eqn:Hlt.
    + cbn [rbind] in Hrun.
      destruct (Qlt_bool purchase_price (get_total_cash_amt (sec_port st))) eqn:Hcash.
      * left. split; [exact Hheld|].
        destruct (lt_float_true _ _ Hlt) as (close & low & -> & -> & Hcl).
        apply Qlt_bool_iff in Hcash.
        rewrite (row_price_float _ _ _ Hc) in Hrun. cbn [rbind] in Hrun.
        destruct (call_port _) as [port'|e] eqn:Hcall; [|discriminate].
        cbn [rbind] in Hrun. injection Hrun as <- <-.
        apply call_port_ok in Hcall.
        destruct (buy_max_securities_log _ _ _ _ _ Hcall) as (tx & Hlog & Hty & _ & Hpr).
        exists close, low, tx. cbn [sec_port bought_securities]. by repeat split.
      * apply Qlt_bool_false in Hcash. cbn [rbind] in Hrun.
        right. right. injection Hrun as <- <-.
        split; [reflexivity|]. split; [reflexivity|]. left.
        split; [exact Hheld|]. exists c, l. repeat split. by right.
    + cbn [rbind] in Hrun. right. right. injection Hrun as <- <-.
      split; [reflexivity|]. split; [reflexivity|]. left.
      split; [exact Hheld|]. exists c, l. repeat split. by left.
Qed.

Lemma bollinger_rule_gates_witness :
  let row : gmap string cell :=
    {[ "close_x" := Num 10; "close_x_bollinger_high" := Num 20;
       "close_x_bollinger_low" := Num 11 ]} in
  let st := mk_sim (Portfolio.init 100 false) ∅ in
  let st' := mk_sim (state_of (buy_max_securities "x" 10 0 (Portfolio.init 100 false)))
                    ({[ "x" ]} ∪ ∅) in
  let port := sec_port st in
  _get_bollinger_price 0 row "x" 0 st = Ok (10, st')
  /\ ((("x" ∉ bought_securities st)
       /\ exists close low tx,
            row_float row "close_x" = Ok (Some close)
            /\ row_float row "close_x_bollinger_low" = Ok (Some low)
            /\ close < low
            /\ 0 < total_cash_amt port
            /\ buy_max_securities "x" close 0 port = Returned (sec_port st')
            /\ trans_df (sec_port st') = (trans_df port ++ [tx])%list
            /\ tr_trans_type tx = Buy /\ tr_security_price tx = close
            /\ bought_securities st' = {[ "x" ]} ∪ bought_securities st
            /\ 10 = close)
      \/ (("x" ∈ bought_securities st)
          /\ exists close high tx,
               row_float row "close_x" = Ok (Some close)
               /\ row_float row "close_x_bollinger_high" = Ok (Some high)
               /\ high < close
               /\ sell_all_securities "x" close 0 port = Returned (sec_port st')
               /\ trans_df (sec_port st') = (trans_df port ++ [tx])%list
               /\ tr_trans_type tx = Sell /\ tr_security_price tx = close
               /\ bought_securities st' = bought_securities st ∖ {[ "x" ]}
               /\ 10 = 0)
      \/ (st' = st /\ 10 = 0
          /\ ((("x" ∉ bought_securities st)
               /\ exists c l, row_float row "close_x" = Ok c
                              /\ row_float row "close_x_bollinger_low" = Ok l
                              /\ (lt_float c l = false
                                  \/ total_cash_amt port <= 0))
              \/ (("x" ∈ bought_securities st)
                  /\ exists c h, row_float row "close_x" = Ok c
                                 /\ row_float row "close_x_bollinger_high" = Ok h
                                 /\ gt_float c h = false)))).
Proof.
  intros row st st' port.
  assert (H : _get_bollinger_price 0 row "x" 0 st = Ok (10, st'))
    by (vm_compute; reflexivity).
  split; [exact H|].
  exact (bollinger_rule_gates 0 row "x" 0 st 10 st' H).
Defined.

(** C6, as stated, fails on two days of prices with their bands: the
    loop buys 10 shares at 10 on day 0, below the low band 11, and sells
    them on day 1 at 9, above the high band 8, although 9 does not exceed
    the purchase price 10. *)
Lemma bollinger_sale_below_purchase_price_counterexample :
  let row0 : gmap string cell :=
    {[ "close_x" := Num 10; "close_x_bollinger_high" := Num 20;
       "close_x_bollinger_low" := Num 11 ]} in
  let row1 : gmap string cell :=
    {[ "close_x" := Num 9; "close_x_bollinger_high" := Num 8;
       "close_x_bollinger_low" := Num 5 ]} in
  let security_data :=
    {| df_columns := ["close_x"; "close_x_bollinger_high"; "close_x_bollinger_low"];
       df_rows := [(0%Z, row0); (1%Z, row1)] |} in
  let ind := {| ma_crossovers := None; bollinger_len := Some 20%nat;
                bollinger_std := Some 2 |} in
  exists purchase_price st buy sale,
    _run_simulation ind security_data ["x"] (mk_sim (Portfolio.init 100 false) ∅)
    = Ok (purchase_price, st)
    /\ purchase_price = 10
    /\ trans_df (sec_port st) = [buy; sale]
    /\ tr_trans_type buy = Buy /\ tr_security_price buy = 10
    /\ tr_trans_type sale = Sell /\ tr_security_price sale = 9
    /\ ~ purchase_price < tr_security_price sale.
Proof.
  intros row0 row1 security_data ind.
  eexists. eexists. eexists. eexists.
  split; [vm_compute; reflexivity|].
  split; [reflexivity|].
  split; [vm_compute; reflexivity|].
  repeat split. vm_compute. discriminate.
Qed.

(** The columns the Bollinger rule reads are not the columns
    [generate_bollinger_columns] writes: with the Bollinger keys set,
    a run on a price series ends in a KeyError at its first row. *)
Example bollinger_columns_not_found :
  run_simulation_df sqrt_exact (price_frame "close_x" [0; 3; 6; 3]) "close" 100
    {| ma_crossovers := None; bollinger_len := Some 3%nat; bollinger_std := Some 2 |}
    false default_plot_options
  = Raise (KeyError "close_x_bollinger_low").
Proof. vm_compute. reflexivity. Qed.

End SimulationFacts.

(** ** A price series without rows *)

Module ZeroRowFacts.
Import Portfolio Indicators Simulation Parts NameFacts FrameFacts MaFacts BollingerFacts.

Lemma field_column_input c s : field_column c (c ++ "_" ++ s).
Proof. by exists s. Qed.

Lemma not_field_ma_diff c s : c ∈ ohlcv -> ~ field_column c ("ma_diff_" ++ s).
Proof.
  intros Hc [rest H]. unfold ohlcv in Hc.
  repeat (apply elem_of_cons in Hc as [->|Hc]; [cbv in H; discriminate|]).
  by apply elem_of_nil in Hc.
Qed.

Lemma not_field_crossover c s : c ∈ ohlcv -> ~ field_column c ("crossover_" ++ s).
Proof.
  intros Hc [rest H]. unfold ohlcv in Hc.
  repeat (apply elem_of_cons in Hc as [->|Hc]; [cbv in H; discriminate|]).
  by apply elem_of_nil in Hc.
Qed.

Lemma not_field_signal c s : c ∈ ohlcv -> ~ field_column c ("crossover_signal_" ++ s).
Proof.
  intros Hc [rest H]. unfold ohlcv in Hc.
  repeat (apply elem_of_cons in Hc as [->|Hc]; [cbv in H; discriminate|]).
  by apply elem_of_nil in Hc.
Qed.

(** *** Assignments that keep the NaN *)

Lemma nan_at_grown P name cols vals :
  (P name -> Forall (fun v => v = NaN) vals) ->
  nan_at P (grown_rows name cols vals).
Proof.
  intros Hvals. apply Forall_lookup. intros i r Hr name' HP.
  unfold grown_rows in Hr. rewrite list_lookup_imap in Hr.
  destruct (vals !! i) as [v|] eqn:Hv; [|discriminate].
  injection Hr as <-. cbn [snd].
  destruct (decide (name' = name)) as [->|Hne].
  - rewrite lookup_insert_eq. cbn [default].
    specialize (Hvals HP). rewrite Forall_lookup in Hvals. by apply (Hvals i).
  - rewrite lookup_insert_ne by done.
    destruct (gset_to_gmap NaN (list_to_set cols) !! name') as [y|] eqn:Hy;
      [|reflexivity].
    apply lookup_gset_to_gmap_Some in Hy as [_ <-]. reflexivity.
Qed.

Lemma nan_at_assign P name vals rows :
  (P name -> Forall (fun v => v = NaN) vals) ->
  nan_at P rows -> nan_at P (assign_rows name vals rows).
Proof.
  intros Hvals Hrows. apply Forall_lookup. intros i r Hr name' HP.
  rewrite lookup_assign_rows in Hr.
  destruct (rows !! i) as [r0|] eqn:Hr0; [|discriminate].
  injection Hr as <-. cbn [snd].
  destruct (decide (name' = name)) as [->|Hne].
  - rewrite lookup_insert_eq. cbn [default].
    destruct (vals !! i) as [v|] eqn:Hv; [|reflexivity].
    specialize (Hvals HP). rewrite Forall_lookup in Hvals. by apply (Hvals i).
  - rewrite lookup_insert_ne by done.
    unfold nan_at in Hrows. rewrite Forall_lookup in Hrows.
    by apply (Hrows i r0).
Qed.

Lemma nan_at_set_series P name vals df :
  (P name -> Forall (fun v => v = NaN) vals) ->
  nan_at P (df_rows df) -> nan_at P (df_rows (set_series name vals df)).
Proof.
  intros Hvals Hrows. unfold set_series.
  destruct (df_rows df) as [|r rows] eqn:E; cbn [df_rows].
  - by apply nan_at_grown.
  - by apply nan_at_assign.
Qed.

Lemma nan_at_set_array P name vals df df' :
  ~ P name ->
  set_array name vals df = Ok df' ->
  nan_at P (df_rows df) -> nan_at P (df_rows df').
Proof.
  intros HP Hset Hrows. unfold set_array in Hset.
  destruct (df_rows df) as [|r rows] eqn:E.
  - injection Hset as <-. cbn [df_rows]. by apply nan_at_grown.
  - destruct (decide _); [|discriminate]. injection Hset as <-.
    apply nan_at_set_series; [done|]. by rewrite E.
Qed.

Lemma nan_at_set_where P mask name v df :
  ~ P name ->
  nan_at P (df_rows df) -> nan_at P (df_rows (set_where mask name v df)).
Proof.
  intros HP Hrows. apply Forall_lookup. intros i [idx r] Hr name' HP'.
  apply set_where_row in Hr as (r0 & Hr0 & Hsame). cbn [snd].
  rewrite Hsame by (intros ->; done).
  unfold nan_at in Hrows. rewrite Forall_lookup in Hrows.
  by apply (Hrows i (idx, r0)).
Qed.

Lemma nan_at_crossover_part P s short long df3 df' :
  ~ P ("crossover_" ++ s) -> ~ P ("crossover_signal_" ++ s) ->
  crossover_part s short long df3 = Ok df' ->
  nan_at P (df_rows df3) -> nan_at P (df_rows df').
Proof.
  intros Hc Hs Hrun Hrows. unfold crossover_part in Hrun.
  apply rbind_ok in Hrun as (df4 & H4 & Hrun).
  apply rbind_ok in Hrun as (s0 & _ & Hrun).
  apply rbind_ok in Hrun as (flags & _ & Hrun).
  injection Hrun as <-.
  apply nan_at_set_where; [done|].
  apply nan_at_set_series; [done|].
  apply nan_at_set_series; [done|].
  exact (nan_at_set_array P _ _ df3 df4 Hc H4 Hrows).
Qed.

(** *** Windows over NaN *)

Lemma window_none n i xs :
  (i < length xs)%nat -> Forall (fun x => x = None) xs -> window n i xs = None.
Proof.
  intros Hi Hxs. unfold window.
  destruct (n =? 0)%nat eqn:E0; [reflexivity|].
  destruct (i + 1 <? n)%nat eqn:E1; [reflexivity|].
  apply Nat.eqb_neq in E0. apply Nat.ltb_ge in E1. cbn [orb].
  apply mapM_None_2. apply Exists_exists.
  destruct (xs !! (i + 1 - n)%nat) as [x|] eqn:Hx;
    [|apply lookup_ge_None in Hx; lia].
  exists x. split.
  - apply (list_elem_of_lookup_2 _ 0%nat).
    rewrite lookup_take_lt by lia. rewrite lookup_drop.
    by rewrite Nat.add_0_r.
  - rewrite Forall_lookup in Hxs. apply (Hxs _ _ Hx).
Qed.

Lemma rolling_none {A} n (agg : list Q -> option A) xs :
  Forall (fun x => x = None) xs ->
  Forall (fun x => x = None) (rolling n agg xs).
Proof.
  intros Hxs. apply Forall_lookup. intros i v Hv.
  unfold rolling in Hv. rewrite list_lookup_imap in Hv.
  destruct (xs !! i) as [x|] eqn:Hx; [|discriminate].
  injection Hv as <-.
  rewrite window_none; [reflexivity| |exact Hxs].
  by apply lookup_lt_Some in Hx.
Qed.

Lemma of_floats_none xs :
  Forall (fun x => x = None) xs -> Forall (fun v => v = NaN) (of_floats xs).
Proof.
  intros H. unfold of_floats. change (map of_float xs) with (of_float <$> xs).
  apply Forall_fmap. eapply Forall_impl; [exact H|].
  intros x ->. reflexivity.
Qed.

Lemma nan_at_with_ma_diff P c s n0 n1 xs df :
  ~ P ("ma_diff_" ++ s) ->
  Forall (fun x => x = None) xs ->
  nan_at P (df_rows df) -> nan_at P (df_rows (with_ma_diff c s n0 n1 xs df)).
Proof.
  intros Hd Hxs Hrows. unfold with_ma_diff.
  apply nan_at_set_series; [done|].
  apply nan_at_set_series; [intros _; by apply of_floats_none, rolling_none|].
  apply nan_at_set_series; [intros _; by apply of_floats_none, rolling_none|].
  exact Hrows.
Qed.

(** *** The loop body of [generate_ma_columns] on NaN prices *)

Lemma column_cells_nan name rows :
  Forall (fun r => default NaN (r.2 !! name) = NaN) rows ->
  column_cells name rows = of_floats (repeat None (length rows)).
Proof.
  induction 1 as [|r rows Hr _ IH]; [reflexivity|].
  cbn [column_cells map length repeat of_floats of_float].
  rewrite Hr. f_equal. exact IH.
Qed.

Lemma Forall_repeat_none n :
  Forall (fun x : option Q => x = None) (repeat None n).
Proof. induction n; constructor; done. Qed.

Lemma column_cells_grown name cols vals :
  column_cells name (grown_rows name cols vals) = vals.
Proof.
  apply list_eq. intros i. unfold column_cells, grown_rows.
  change (map ?f ?l) with (f <$> l).
  rewrite list_lookup_fmap, list_lookup_imap.
  destruct (vals !! i) as [v|]; [|reflexivity].
  cbn [fmap option_fmap option_map snd]. by rewrite lookup_insert_eq.
Qed.

(** On a frame without rows the crossover part returns. *)
Lemma crossover_part_empty_ok s df3 :
  df_rows df3 = [] -> exists df', crossover_part s [] [] df3 = Ok df'.
Proof.
  intros Hrows. unfold crossover_part.
  rewrite series_sub_nil, set_array_empty by done.
  cbn [rbind].
  set (cross := "crossover_" ++ s). set (sig := "crossover_signal_" ++ s).
  set (df4 := {| df_columns := add_column cross (df_columns df3);
                 df_rows := grown_rows cross (df_columns df3)
                              (of_floats (crossover_sign [])) |}).
  rewrite get_column_ok by (apply elem_of_add_column; by left).
  cbn [rbind]. unfold df4 at 1. cbn [df_rows].
  rewrite column_cells_grown, as_floats_of_floats. cbn [rbind].
  rewrite get_column_ok; [eauto|].
  rewrite !set_series_columns, !elem_of_add_column. right. by left.
Qed.

Section Field.

Variable col_name : string.
Hypothesis Hfield : lower col_name ∈ ohlcv.

Let c := lower col_name.
Let P := field_column c.

Lemma ma_security_nan n0 n1 df sec :
  c ++ "_" ++ lower sec ∈ df_columns df ->
  nan_at P (df_rows df) ->
  exists df', ma_security col_name n0 n1 df sec = Ok df'
              /\ (forall x, x ∈ df_columns df -> x ∈ df_columns df')
              /\ nan_at P (df_rows df').
Proof.
  intros Hin Hnan. rewrite ma_security_unfold. fold c.
  set (s := lower sec) in *.
  rewrite get_column_ok by done. cbn [rbind].
  assert (Hcol : Forall (fun r => default NaN (r.2 !! (c ++ "_" ++ s)) = NaN)
                        (df_rows df)).
  { eapply Forall_impl; [exact Hnan|]. intros r Hr. apply Hr, field_column_input. }
  rewrite (column_cells_nan _ _ Hcol), as_floats_of_floats. cbn [rbind].
  set (xs := repeat None (length (df_rows df))).
  assert (Hlen : length xs = length (df_rows df)) by apply repeat_length.
  assert (Hxs : Forall (fun x => x = None) xs) by apply Forall_repeat_none.
  set (df3 := with_ma_diff c s n0 n1 xs df).
  assert (H3 : length (df_rows df3) = length (df_rows df)).
  { by apply with_ma_diff_rows_length. }
  assert (Hnan3 : nan_at P (df_rows df3)).
  { apply nan_at_with_ma_diff; [by apply not_field_ma_diff|done..]. }
  assert (Hok : exists df', crossover_part s (rolling_mean n0 xs) (rolling_mean n1 xs) df3
                            = Ok df').
  { destruct (df_rows df) as [|r rows] eqn:E.
    - assert (Hx : xs = []) by (unfold xs; reflexivity).
      rewrite Hx. change (rolling_mean n0 []) with (@nil (option Q)).
      change (rolling_mean n1 []) with (@nil (option Q)).
      apply crossover_part_empty_ok.
      destruct (df_rows df3); [reflexivity | discriminate].
    - rewrite crossover_part_nonempty; [eauto| |rewrite length_rolling_mean; lia..].
      destruct (df_rows df3); [discriminate | done]. }
  destruct Hok as [df' Hrun]. exists df'. split; [exact Hrun|]. split.
  - intros x Hx. apply (crossover_part_columns _ _ _ _ _ _ Hrun). left.
    unfold df3, with_ma_diff. rewrite !set_series_columns, !elem_of_add_column. tauto.
  - apply (nan_at_crossover_part P _ _ _ _ _ (not_field_crossover _ _ Hfield)
             (not_field_signal _ _ Hfield) Hrun Hnan3).
Qed.

Lemma fold_ma_security_nan n0 n1 secs : forall df,
  (forall sec, sec ∈ secs -> c ++ "_" ++ lower sec ∈ df_columns df) ->
  nan_at P (df_rows df) ->
  exists df', fold_result (ma_security col_name n0 n1) secs df = Ok df'
              /\ (forall x, x ∈ df_columns df -> x ∈ df_columns df')
              /\ nan_at P (df_rows df').
Proof.
  induction secs as [|sec secs IH]; intros df Hin Hnan.
  - exists df. by repeat split.
  - destruct (ma_security_nan n0 n1 df sec) as (df1 & Hrun & Hcols & Hnan1);
      [apply Hin; by left | exact Hnan |].
    destruct (IH df1) as (df' & Hfold & Hcols' & Hnan'); [|exact Hnan1|].
    { intros sec' Hsec'. apply Hcols, Hin. by right. }
    exists df'. cbn [fold_result]. rewrite Hrun. cbn [rbind].
    split; [exact Hfold|]. split; [|exact Hnan']. auto.
Qed.

End Field.

Lemma dropna_nan_rows df name :
  name ∈ df_columns df ->
  Forall (fun r => default NaN (r.2 !! name) = NaN) (df_rows df) ->
  df_rows (dropna df) = [].
Proof.
  intros Hin Hnan.
  destruct (df_rows (dropna df)) as [|r rows] eqn:E; [reflexivity|]. exfalso.
  assert (Hr : r ∈ df_rows (dropna df)) by (rewrite E; by left).
  apply dropna_rows in Hr as [Hr Hcomplete].
  destruct (row_complete_cell _ _ _ Hcomplete Hin) as (v & Hv & Hne).
  rewrite Forall_forall in Hnan. specialize (Hnan r Hr).
  rewrite Hv in Hnan. by apply Hne.
Qed.

Lemma dropna_no_rows df : df_rows df = [] -> df_rows (dropna df) = [].
Proof. intros H. unfold dropna. cbn [df_rows]. by rewrite H. Qed.

(** [generate_ma_columns] on a frame without rows: the one row the
    crossover column brings has no price, and [dropna] removes it. *)
Lemma generate_ma_columns_no_rows df secs col_name n0 n1 :
  df_rows df = [] ->
  lower col_name ∈ ohlcv ->
  (forall sec, sec ∈ secs -> lower col_name ++ "_" ++ lower sec ∈ df_columns df) ->
  exists out, generate_ma_columns df secs col_name [n0; n1] = Ok out
              /\ df_rows out = []
              /\ (forall x, x ∈ df_columns df -> x ∈ df_columns out).
Proof.
  intros Hrows Hfield Hin.
  destruct (fold_ma_security_nan col_name Hfield n0 n1 secs df Hin)
    as (df' & Hfold & Hcols & Hnan).
  { unfold nan_at. rewrite Hrows. constructor. }
  exists (dropna df'). unfold generate_ma_columns. rewrite Hfold. cbn [rbind].
  split; [reflexivity|]. split; [|exact Hcols].
  destruct secs as [|sec secs].
  - cbn [fold_result] in Hfold. injection Hfold as <-. by apply dropna_no_rows.
  - apply (dropna_nan_rows _ (lower col_name ++ "_" ++ lower sec)).
    + apply Hcols, Hin. by left.
    + eapply Forall_impl; [exact Hnan|]. intros r Hr. apply Hr, field_column_input.
Qed.

(** *** Bollinger columns on a frame without rows *)

Section Bands.
Variable np_sqrt : Q -> Q.

Lemma set_series_no_rows name df :
  df_rows df = [] -> df_rows (set_series name [] df) = [].
Proof. intros H. unfold set_series. by rewrite H. Qed.

Lemma bollinger_security_no_rows col_name k len df sec :
  df_rows df = [] ->
  lower col_name ++ "_" ++ lower sec ∈ df_columns df ->
  exists df', bollinger_security np_sqrt col_name k len df sec = Ok df'
              /\ df_rows df' = []
              /\ (forall x, x ∈ df_columns df -> x ∈ df_columns df').
Proof.
  intros Hrows Hin. rewrite bollinger_security_unfold.
  rewrite get_column_ok by done. rewrite Hrows. cbn [rbind column_cells map as_floats map_result].
  eexists. split; [reflexivity|]. split.
  - unfold with_bands.
    repeat (apply set_series_no_rows). exact Hrows.
  - intros x Hx. apply with_bands_columns. tauto.
Qed.

Lemma generate_bollinger_columns_no_rows col_name k len secs : forall df,
  df_rows df = [] ->
  (forall sec, sec ∈ secs -> lower col_name ++ "_" ++ lower sec ∈ df_columns df) ->
  exists out, generate_bollinger_columns np_sqrt df secs col_name k len = Ok out
              /\ df_rows out = []
              /\ (forall x, x ∈ df_columns df -> x ∈ df_columns out).
Proof.
  intros df Hrows Hin. unfold generate_bollinger_columns.
  assert (Hfold : exists df', fold_result (bollinger_security np_sqrt col_name k len) secs df
                              = Ok df' /\ df_rows df' = []
                              /\ (forall x, x ∈ df_columns df -> x ∈ df_columns df')).
  { revert df Hrows Hin. induction secs as [|sec secs IH]; intros df Hrows Hin.
    - by exists df.
    - destruct (bollinger_security_no_rows col_name k len df sec Hrows)
        as (df1 & Hrun & Hrows1 & Hcols); [apply Hin; by left|].
      destruct (IH df1 Hrows1) as (df' & Hfold & Hrows' & Hcols').
      { intros sec' Hsec'. apply Hcols, Hin. by right. }
      exists df'. cbn [fold_result]. rewrite Hrun. cbn [rbind].
      split; [exact Hfold|]. split; [exact Hrows'|]. intros x Hx. by apply Hcols', Hcols. }
  destruct Hfold as (df' & -> & Hrows' & Hcols'). cbn [rbind].
  exists (dropna df'). split; [reflexivity|]. split; [by apply dropna_no_rows|].
  exact Hcols'.
Qed.

(** What the run has done before it plots, on a frame without rows: the
    columns are generated on a frame that still has no row and still has
    the columns it had, and the loop has not touched the portfolio. *)
Lemma run_simulation_df_no_rows_plot (security_data : DataFrame) (col_name : string)
    (start_cash_amt : Q) (ind : indicators) (verbose : bool) (plot_options : gset string) :
  df_rows security_data = [] ->
  lower col_name ∈ ohlcv ->
  (forall security, security ∈ _get_security_names security_data ->
     lower col_name ++ "_" ++ lower security ∈ df_columns security_data) ->
  (forall ndays, ma_crossovers ind = Some ndays -> length ndays = 2%nat) ->
  exists df,
    df_rows df = []
    /\ (forall x, x ∈ df_columns security_data -> x ∈ df_columns df)
    /\ run_simulation_df np_sqrt security_data col_name start_cash_amt ind verbose
         plot_options
       = (do _ <- _plot_simulation ind plot_options df
                    (_get_security_names security_data);
          Ok (Portfolio.init start_cash_amt verbose)).
Proof.
  intros Hrows Hfield Hin Hnd.
  unfold run_simulation_df.
  set (securities := _get_security_names security_data) in *.
  assert (Hma : exists df1,
             match ma_crossovers ind with
             | Some ndays => generate_ma_columns security_data securities
                               (lower col_name) ndays
             | None => Ok security_data
             end = Ok df1
             /\ df_rows df1 = []
             /\ (forall x, x ∈ df_columns security_data -> x ∈ df_columns df1)).
  { destruct (ma_crossovers ind) as [ndays|] eqn:E; [|by exists security_data].
    specialize (Hnd ndays eq_refl).
    destruct ndays as [|n0 [|n1 [|n2 ndays]]]; try discriminate.
    apply generate_ma_columns_no_rows; rewrite ?lower_idem; done. }
  destruct Hma as (df1 & -> & Hrows1 & Hcols1). cbn [rbind].
  assert (Hb : exists df2,
             match bollinger_std ind, bollinger_len ind with
             | Some k, Some len =>
                 generate_bollinger_columns np_sqrt df1 securities (lower col_name) k len
             | _, _ => Ok df1
             end = Ok df2
             /\ df_rows df2 = []
             /\ (forall x, x ∈ df_columns df1 -> x ∈ df_columns df2)).
  { destruct (bollinger_std ind) as [k|]; [|by exists df1].
    destruct (bollinger_len ind) as [len|]; [|by exists df1].
    apply generate_bollinger_columns_no_rows; [done|].
    intros sec Hsec. rewrite lower_idem. by apply Hcols1, Hin. }
  destruct Hb as (df2 & -> & Hrows2 & Hcols2). cbn [rbind].
  exists df2. split; [exact Hrows2|]. split; [intros x Hx; by apply Hcols2, Hcols1|].
  unfold _run_simulation. rewrite Hrows2. reflexivity.
Qed.

Lemma plot_simulation_nothing ind df securities :
  _plot_simulation ind ∅ df securities = Ok tt.
Proof.
  unfold _plot_simulation. induction securities as [|s secs IH]; [reflexivity|].
  cbn [fold_result]. unfold plot_security at 1.
  rewrite bool_decide_eq_true_2 by reflexivity. exact IH.
Qed.

Lemma series_plot_no_rows df name :
  df_rows df = [] -> name ∈ df_columns df -> series_plot df name = Raise TypeError.
Proof.
  intros Hrows Hin. unfold series_plot. rewrite get_column_ok by done.
  by rewrite Hrows.
Qed.

(** C9.  On a price series without rows the loop of [run_simulation_df]
    makes no trade, and the call goes on to [_plot_simulation] before it
    returns.  With nothing to plot (an empty [plot_options], or a frame
    without columns) it returns the portfolio as it was created.  With a
    [plot_options] that is not empty, the default included, the empty
    series of the close prices of the first security is plotted: the call
    raises TypeError and returns no portfolio.  Whenever it returns, the
    portfolio is as it was created.  The series has a column of the field
    [col_name] for each of its securities, and the moving-average key,
    when it is set, has two windows. *)
Theorem run_simulation_df_no_rows (security_data : DataFrame) (col_name : string)
    (start_cash_amt : Q) (ind : indicators) (verbose : bool) (plot_options : gset string) :
  df_rows security_data = [] ->
  lower col_name ∈ ohlcv ->
  (forall security, security ∈ _get_security_names security_data ->
     lower col_name ++ "_" ++ lower security ∈ df_columns security_data) ->
  (forall ndays, ma_crossovers ind = Some ndays -> length ndays = 2%nat) ->
  let run := run_simulation_df np_sqrt security_data col_name start_cash_amt ind verbose
               plot_options in
  (forall port, run = Ok port ->
     port = Portfolio.init start_cash_amt verbose
     /\ total_cash_amt port = start_cash_amt
     /\ security_dict port = ∅
     /\ trans_df port = [])
  /\ (plot_options = ∅ \/ _get_security_names security_data = [] ->
      run = Ok (Portfolio.init start_cash_amt verbose))
  /\ (plot_options <> ∅ ->
      forall security rest,
        _get_security_names security_data = security :: rest ->
        "close_" ++ security ∈ df_columns security_data ->
        run = Raise TypeError).
Proof.
  intros Hrows Hfield Hin Hnd run.
  destruct (run_simulation_df_no_rows_plot security_data col_name start_cash_amt ind
              verbose plot_options Hrows Hfield Hin Hnd) as (df & Hdf & Hcols & Hrun).
  fold run in Hrun. rewrite Hrun. clear Hrun run.
  split; [|split].
  - intros port Hport.
    destruct (_plot_simulation ind plot_options df (_get_security_names security_data));
      [|discriminate].
    cbn [rbind] in Hport. injection Hport as <-. by repeat split.
  - intros [-> | ->].
    + by rewrite plot_simulation_nothing.
    + reflexivity.
  - intros Hopt security rest Hsecs Hclose. rewrite Hsecs.
    unfold _plot_simulation. cbn [fold_result]. unfold plot_security at 1.
    rewrite bool_decide_eq_false_2 by done.
    rewrite (series_plot_no_rows df _ Hdf (Hcols _ Hclose)). reflexivity.
Qed.

End Bands.

Lemma run_simulation_df_no_rows_witness :
  let security_data :=
    {| df_columns := ["open_x"; "high_x"; "low_x"; "close_x"; "volume_x"];
       df_rows := [] |} in
  run_simulation_df sqrt_exact security_data "Close" 10000 default_indicators true
    default_plot_options
  = Raise TypeError
  /\ run_simulation_df sqrt_exact security_data "Close" 10000 default_indicators true ∅
     = Ok (Portfolio.init 10000 true).
Proof.
  intros security_data.
  destruct (run_simulation_df_no_rows sqrt_exact security_data "Close" 10000
              default_indicators true default_plot_options) as (_ & _ & Hplot).
  - reflexivity.
  - vm_compute. repeat constructor.
  - intros security Hs. vm_compute in Hs.
    apply list_elem_of_singleton in Hs as ->. vm_compute. repeat constructor.
  - intros ndays [= <-]. reflexivity.
  - split.
    + apply (Hplot ltac:(done) "x" []); [reflexivity|].
      vm_compute. repeat constructor.
    + vm_compute. reflexivity.
Defined.

End ZeroRowFacts.

(** ** Reports on the ledger *)

Module ReportFacts.
Import Portfolio Indicators Reports RsiFacts.

Lemma Qsum_app (l1 l2 : list Q) : Qsum (l1 ++ l2) == Qsum l1 + Qsum l2.
Proof.
  induction l1 as [|x l1 IH]; simpl; [ring|]. rewrite IH. ring.
Qed.

Lemma Qmult_comm_eq (a p : Q) : a * p = p * a.
Proof.
  destruct a as [an ad], p as [pn pd]. unfold Qmult. cbn [Qnum Qden].
  by rewrite Z.mul_comm, Pos.mul_comm.
Qed.

Lemma replayed_step self cash dict tx :
  replayed self ->
  cash = replay_cash (total_cash_amt self) tx ->
  tr_total_cash_amt tx = cash ->
  replayed {| start_cash_amt := start_cash_amt self;
              total_cash_amt := cash;
              security_dict := dict;
              verbose := verbose self;
              trans_df := trans_df self ++ [tx] |}.
Proof.
  unfold replayed. cbn [start_cash_amt total_cash_amt trans_df].
  intros [Hnow Hrows] Hc Htx. split.
  - by rewrite fold_left_app, <- Hnow.
  - intros i tx' Hi.
    destruct (decide (i < length (trans_df self))%nat) as [Hlt|Hge].
    + rewrite lookup_app_l in Hi by done.
      rewrite take_app_le by lia. by apply Hrows.
    + assert (i = length (trans_df self)) as ->.
      { apply lookup_lt_Some in Hi. rewrite length_app in Hi. simpl in Hi. lia. }
      rewrite lookup_app_r, Nat.sub_diag in Hi by lia. injection Hi as <-.
      rewrite take_ge by (rewrite length_app; simpl; lia).
      by rewrite fold_left_app, <- Hnow, Htx.
Qed.

Lemma run_call_replayed c self :
  replayed self -> replayed (state_of (run_call c self)).
Proof.
  intros Hb.
  destruct c as [t a p d|t p d|t a p d|t p d]; simpl;
    unfold buy_max_securities, sell_all_securities, sell_securities, buy_securities;
    repeat (match goal with
            | |- context [match ?x with _ => _ end] => destruct x eqn:?
            end); cbn [state_of]; try exact Hb;
    (apply replayed_step; [exact Hb| |reflexivity]);
    unfold replay_cash; cbn [tr_trans_type tr_amt];
    unfold Qminus; by rewrite Qmult_comm_eq.
Qed.

Lemma run_call_start_cash c self :
  start_cash_amt (state_of (run_call c self)) = start_cash_amt self.
Proof.
  destruct c as [t a p d|t p d|t a p d|t p d]; simpl;
    unfold buy_max_securities, sell_all_securities, sell_securities, buy_securities;
    repeat (match goal with
            | |- context [match ?x with _ => _ end] => destruct x eqn:?
            end); reflexivity.
Qed.

Lemma run_calls_start_cash cs : forall self,
  start_cash_amt (run_calls cs self) = start_cash_amt self.
Proof.
  induction cs as [|c cs IH]; intros self; simpl; [reflexivity|].
  by rewrite IH, run_call_start_cash.
Qed.

Lemma run_calls_replayed cs : forall self,
  replayed self -> replayed (run_calls cs self).
Proof.
  induction cs as [|c cs IH]; intros self H; simpl; [exact H|].
  apply IH. by apply run_call_replayed.
Qed.

(** X1.  The log accounts for the cash.  After any sequence of calls of
    the four trading methods on a new portfolio, whatever their arguments
    and whether they raised or not, the cash balance is what replaying the
    log gives: from the starting cash amount, row by row in the order of
    the log, the amount of a 'Buy' row subtracted and the amount of a
    'Sell' row added; the balance each row recorded is the replay up to
    that row; [start_cash_amt] is still the amount the portfolio was
    created with.  The replay does the subtractions and additions the
    methods did, in their order. *)
Theorem cash_is_log_replayed (cash : Q) (v : bool) (cs : list call) :
  let final := run_calls cs (init cash v) in
  total_cash_amt final = fold_left replay_cash (trans_df final) cash
  /\ (forall i tx, trans_df final !! i = Some tx ->
        tr_total_cash_amt tx = fold_left replay_cash (take (S i) (trans_df final)) cash)
  /\ start_cash_amt final = cash.
Proof.
  intros final.
  assert (Hs : start_cash_amt final = cash) by apply run_calls_start_cash.
  assert (Hb : replayed final).
  { apply run_calls_replayed. split; [reflexivity|]. intros i tx Hi. discriminate. }
  destruct Hb as [Hnow Hrows]. rewrite Hs in Hnow, Hrows. by repeat split.
Qed.

Lemma last_row_step self cash dict tx :
  tr_total_cash_amt tx = cash ->
  last_row_current {| start_cash_amt := start_cash_amt self;
                      total_cash_amt := cash;
                      security_dict := dict;
                      verbose := verbose self;
                      trans_df := trans_df self ++ [tx] |}.
Proof.
  intros H. unfold last_row_current. cbn [trans_df total_cash_amt].
  by rewrite last_snoc.
Qed.

Lemma buy_securities_last_row t a p d self :
  last_row_current self -> last_row_current (state_of (buy_securities t a p d self)).
Proof.
  intros H. unfold buy_securities.
  destruct (Qle_bool _ _); cbn [state_of]; [by apply last_row_step | exact H].
Qed.

Lemma sell_securities_last_row t a p d self :
  last_row_current self -> last_row_current (state_of (sell_securities t a p d self)).
Proof.
  intros H. unfold sell_securities.
  destruct (security_dict self !! t) as [n|]; [|exact H].
  destruct (Qlt_bool _ _); cbn [state_of]; [exact H | by apply last_row_step].
Qed.

Lemma run_call_last_row c self :
  last_row_current self -> last_row_current (state_of (run_call c self)).
Proof.
  intros H. destruct c as [t a p d|t p d|t a p d|t p d]; cbn [run_call].
  - by apply buy_securities_last_row.
  - unfold buy_max_securities. destruct (Qeq_bool p 0); [exact H|].
    by apply buy_securities_last_row.
  - by apply sell_securities_last_row.
  - unfold sell_all_securities. destruct (security_dict self !! t); [|exact H].
    by apply sell_securities_last_row.
Qed.

Lemma run_calls_last_row cs : forall self,
  last_row_current self -> last_row_current (run_calls cs self).
Proof.
  induction cs as [|c cs IH]; intros self H; simpl; [exact H|].
  apply IH. by apply run_call_last_row.
Qed.

(** X2.  After any sequence of calls on a new portfolio, the balance
    recorded in the last row of the transaction log is the current cash
    balance; while the log is empty the cash balance is the starting
    cash amount. *)
Theorem last_row_holds_balance (cash : Q) (v : bool) (cs : list call) :
  let final := run_calls cs (init cash v) in
  match last (trans_df final) with
  | Some tx => tr_total_cash_amt tx = total_cash_amt final
  | None => total_cash_amt final = cash
  end.
Proof.
  intros final.
  pose proof (run_calls_last_row cs (init cash v) eq_refl) as H.
  unfold last_row_current in H. fold final in H.
  destruct (last (trans_df final)); [exact H|].
  rewrite H. apply run_calls_start_cash.
Qed.


(** *** [get_last_sell_cash_amt] *)

Lemma existsb_snoc {A} (f : A -> bool) l x : existsb f (l ++ [x]) = existsb f l || f x.
Proof. rewrite existsb_app. simpl. by rewrite orb_false_r. Qed.

Lemma filter_snoc {A} (f : A -> bool) l x :
  List.filter f (l ++ [x]) = (List.filter f l ++ if f x then [x] else [])%list.
Proof. rewrite List.filter_app. simpl. by destruct (f x). Qed.

Lemma get_last_sell_cash_amt_step self cash dict tx :
  get_last_sell_cash_amt
    {| start_cash_amt := start_cash_amt self;
       total_cash_amt := cash;
       security_dict := dict;
       verbose := verbose self;
       trans_df := trans_df self ++ [tx] |}
  = if is_sell tx then Ok (tr_total_cash_amt tx) else get_last_sell_cash_amt self.
Proof.
  unfold get_last_sell_cash_amt, get_all_transactions.
  cbn [trans_df start_cash_amt].
  rewrite existsb_snoc, filter_snoc.
  destruct (is_sell tx).
  - rewrite orb_true_r. by rewrite last_snoc.
  - by rewrite orb_false_r, app_nil_r.
Qed.

(** X3.  [get_last_sell_cash_amt] is the starting cash amount on a new
    portfolio; a sale that goes through makes it the cash balance the
    sale leaves; a purchase, or a call that raises, leaves it as it was. *)
Theorem get_last_sell_cash_amt_spec (cash : Q) (v : bool) (c : call)
    (self : security_portfolio) :
  get_last_sell_cash_amt (init cash v) = Ok cash
  /\ get_last_sell_cash_amt (state_of (run_call c self))
     = match c, run_call c self with
       | (CallSell _ _ _ _ | CallSellAll _ _ _), Returned self' =>
           Ok (total_cash_amt self')
       | _, _ => get_last_sell_cash_amt self
       end.
Proof.
  split; [reflexivity|].
  destruct c as [t a p d|t p d|t a p d|t p d]; cbn [run_call].
  - unfold buy_securities. destruct (Qle_bool _ _); cbn [state_of]; [|reflexivity].
    by rewrite get_last_sell_cash_amt_step.
  - unfold buy_max_securities, buy_securities.
    destruct (Qeq_bool p 0); [reflexivity|].
    destruct (Qle_bool _ _); cbn [state_of]; [|reflexivity].
    by rewrite get_last_sell_cash_amt_step.
  - unfold sell_securities. destruct (security_dict self !! t) as [n|]; [|reflexivity].
    destruct (Qlt_bool _ _); cbn [state_of]; [reflexivity|].
    by rewrite get_last_sell_cash_amt_step.
  - unfold sell_all_securities, sell_securities.
    destruct (security_dict self !! t) as [n|]; [|reflexivity].
    destruct (Qlt_bool _ _); cbn [state_of]; [reflexivity|].
    by rewrite get_last_sell_cash_amt_step.
Qed.

(** *** [get_avg_transaction_freq] *)

Lemma np_diff_cons (x y : Q) (l : list Q) :
  np_diff (x :: y :: l) = (y - x) :: np_diff (y :: l).
Proof. reflexivity. Qed.

Lemma Qsum_np_diff (l : list Q) : forall x,
  Qsum (np_diff (x :: l)) == default x (last l) - x.
Proof.
  induction l as [|y l IH]; intros x.
  - simpl. ring.
  - rewrite np_diff_cons. cbn [Qsum fold_right]. fold (Qsum (np_diff (y :: l))).
    rewrite IH, last_cons. destruct (last l); simpl; ring.
Qed.

Lemma last_map {A B} (f : A -> B) (l : list A) : last (map f l) = f <$> last l.
Proof.
  induction l as [|x [|y l] IH]; [reflexivity..|].
  change (map f (x :: y :: l)) with (f x :: map f (y :: l)).
  by rewrite !last_cons_cons.
Qed.

(** X4.  [get_avg_transaction_freq] is NaN while the log has fewer than
    two rows; from two rows on it is the time from the first to the last
    transaction divided by the number of rows less one: the steps in
    between cancel out. *)
Theorem get_avg_transaction_freq_spec (self : security_portfolio) :
  match trans_df self with
  | [] | [_] => get_avg_transaction_freq self = None
  | tx0 :: rest =>
      exists q, get_avg_transaction_freq self = Some q
                /\ q == inject_Z (tr_date (default tx0 (last rest)) - tr_date tx0)
                        / inject_Z (Z.of_nat (length rest))
  end.
Proof.
  unfold get_avg_transaction_freq.
  destruct (trans_df self) as [|tx0 [|tx1 rest]]; [reflexivity..|].
  set (date := fun tx => inject_Z (tr_date tx)).
  cbn [map]. rewrite np_diff_cons.
  eexists. split; [reflexivity|].
  unfold np_mean.
  rewrite <- np_diff_cons, Qsum_np_diff.
  rewrite np_diff_length. cbn [length]. rewrite length_map.
  change (date tx1 :: map date rest) with (map date (tx1 :: rest)).
  rewrite last_map.
  destruct (last (tx1 :: rest)) as [txn|] eqn:E;
    [|apply last_None in E; discriminate].
  simpl default. simpl fmap. unfold date.
  replace (S (S (length rest)) - 1)%nat with (S (length rest)) by lia.
  unfold Zminus. rewrite inject_Z_plus, inject_Z_opp. reflexivity.
Qed.

(** *** [sell_all_securities] *)

(** X6.  [sell_all_securities] raises exactly when the ticker is no key of
    the holdings, and then leaves the portfolio as it was: it never finds
    the count too small.  When it returns it has sold the whole count at
    the price: the entry of the ticker stays, with the count less itself,
    the cash went up by count times price, and one 'Sell' row was
    appended. *)
Theorem sell_all_securities_spec (t : string) (p : Q) (d : Z) (self : security_portfolio) :
  match sell_all_securities t p d self with
  | Returned self' =>
      exists n, security_dict self !! t = Some n
        /\ security_dict self' = <[t := n - n]> (security_dict self)
        /\ total_cash_amt self' = total_cash_amt self + n * p
        /\ exists tx, trans_df self' = (trans_df self ++ [tx])%list
             /\ tr_trans_type tx = Sell /\ tr_security tx = t /\ tr_date tx = d
             /\ tr_security_price tx = p /\ tr_amt tx = p * n
             /\ tr_total_cash_amt tx = total_cash_amt self'
  | Raised e self' =>
      security_dict self !! t = None /\ e = NoSharesOwned /\ self' = self
  end.
Proof.
  unfold sell_all_securities, sell_securities.
  destruct (security_dict self !! t) as [n|] eqn:Ht; [|done].
  assert (Qlt_bool n n = false) as -> by (apply Qlt_bool_false; lra).
  exists n. repeat split. eexists. split; [reflexivity|]. by repeat split.
Qed.

(** X5.  A purchase that the cash covers, followed by [sell_all_securities]
    of the same ticker at the same price, both return: the sale never
    fails.  It sells the whole count [n] the purchase left, the count held
    before and the amount bought: the ticker is left with a count of zero,
    the cash is the balance after the purchase plus [n] times the price,
    the two updates in their order, and the log has two rows more. *)
Theorem buy_then_sell_all (t : string) (a p : Q) (d d' : Z) (self : security_portfolio) :
  a * p <= total_cash_amt self ->
  exists s1 s2 n,
    buy_securities t a p d self = Returned s1
    /\ sell_all_securities t p d' s1 = Returned s2
    /\ security_dict s1 !! t = Some n
    /\ n = match security_dict self !! t with Some held => held + a | None => a end
    /\ total_cash_amt s1 = total_cash_amt self - a * p
    /\ total_cash_amt s2 = total_cash_amt s1 + n * p
    /\ (exists z, security_dict s2 !! t = Some z /\ z == 0)
    /\ (forall t', t' <> t -> security_dict s2 !! t' = security_dict self !! t')
    /\ length (trans_df s2) = (length (trans_df self) + 2)%nat.
Proof.
  intros Hle. unfold buy_securities.
  apply Qle_bool_iff in Hle. rewrite Hle.
  set (h := match security_dict self !! t with Some held => held + a | None => a end).
  eexists. eexists. exists h. split; [reflexivity|].
  unfold sell_all_securities, sell_securities. cbn [security_dict total_cash_amt trans_df].
  assert (Hd : match security_dict self !! t with
               | Some held => <[t := held + a]> (security_dict self)
               | None => <[t := a]> (security_dict self)
               end = <[t := h]> (security_dict self)).
  { unfold h. by destruct (security_dict self !! t). }
  rewrite Hd, lookup_insert_eq.
  assert (Qlt_bool h h = false) as -> by (apply Qlt_bool_false; lra).
  split; [reflexivity|]. cbn [security_dict total_cash_amt trans_df].
  split; [reflexivity|].
  split; [reflexivity|]. split; [reflexivity|]. split; [reflexivity|].
  split; [exists (h - h); split; [by rewrite lookup_insert_eq | ring]|].
  split; [intros t' Hne; by rewrite !lookup_insert_ne|].
  rewrite !length_app. simpl. lia.
Qed.

Lemma buy_then_sell_all_witness :
  let self := init 100 false in
  exists s1 s2 n,
    buy_securities "aapl" 3 10 1 self = Returned s1
    /\ sell_all_securities "aapl" 10 2 s1 = Returned s2
    /\ security_dict s1 !! "aapl" = Some n
    /\ n = match security_dict self !! "aapl" with Some held => held + 3 | None => 3 end
    /\ total_cash_amt s1 = total_cash_amt self - 3 * 10
    /\ total_cash_amt s2 = total_cash_amt s1 + n * 10
    /\ (exists z, security_dict s2 !! "aapl" = Some z /\ z == 0)
    /\ (forall t', t' <> "aapl" -> security_dict s2 !! t' = security_dict self !! t')
    /\ length (trans_df s2) = (length (trans_df self) + 2)%nat.
Proof.
  apply (buy_then_sell_all "aapl" 3 10 1 2 (init 100 false)).
  cbv. discriminate.
Defined.

End ReportFacts.

(** ** The relative strength index: its range *)

Module RsiRange.
Import Indicators RsiFacts.

Lemma filter_nil_false {A} (f : A -> bool) (l : list A) :
  List.filter f l = [] -> Forall (fun x => f x = false) l.
Proof.
  induction l as [|x l IH]; simpl; [constructor|].
  destruct (f x) eqn:E; [discriminate|]. intros H. constructor; auto.
Qed.

Lemma filter_cons_true {A} (f : A -> bool) (l : list A) x l' :
  List.filter f l = x :: l' -> Forall (fun y => f y = true) (x :: l').
Proof.
  intros H. apply Forall_forall. intros y Hy. rewrite <- H in Hy.
  apply list_elem_of_In, filter_In in Hy. by destruct Hy.
Qed.

Lemma np_mean_pos (l : list Q) :
  l <> [] -> Forall (fun d => Qlt_bool 0 d = true) l -> 0 < np_mean l.
Proof.
  intros Hne Hl. unfold np_mean.
  apply Qlt_shift_div_l; [by apply length_pos_Q|].
  rewrite Qmult_0_l. apply Qsum_pos; [|exact Hne].
  eapply Forall_impl; [exact Hl|]. intros d Hd. by apply Qlt_bool_iff.
Qed.

Lemma np_mean_neg (l : list Q) :
  l <> [] -> Forall (fun d => Qlt_bool d 0 = true) l -> np_mean l < 0.
Proof.
  intros Hne Hl. unfold np_mean.
  apply Qlt_shift_div_r; [by apply length_pos_Q|].
  rewrite Qmult_0_l. apply Qsum_neg; [|exact Hne].
  eapply Forall_impl; [exact Hl|]. intros d Hd. by apply Qlt_bool_iff.
Qed.

Lemma rsi_between (rs : Q) : 0 < rs -> 0 <= 100 - 100 / (1 + rs) <= 100.
Proof.
  intros Hrs.
  assert (H1 : 0 < 1 + rs) by lra.
  assert (H2 : 0 < 100 / (1 + rs)).
  { apply Qlt_shift_div_l; [exact H1 | lra]. }
  assert (H3 : 100 / (1 + rs) <= 100).
  { apply Qle_shift_div_r; [exact H1 | nra]. }
  lra.
Qed.

(** X9.  [_rsi_agg] raises exactly on the windows without a gain and
    without a loss, and then with the UnboundLocalError of [rsi]; on every
    other window it returns, and its value lies between 0 and 100: it is
    100 without a loss, 0 without a gain, and
    [100 - 100 / (1 + avg_gain / avg_loss)] with both. *)
Theorem rsi_agg_range (security_array : list Q) :
  let sec_diff := np_diff security_array in
  let pos_array := List.filter (fun d => Qlt_bool 0 d) sec_diff in
  let neg_array := List.filter (fun d => Qlt_bool d 0) sec_diff in
  match _rsi_agg security_array with
  | Ok rsi =>
      0 <= rsi <= 100
      /\ (pos_array <> [] \/ neg_array <> [])
      /\ (neg_array = [] -> rsi = 100)
      /\ (pos_array = [] -> rsi = 0)
      /\ (pos_array <> [] -> neg_array <> [] ->
          rsi = 100 - 100 / (1 + np_mean pos_array / - np_mean neg_array))
  | Raise e =>
      e = UnboundLocalError "rsi"
      /\ Forall (fun d => d == 0) sec_diff
  end.
Proof.
  intros sec_diff pos_array neg_array.
  destruct pos_array as [|p0 pos'] eqn:Ep; destruct neg_array as [|n0 neg'] eqn:En.
  - (* no gain, no loss *)
    unfold _rsi_agg. fold sec_diff. fold pos_array neg_array. rewrite Ep, En.
    cbn. split; [reflexivity|].
    apply filter_nil_false in Ep, En.
    apply Forall_forall. intros d Hd.
    rewrite Forall_forall in Ep, En.
    specialize (Ep d Hd). specialize (En d Hd). cbn beta in Ep, En.
    apply Qlt_bool_false in Ep, En. lra.
  - (* losses only *)
    unfold _rsi_agg. fold sec_diff. fold pos_array neg_array. rewrite Ep, En.
    cbn. repeat split; try lra; try done. right. done.
  - (* gains only *)
    unfold _rsi_agg. fold sec_diff. fold pos_array neg_array. rewrite Ep, En.
    cbn. repeat split; try lra; try done. left. done.
  - (* both *)
    assert (Hp : pos_array <> []) by (rewrite Ep; done).
    assert (Hn : neg_array <> []) by (rewrite En; done).
    rewrite <- Ep, <- En.
    rewrite (rsi_agg_mixed security_array Hp Hn). fold sec_diff. fold pos_array neg_array.
    assert (Hpm : 0 < np_mean pos_array).
    { apply np_mean_pos; [exact Hp|]. rewrite Ep.
      apply (filter_cons_true _ sec_diff). exact Ep. }
    assert (Hnm : np_mean neg_array < 0).
    { apply np_mean_neg; [exact Hn|]. rewrite En.
      apply (filter_cons_true _ sec_diff). exact En. }
    assert (Hrs : 0 < np_mean pos_array / - np_mean neg_array).
    { apply Qlt_shift_div_l; lra. }
    split; [by apply rsi_between|].
    split; [by left|]. split; [done|]. split; [done|]. reflexivity.
Qed.

Lemma rsi_agg_increasing_witness : _rsi_agg [1; 2; 4] = Ok 100.
Proof.
  apply (rsi_agg_increasing [1; 2; 4]).
  - intros [|[|[|i]]] a b Ha Hb; cbn in Ha, Hb; try discriminate;
      injection Ha as <-; injection Hb as <-; reflexivity.
  - simpl. lia.
Defined.

Lemma rsi_agg_decreasing_witness : _rsi_agg [9; 5; 2] = Ok 0.
Proof.
  apply (rsi_agg_decreasing [9; 5; 2]).
  - intros [|[|[|i]]] a b Ha Hb; cbn in Ha, Hb; try discriminate;
      injection Ha as <-; injection Hb as <-; reflexivity.
  - simpl. lia.
Defined.

End RsiRange.

(** ** The moving-average rule of the simulation *)

Module MaRuleFacts.
Import Portfolio Indicators Simulation FrameFacts SimulationFacts.

(** X10.  A call of [_get_ma_crossovers_price] that returns has done one
    of three things.  A purchase: the security was not held, the
    difference of the moving averages was strictly positive and the cash
    strictly above [purchase_price]; [buy_max_securities] ran at the
    close, one 'Buy' was logged, the security is held and
    [purchase_price] is the close.  A sale: the security was held, the
    difference was strictly negative and the close strictly above
    [purchase_price]; [sell_all_securities] ran at the close, one 'Sell'
    was logged, the security is no longer held and [purchase_price] is
    unchanged.  Or no trade: nothing changed, and the condition of the
    purchase or of the sale was false. *)
Theorem ma_rule_gates (index : Z) (row : gmap string cell) (security : string)
    (purchase_price : Q) (st : sim_state) (purchase_price' : Q) (st' : sim_state) :
  _get_ma_crossovers_price index row security purchase_price st
  = Ok (purchase_price', st') ->
  let close_col := "close_" ++ security in
  let diff_col := "ma_diff_" ++ security in
  let port := sec_port st in
  (* a purchase *)
  ((security ∉ bought_securities st)
   /\ exists diff close tx,
        row_float row diff_col = Ok (Some diff)
        /\ 0 < diff
        /\ purchase_price < total_cash_amt port
        /\ row_float row close_col = Ok (Some close)
        /\ buy_max_securities security close index port = Returned (sec_port st')
        /\ trans_df (sec_port st') = (trans_df port ++ [tx])%list
        /\ tr_trans_type tx = Buy /\ tr_security_price tx = close
        /\ bought_securities st' = {[security]} ∪ bought_securities st
        /\ purchase_price' = close)
  \/ (* a sale *)
  ((security ∈ bought_securities st)
   /\ exists diff close tx,
        row_float row diff_col = Ok (Some diff)
        /\ diff < 0
        /\ row_float row close_col = Ok (Some close)
        /\ purchase_price < close
        /\ sell_all_securities security close index port = Returned (sec_port st')
        /\ trans_df (sec_port st') = (trans_df port ++ [tx])%list
        /\ tr_trans_type tx = Sell /\ tr_security_price tx = close
        /\ bought_securities st' = bought_securities st ∖ {[security]}
        /\ purchase_price' = purchase_price)
  \/ (* no trade *)
  (st' = st /\ purchase_price' = purchase_price
   /\ (((security ∉ bought_securities st)
        /\ exists d, row_float row diff_col = Ok d
                     /\ (gt_float d (Some 0) = false
                         \/ total_cash_amt port <= purchase_price))
       \/ ((security ∈ bought_securities st)
           /\ exists d, row_float row diff_col = Ok d
                        /\ (lt_float d (Some 0) = false
                            \/ exists c, row_float row close_col = Ok c
                                         /\ gt_float c (Some purchase_price) = false)))).
Proof.
  intros Hrun close_col diff_col port.
  unfold _get_ma_crossovers_price in Hrun.
  fold close_col diff_col in Hrun.
  unfold rand in Hrun. cbn [rbind] in Hrun.
  destruct (bool_decide (security ∈ bought_securities st)) eqn:Hheld.
  - (* held *)
    apply bool_decide_eq_true in Hheld. cbn [negb rbind] in Hrun.
    destruct (row_float row diff_col) as [d|e] eqn:Hd; [|discriminate].
    cbn [rbind] in Hrun.
    destruct (lt_float d (Some 0)) eqn:Hlt.
    + cbn [rbind] in Hrun.
      destruct (row_float row close_col) as [c|e] eqn:Hc; [|discriminate].
      cbn [rbind] in Hrun.
      destruct (gt_float c (Some purchase_price)) eqn:Hgt.
      * right. left. split; [exact Hheld|].
        destruct (lt_float_true _ _ Hlt) as (diff & z & -> & [= <-] & Hneg).
        destruct (gt_float_true _ _ Hgt) as (close & ppv & -> & [= <-] & Hprofit).
        rewrite (row_price_float _ _ _ Hc) in Hrun. cbn [rbind] in Hrun.
        destruct (call_port _) as [port'|e] eqn:Hcall; [|discriminate].
        cbn [rbind] in Hrun. injection Hrun as <- <-.
        apply call_port_ok in Hcall.
        destruct (sell_all_securities_log _ _ _ _ _ Hcall) as (tx & Hlog & Hty & _ & Hpr).
        exists diff, close, tx. cbn [sec_port bought_securities]. by repeat split.
      * right. right. injection Hrun as <- <-.
        split; [reflexivity|]. split; [reflexivity|]. right.
        split; [exact Hheld|]. exists d. split; [reflexivity|]. right. by exists c.
    + cbn [rbind] in Hrun. right. right. injection Hrun as <- <-.
      split; [reflexivity|]. split; [reflexivity|]. right.
      split; [exact Hheld|]. exists d. split; [reflexivity|]. by left.
  - (* not held *)
    apply bool_decide_eq_false in Hheld. cbn [negb rbind] in Hrun.
    destruct (row_float row diff_col) as [d|e] eqn:Hd; [|discriminate].
    cbn [rbind] in Hrun.
    destruct (gt_float d (Some 0)) eqn:Hgt.
    + cbn [rbind] in Hrun.
      destruct (Qlt_bool purchase_price (get_total_cash_amt (sec_port st))) eqn:Hcash.
      * left. split; [exact Hheld|].
        destruct (gt_float_true _ _ Hgt) as (diff & z & -> & [= <-] & Hpos).
        apply Qlt_bool_iff in Hcash.
        destruct (row_price row close_col) as [close|e] eqn:Hclose; [|discriminate].
        cbn [rbind] in Hrun.
        destruct (call_port _) as [port'|e] eqn:Hcall; [|discriminate].
        cbn [rbind] in Hrun. injection Hrun as <- <-.
        apply call_port_ok in Hcall.
        destruct (buy_max_securities_log _ _ _ _ _ Hcall) as (tx & Hlog & Hty & _ & Hpr).
        assert (Hc : row_float row close_col = Ok (Some close)).
        { unfold row_price in Hclose.
          destruct (row_float row close_col) as [[c|]|e]; cbn [rbind] in Hclose;
            try discriminate. by injection Hclose as ->. }
        exists diff, close, tx. cbn [sec_port bought_securities]. by repeat split.
      * apply Qlt_bool_false in Hcash. cbn [rbind] in Hrun.
        right. right. injection Hrun as <- <-.
        split; [reflexivity|]. split; [reflexivity|]. left.
        split; [exact Hheld|]. exists d. split; [reflexivity|]. by right.
    + cbn [rbind] in Hrun. right. right. injection Hrun as <- <-.
      split; [reflexivity|]. split; [reflexivity|]. left.
      split; [exact Hheld|]. exists d. split; [reflexivity|]. by left.
Qed.

Lemma ma_rule_gates_witness :
  let row : gmap string cell := {[ "close_x" := Num 12; "ma_diff_x" := Num (-1) ]} in
  let held := state_of (buy_max_securities "x" 10 0 (Portfolio.init 100 false)) in
  let st := mk_sim held {[ "x" ]} in
  let st' := mk_sim (state_of (sell_all_securities "x" 12 1 held)) ({[ "x" ]} ∖ {[ "x" ]}) in
  let port := sec_port st in
  _get_ma_crossovers_price 1 row "x" 10 st = Ok (10, st')
  /\ ((("x" ∉ bought_securities st)
       /\ exists diff close tx,
            row_float row "ma_diff_x" = Ok (Some diff)
            /\ 0 < diff
            /\ 10 < total_cash_amt port
            /\ row_float row "close_x" = Ok (Some close)
            /\ buy_max_securities "x" close 1 port = Returned (sec_port st')
            /\ trans_df (sec_port st') = (trans_df port ++ [tx])%list
            /\ tr_trans_type tx = Buy /\ tr_security_price tx = close
            /\ bought_securities st' = {[ "x" ]} ∪ bought_securities st
            /\ 10 = close)
      \/ (("x" ∈ bought_securities st)
          /\ exists diff close tx,
               row_float row "ma_diff_x" = Ok (Some diff)
               /\ diff < 0
               /\ row_float row "close_x" = Ok (Some close)
               /\ 10 < close
               /\ sell_all_securities "x" close 1 port = Returned (sec_port st')
               /\ trans_df (sec_port st') = (trans_df port ++ [tx])%list
               /\ tr_trans_type tx = Sell /\ tr_security_price tx = close
               /\ bought_securities st' = bought_securities st ∖ {[ "x" ]}
               /\ 10 = 10)
      \/ (st' = st /\ 10 = 10
          /\ ((("x" ∉ bought_securities st)
               /\ exists d, row_float row "ma_diff_x" = Ok d
                            /\ (gt_float d (Some 0) = false
                                \/ total_cash_amt port <= 10))
              \/ (("x" ∈ bought_securities st)
                  /\ exists d, row_float row "ma_diff_x" = Ok d
                               /\ (lt_float d (Some 0) = false
                                   \/ exists c, row_float row "close_x" = Ok c
                                                /\ gt_float c (Some 10) = false))))).
Proof.
  intros row held st st' port.
  assert (H : _get_ma_crossovers_price 1 row "x" 10 st = Ok (10, st'))
    by (vm_compute; reflexivity).
  split; [exact H|].
  exact (ma_rule_gates 1 row "x" 10 st 10 st' H).
Defined.

End MaRuleFacts.

(** ** Positions in the simulation *)

Module PositionFacts.
Import Portfolio Indicators Simulation Positions FrameFacts PortfolioFacts SimulationFacts.

(** *** The two rules, as trades *)

Lemma row_float_raises row name e :
  row_float row name = Raise e -> data_error e.
Proof.
  unfold row_float, row_get. destruct (row !! name) as [[q| |s]|]; cbn; try discriminate.
  - by intros [= <-].
  - by intros [= <-].
Qed.

Lemma row_price_raises row name e :
  row_price row name = Raise e -> data_error e.
Proof.
  unfold row_price. destruct (row_float row name) as [[q|]|e'] eqn:H; cbn; try discriminate.
  - by intros [= <-].
  - intros [= <-]. by apply row_float_raises in H.
Qed.

Lemma call_port_raises o e :
  call_port o = Raise e -> exists port, o = Raised e port.
Proof. destruct o as [s|e' s]; cbn; [discriminate|]. intros [= <-]. by exists s. Qed.

Ltac rule_ok Hrun :=
  repeat match type of Hrun with
         | rbind ?r _ = _ =>
             let E := fresh "E" in destruct r eqn:E; cbn [rbind] in Hrun; [|discriminate]
         | (if ?b then _ else _) = _ =>
             let E := fresh "E" in destruct b eqn:E; cbn [rbind] in Hrun
         end.

Lemma buy_branch_ok index row s st pp' st' :
  s ∉ bought_securities st ->
  (do close <- row_price row ("close_" ++ s);
   do port <- call_port (buy_max_securities s close index (sec_port st));
   Ok (close, {| sec_port := port;
                 bought_securities := {[s]} ∪ bought_securities st |}))
  = Ok (pp', st') ->
  trade index row s st st'.
Proof.
  intros Hheld Hrun.
  destruct (row_price row ("close_" ++ s)) as [close|] eqn:Hc; [|discriminate].
  cbn [rbind] in Hrun.
  destruct (call_port _) as [port|] eqn:Hp; [|discriminate].
  cbn [rbind] in Hrun. injection Hrun as <- <-. apply call_port_ok in Hp.
  right. left. split; [exact Hheld|]. by exists close.
Qed.

Lemma sell_branch_ok index row s st (pp pp' : Q) st' :
  s ∈ bought_securities st ->
  (do close <- row_price row ("close_" ++ s);
   do port <- call_port (sell_all_securities s close index (sec_port st));
   Ok (pp, {| sec_port := port;
              bought_securities := bought_securities st ∖ {[s]} |}))
  = Ok (pp', st') ->
  trade index row s st st'.
Proof.
  intros Hheld Hrun.
  destruct (row_price row ("close_" ++ s)) as [close|] eqn:Hc; [|discriminate].
  cbn [rbind] in Hrun.
  destruct (call_port _) as [port|] eqn:Hp; [|discriminate].
  cbn [rbind] in Hrun. injection Hrun as <- <-. apply call_port_ok in Hp.
  right. right. split; [exact Hheld|]. by exists close.
Qed.

Lemma buy_branch_raises index row s st e :
  s ∉ bought_securities st ->
  (do close <- row_price row ("close_" ++ s);
   do port <- call_port (buy_max_securities s close index (sec_port st));
   Ok (close, {| sec_port := port;
                 bought_securities := {[s]} ∪ bought_securities st |})
   : result (Q * sim_state))
  = Raise e ->
  trade_raises index row s st e.
Proof.
  intros Hheld Hrun.
  destruct (row_price row ("close_" ++ s)) as [close|e'] eqn:Hc; cbn [rbind] in Hrun.
  - destruct (call_port _) as [port|e'] eqn:Hp; [discriminate|].
    cbn [rbind] in Hrun. injection Hrun as <-.
    apply call_port_raises in Hp as [port Hp].
    right. left. split; [exact Hheld|]. by exists close, port.
  - injection Hrun as <-. left. by apply row_price_raises in Hc.
Qed.

Lemma sell_branch_raises index row s st (pp : Q) e :
  s ∈ bought_securities st ->
  (do close <- row_price row ("close_" ++ s);
   do port <- call_port (sell_all_securities s close index (sec_port st));
   Ok (pp, {| sec_port := port;
              bought_securities := bought_securities st ∖ {[s]} |})
   : result (Q * sim_state))
  = Raise e ->
  trade_raises index row s st e.
Proof.
  intros Hheld Hrun.
  destruct (row_price row ("close_" ++ s)) as [close|e'] eqn:Hc; cbn [rbind] in Hrun.
  - destruct (call_port _) as [port|e'] eqn:Hp; [discriminate|].
    cbn [rbind] in Hrun. injection Hrun as <-.
    apply call_port_raises in Hp as [port Hp].
    right. right. split; [exact Hheld|]. by exists close, port.
  - injection Hrun as <-. left. by apply row_price_raises in Hc.
Qed.

(** The outcome of a rule, in both rules at once: the rule is the
    purchase branch, the sale branch or nothing, chosen by two conditions
    that read the row and do not change the state. *)
Lemma rule_outcome index row s (pp : Q) st
    (buy sell : result bool) (r : result (Q * sim_state)) :
  r = (do b <- rand (Ok (negb (bool_decide (s ∈ bought_securities st)))) buy;
       if b then
         do close <- row_price row ("close_" ++ s);
         do port <- call_port (buy_max_securities s close index (sec_port st));
         Ok (close, {| sec_port := port;
                       bought_securities := {[s]} ∪ bought_securities st |})
       else
         do c <- rand (Ok (bool_decide (s ∈ bought_securities st))) sell;
         if c then
           do close <- row_price row ("close_" ++ s);
           do port <- call_port (sell_all_securities s close index (sec_port st));
           Ok (pp, {| sec_port := port;
                      bought_securities := bought_securities st ∖ {[s]} |})
         else Ok (pp, st)) ->
  (forall e, buy = Raise e -> data_error e) ->
  (forall e, sell = Raise e -> data_error e) ->
  match r with
  | Ok (_, st') => trade index row s st st'
  | Raise e => trade_raises index row s st e
  end.
Proof.
  intros -> Hbuy Hsell. unfold rand. cbn [rbind].
  destruct (bool_decide (s ∈ bought_securities st)) eqn:Hheld; cbn [negb rbind].
  - apply bool_decide_eq_true in Hheld.
    destruct sell as [[|]|e] eqn:Es; cbn [rbind].
    + match goal with |- match ?x with _ => _ end =>
        destruct x as [[pp' st']|e] eqn:Hrun end.
      * by apply sell_branch_ok in Hrun.
      * by apply sell_branch_raises in Hrun.
    + by left.
    + left. by apply Hsell.
  - apply bool_decide_eq_false in Hheld.
    destruct buy as [[|]|e] eqn:Eb; cbn [rbind].
    + match goal with |- match ?x with _ => _ end =>
        destruct x as [[pp' st']|e] eqn:Hrun end.
      * by apply buy_branch_ok in Hrun.
      * by apply buy_branch_raises in Hrun.
    + by left.
    + left. by apply Hbuy.
Qed.

Lemma rand_raises (a b : result bool) e :
  rand a b = Raise e -> a = Raise e \/ b = Raise e.
Proof.
  unfold rand. destruct a as [[|]|e']; cbn [rbind]; [by right|discriminate|by left].
Qed.

Lemma ma_rule_outcome index row s pp st :
  match _get_ma_crossovers_price index row s pp st with
  | Ok (_, st') => trade index row s st st'
  | Raise e => trade_raises index row s st e
  end.
Proof.
  eapply rule_outcome; [reflexivity| |].
  - intros e H. apply rand_raises in H as [H|H]; [|discriminate].
    destruct (row_float row ("ma_diff_" ++ s)) eqn:E; cbn [rbind] in H; [discriminate|].
    injection H as <-. by apply row_float_raises in E.
  - intros e H. apply rand_raises in H as [H|H].
    + destruct (row_float row ("ma_diff_" ++ s)) eqn:E; cbn [rbind] in H; [discriminate|].
      injection H as <-. by apply row_float_raises in E.
    + destruct (row_float row ("close_" ++ s)) eqn:E; cbn [rbind] in H; [discriminate|].
      injection H as <-. by apply row_float_raises in E.
Qed.

Lemma bollinger_rule_outcome index row s pp st :
  match _get_bollinger_price index row s pp st with
  | Ok (_, st') => trade index row s st st'
  | Raise e => trade_raises index row s st e
  end.
Proof.
  eapply rule_outcome; [reflexivity| |].
  - intros e H. apply rand_raises in H as [H|H]; [|discriminate].
    destruct (row_float row ("close_" ++ s)) eqn:E; cbn [rbind] in H.
    + destruct (row_float row ("close_" ++ s ++ "_bollinger_low")) eqn:E';
        cbn [rbind] in H; [discriminate|].
      injection H as <-. by apply row_float_raises in E'.
    + injection H as <-. by apply row_float_raises in E.
  - intros e H.
    destruct (row_float row ("close_" ++ s)) eqn:E; cbn [rbind] in H.
    + destruct (row_float row ("close_" ++ s ++ "_bollinger_high")) eqn:E';
        cbn [rbind] in H; [discriminate|].
      injection H as <-. by apply row_float_raises in E'.
    + injection H as <-. by apply row_float_raises in E.
Qed.

(** *** What a trade keeps *)

Lemma replay_snoc log tx : replay (log ++ [tx]) = replay_row (replay log) tx.
Proof. unfold replay. by rewrite fold_left_app. Qed.

Lemma buy_max_securities_dict t p d self self' :
  buy_max_securities t p d self = Returned self' ->
  exists n, security_dict self' = <[t := n]> (security_dict self).
Proof.
  unfold buy_max_securities, buy_securities.
  destruct (Qeq_bool p 0); [discriminate|].
  destruct (Qle_bool _ _); [|discriminate].
  intros [= <-]. cbn [security_dict].
  destruct (security_dict self !! t); eauto.
Qed.

Lemma sell_all_securities_dict t p d self self' :
  sell_all_securities t p d self = Returned self' ->
  exists n, security_dict self' = <[t := n]> (security_dict self).
Proof.
  unfold sell_all_securities, sell_securities.
  destruct (security_dict self !! t) as [n|]; [|discriminate].
  destruct (Qlt_bool n n); [discriminate|].
  intros [= <-]. cbn [security_dict]. eauto.
Qed.

Lemma sell_all_securities_held t p d self e self' :
  is_Some (security_dict self !! t) ->
  sell_all_securities t p d self <> Raised e self'.
Proof.
  intros [n Hn]. unfold sell_all_securities, sell_securities. rewrite Hn.
  assert (Qlt_bool n n = false) as -> by (apply Qlt_bool_false; lra).
  discriminate.
Qed.

Lemma trade_positions index row s st st' :
  positions_ok st -> trade index row s st st' -> positions_ok st'.
Proof.
  intros [Hlog Hdict] [->|[(Hheld & close & _ & Hrun & Hset)|(Hheld & close & _ & Hrun & Hset)]].
  - by split.
  - destruct (buy_max_securities_log _ _ _ _ _ Hrun) as (tx & Htx & Hty & Hsec & _).
    destruct (buy_max_securities_dict _ _ _ _ _ Hrun) as (n & Hn).
    split.
    + rewrite Htx, replay_snoc, Hlog. unfold replay_row. cbn [mbind option_bind].
      rewrite Hty, Hsec, bool_decide_eq_false_2 by done. by rewrite Hset.
    + intros s' Hs'. rewrite Hn. destruct (decide (s' = s)) as [->|Hne].
      * rewrite lookup_insert_eq. eauto.
      * rewrite lookup_insert_ne by done. apply Hdict.
        rewrite Hset in Hs'. apply elem_of_union in Hs' as [Hs'|Hs']; [|exact Hs'].
        by apply elem_of_singleton in Hs'.
  - destruct (sell_all_securities_log _ _ _ _ _ Hrun) as (tx & Htx & Hty & Hsec & _).
    destruct (sell_all_securities_dict _ _ _ _ _ Hrun) as (n & Hn).
    split.
    + rewrite Htx, replay_snoc, Hlog. unfold replay_row. cbn [mbind option_bind].
      rewrite Hty, Hsec, bool_decide_eq_true_2 by done. by rewrite Hset.
    + intros s' Hs'. rewrite Hn. destruct (decide (s' = s)) as [->|Hne].
      * rewrite lookup_insert_eq. eauto.
      * rewrite lookup_insert_ne by done. apply Hdict.
        rewrite Hset in Hs'. by apply elem_of_difference in Hs' as [Hs' _].
Qed.

Lemma data_error_not_oversell e : data_error e -> ~ oversell e.
Proof. destruct e; cbn; tauto. Qed.

Lemma trade_raises_not_oversell index row s st e :
  positions_ok st -> trade_raises index row s st e -> ~ oversell e.
Proof.
  intros [_ Hdict] [He|[(_ & close & port & _ & Hrun)|(Hheld & close & port & _ & Hrun)]].
  - by apply data_error_not_oversell.
  - unfold buy_max_securities, buy_securities in Hrun.
    destruct (Qeq_bool close 0); [injection Hrun as <- _; cbn; tauto|].
    destruct (Qle_bool _ _); [discriminate|]. injection Hrun as <- _. cbn. tauto.
  - exfalso. by apply (sell_all_securities_held s close index (sec_port st) e port (Hdict s Hheld)).
Qed.

(** *** Invariants of the loop *)

Section Invariant.

Variable I : sim_state -> Prop.
Variable E : exn -> Prop.
Variable ind : indicators.

Lemma bollinger_stage_invariant index row pp st s :
  (forall st st', I st -> trade index row s st st' -> I st') ->
  (forall st e, I st -> trade_raises index row s st e -> E e) ->
  I st ->
  holds I E (if has (bollinger_len ind) && has (bollinger_std ind)
         then _get_bollinger_price index row s pp st
         else Ok (pp, st)).
Proof.
  intros Hok Hraise Hst.
  destruct (has (bollinger_len ind) && has (bollinger_std ind)); [|exact Hst].
  pose proof (bollinger_rule_outcome index row s pp st) as H.
  destruct (_get_bollinger_price index row s pp st) as [[pp2 st2]|e]; cbn.
  - by apply (Hok st).
  - by apply (Hraise st).
Qed.

Lemma simulate_security_invariant index row pp st s :
  (forall st st', I st -> trade index row s st st' -> I st') ->
  (forall st e, I st -> trade_raises index row s st e -> E e) ->
  I st -> holds I E (simulate_security ind index row (pp, st) s).
Proof.
  intros Hok Hraise Hst. unfold simulate_security.
  destruct (rand (Ok (has (ma_crossovers ind))) _) as [[|]|e] eqn:ER; cbn [rbind].
  - pose proof (ma_rule_outcome index row s pp st) as H.
    destruct (_get_ma_crossovers_price index row s pp st) as [[pp1 st1]|e]; cbn [rbind].
    + apply bollinger_stage_invariant; [exact Hok|exact Hraise|]. by apply (Hok st).
    + by apply (Hraise st).
  - by apply bollinger_stage_invariant.
  - apply (Hraise st); [exact Hst|]. left.
    apply rand_raises in ER as [ER|ER]; [discriminate|].
    unfold row_get in ER. destruct (row !! ("crossover_" ++ s)); cbn [rbind] in ER;
      [discriminate|]. by injection ER as <-.
Qed.

Lemma run_securities_invariant index row securities : forall pp st,
  (forall s st st', s ∈ securities -> I st -> trade index row s st st' -> I st') ->
  (forall s st e, s ∈ securities -> I st -> trade_raises index row s st e -> E e) ->
  I st -> holds I E (fold_result (simulate_security ind index row) securities (pp, st)).
Proof.
  induction securities as [|s secs IHs]; intros pp st Hok Hraise Hst; [exact Hst|].
  cbn [fold_result].
  pose proof (simulate_security_invariant index row pp st s) as H.
  destruct (simulate_security ind index row (pp, st) s) as [[pp1 st1]|e]; cbn [rbind].
  - apply IHs.
    + intros s' ? ? Hs'. apply Hok. by right.
    + intros s' ? ? Hs'. apply Hraise. by right.
    + apply H; [| |exact Hst].
      * intros ? ?. apply Hok. by left.
      * intros ? ?. apply Hraise. by left.
  - apply H; [| |exact Hst].
    + intros ? ?. apply Hok. by left.
    + intros ? ?. apply Hraise. by left.
Qed.

Lemma run_simulation_invariant security_data securities st :
  (forall r s st st', r ∈ df_rows security_data -> s ∈ securities ->
     I st -> trade r.1 r.2 s st st' -> I st') ->
  (forall r s st e, r ∈ df_rows security_data -> s ∈ securities ->
     I st -> trade_raises r.1 r.2 s st e -> E e) ->
  I st -> holds I E (_run_simulation ind security_data securities st).
Proof.
  intros Hok Hraise. unfold _run_simulation.
  generalize (0 : Q). revert st.
  induction (df_rows security_data) as [|r rows IH]; intros st pp Hst; [exact Hst|].
  cbn [fold_result].
  assert (Hrow : holds I E (fold_result (simulate_security ind r.1 r.2) securities (pp, st))).
  { apply run_securities_invariant; [| |exact Hst].
    - intros s ? ? Hs. apply Hok; [by left | exact Hs].
    - intros s ? ? Hs. apply Hraise; [by left | exact Hs]. }
  destruct (fold_result _ securities (pp, st)) as [[pp1 st1]|e]; cbn [rbind]; [|exact Hrow].
  apply IH; [| |exact Hrow].
  - intros r' ? ? ? Hr'. apply Hok. by right.
  - intros r' ? ? ? Hr'. apply Hraise. by right.
Qed.

End Invariant.

Lemma init_positions_ok cash v : positions_ok (mk_sim (init cash v) ∅).
Proof. split; [reflexivity|]. intros s Hs. cbn in Hs. by apply elem_of_empty in Hs. Qed.

(** X11.  A run of the loop of the simulation from a new portfolio, on
    any frame, with any indicators: when it returns, the transaction log
    replays from no position to the set of securities held, so every
    'Buy' is of a security that has no open position and every 'Sell'
    closes the position of its security, and each security held has an
    entry in the holdings; when it raises, the error is not one of a sale
    (no shares owned, not enough shares). *)
Theorem simulation_keeps_one_position (ind : indicators) (security_data : DataFrame)
    (securities : list string) (cash : Q) (v : bool) :
  match _run_simulation ind security_data securities (mk_sim (init cash v) ∅) with
  | Ok (_, st) =>
      replay (trans_df (sec_port st)) = Some (bought_securities st)
      /\ forall s, s ∈ bought_securities st -> is_Some (security_dict (sec_port st) !! s)
  | Raise e => ~ oversell e
  end.
Proof.
  apply (run_simulation_invariant positions_ok (fun e => ~ oversell e)).
  - intros r s st st' _ _. apply trade_positions.
  - intros r s st e _ _. apply trade_raises_not_oversell.
  - apply init_positions_ok.
Qed.

(** *** Positive prices *)

Lemma row_price_num row name q :
  row_price row name = Ok q -> row !! name = Some (Num q).
Proof.
  unfold row_price, row_float, row_get.
  destruct (row !! name) as [[x| |x]|]; cbn; try discriminate. by intros [= ->].
Qed.

Lemma trade_ledger_ok index row s st st' :
  (forall q, row !! ("close_" ++ s) = Some (Num q) -> 0 < q) ->
  ledger_ok (sec_port st) -> trade index row s st st' -> ledger_ok (sec_port st').
Proof.
  intros Hpos Hok [->|[(_ & close & Hc & Hrun & _)|(_ & close & Hc & Hrun & _)]].
  - exact Hok.
  - apply row_price_num, Hpos in Hc.
    pose proof (run_call_ledger_ok (CallBuyMax s close index) (sec_port st) Hc Hok) as H.
    cbn [run_call] in H. by rewrite Hrun in H.
  - apply row_price_num, Hpos in Hc.
    pose proof (run_call_ledger_ok (CallSellAll s close index) (sec_port st) Hc Hok) as H.
    cbn [run_call] in H. by rewrite Hrun in H.
Qed.

Lemma trade_raises_data index row s st e :
  (forall q, row !! ("close_" ++ s) = Some (Num q) -> 0 < q) ->
  positions_ok st -> ledger_ok (sec_port st) ->
  trade_raises index row s st e -> data_error e.
Proof.
  intros Hpos [_ Hdict] (Hcash & _)
    [He|[(_ & close & port & Hc & Hrun)|(Hheld & close & port & Hc & Hrun)]].
  - exact He.
  - exfalso. apply row_price_num, Hpos in Hc.
    rewrite (buy_max_securities_returns s close index (sec_port st) Hcash Hc) in Hrun.
    discriminate.
  - exfalso.
    by apply (sell_all_securities_held s close index (sec_port st) e port (Hdict s Hheld)).
Qed.

(** X12.  A run of the loop from a new portfolio with a non-negative
    starting cash amount, on a frame whose close prices are positive where
    they are numbers: when it returns, cash, share counts and logged
    balances are non-negative; when it raises, the error comes from the
    data (a missing column, a label where a number is expected, a price
    that is NaN or so small that the quotient is infinite), or it is the
    exception of [buy_securities] for a purchase the cash does not cover,
    and nothing else: no sale fails and no price divides by zero.  (With
    exact quotients [buy_max_securities] never asks for more than the
    cash covers; the quotient of two floats can round up to the next
    integer, see [Binary64], so the exception is left open here.) *)
Theorem simulation_raises_on_data_only (ind : indicators) (security_data : DataFrame)
    (securities : list string) (cash : Q) (v : bool) :
  0 <= cash ->
  positive_closes security_data securities ->
  match _run_simulation ind security_data securities (mk_sim (init cash v) ∅) with
  | Ok (_, st) => ledger_ok (sec_port st)
  | Raise e => data_error e \/ e = InsufficientCash
  end.
Proof.
  intros Hcash Hpos.
  enough (Hrun : match _run_simulation ind security_data securities
                         (mk_sim (init cash v) ∅) with
                 | Ok (_, st) => ledger_ok (sec_port st)
                 | Raise e => data_error e
                 end).
  { destruct (_run_simulation ind security_data securities (mk_sim (init cash v) ∅))
      as [[pp st]|e]; [exact Hrun | by left]. }
  pose proof (run_simulation_invariant
                (fun st => positions_ok st /\ ledger_ok (sec_port st)) data_error ind
                security_data securities (mk_sim (init cash v) ∅)) as H.
  unfold holds in H.
  destruct (_run_simulation ind security_data securities (mk_sim (init cash v) ∅))
    as [[pp st]|e]; [apply H|apply H].
  all: try (split; [apply init_positions_ok | by apply init_ledger_ok]).
  all: try (intros r s st0 st1 Hr Hs [Hp Hl] Ht; split;
            [by apply (trade_positions _ _ _ _ _ Hp Ht)|];
            apply (trade_ledger_ok r.1 r.2 s st0 st1); [|exact Hl|exact Ht];
            intros q Hq; by apply (Hpos r s q)).
  all: intros r s st0 e0 Hr Hs [Hp Hl] Ht;
       apply (trade_raises_data r.1 r.2 s st0 e0); [|exact Hp|exact Hl|exact Ht];
       intros q Hq; by apply (Hpos r s q).
Qed.

Lemma simulation_raises_on_data_only_witness :
  let row0 : gmap string cell :=
    {[ "close_x" := Num 10; "close_x_bollinger_high" := Num 20;
       "close_x_bollinger_low" := Num 11 ]} in
  let row1 : gmap string cell :=
    {[ "close_x" := Num 9; "close_x_bollinger_high" := Num 8;
       "close_x_bollinger_low" := Num 5 ]} in
  let security_data :=
    {| df_columns := ["close_x"; "close_x_bollinger_high"; "close_x_bollinger_low"];
       df_rows := [(0%Z, row0); (1%Z, row1)] |} in
  let ind := {| ma_crossovers := None; bollinger_len := Some 20%nat;
                bollinger_std := Some 2 |} in
  match _run_simulation ind security_data ["x"] (mk_sim (init 100 false) ∅) with
  | Ok (_, st) => ledger_ok (sec_port st)
  | Raise e => data_error e \/ e = InsufficientCash
  end.
Proof.
  intros row0 row1 security_data ind.
  apply (simulation_raises_on_data_only ind security_data ["x"] 100 false).
  - cbv. discriminate.
  - intros r s q Hr Hs Hq. apply list_elem_of_singleton in Hs as ->.
    apply elem_of_cons in Hr as [->|Hr]; [|apply list_elem_of_singleton in Hr as ->].
    + vm_compute in Hq. injection Hq as <-. reflexivity.
    + vm_compute in Hq. injection Hq as <-. reflexivity.
Defined.

(** *** No indicator *)







End PositionFacts.

(** ** Column names: trimming the security *)

Module TrimFacts.
Import Simulation NameFacts.

Lemma prefix_refl (s : string) : String.prefix s s = true.
Proof.
  induction s as [|c s IH]; [reflexivity|]. cbn.
  destruct (ascii_dec c c); [exact IH | done].
Qed.

Lemma prefix_length (sub s : string) :
  String.prefix sub s = true -> (String.length sub <= String.length s)%nat.
Proof.
  revert sub. induction s as [|c s IH]; intros [|c' sub]; cbn; try lia; try discriminate.
  destruct (ascii_dec c' c); [|discriminate]. intros H. apply IH in H. lia.
Qed.

Lemma rfind_from_short (sub s : string) :
  (String.length s < String.length sub)%nat -> rfind_from sub s = None.
Proof.
  induction s as [|c s IH]; intros Hlen.
  - destruct sub; [cbn in Hlen; lia | reflexivity].
  - cbn [rfind_from]. rewrite IH by (cbn in Hlen; lia).
    destruct (String.prefix sub (String c s)) eqn:E; [|reflexivity].
    apply prefix_length in E. lia.
Qed.

Lemma rfind_from_suffix (base sub : string) :
  sub <> "" -> rfind_from sub (base ++ sub) = Some (String.length base).
Proof.
  intros Hsub. induction base as [|c base IH].
  - rewrite append_nil. destruct sub as [|c sub]; [done|].
    cbn [rfind_from]. rewrite rfind_from_short by (cbn; lia).
    by rewrite prefix_refl.
  - rewrite append_cons. cbn [rfind_from]. by rewrite IH.
Qed.

Lemma substring_append (base s : string) :
  String.substring 0 (String.length base) (base ++ s) = base.
Proof.
  induction base as [|c base IH].
  - rewrite append_nil. by destruct s.
  - rewrite append_cons. cbn. by rewrite IH.
Qed.

(** X14.  [_trim_security_name] undoes the naming of the columns: from a
    name followed by an underscore and the security it gives back the
    name, whatever the name and the security hold. *)
Theorem trim_security_name_suffix (base sec_name : string) :
  _trim_security_name (base ++ "_" ++ sec_name) sec_name = base.
Proof.
  unfold _trim_security_name, rfind.
  rewrite rfind_from_suffix by (intros H; cbv in H; discriminate).
  destruct (_ =? _)%Z eqn:E.
  - unfold slice_to.
    destruct (0 <=? Z.of_nat (String.length base))%Z eqn:E0;
      [|apply Z.leb_gt in E0; lia].
    rewrite Nat2Z.id. apply substring_append.
  - apply Z.eqb_neq in E. rewrite !length_append in E. cbn [String.length] in E. lia.
Qed.

(** X15.  Where the underscore and the security are nowhere in the
    string, [rfind] gives -1, and the test of [_trim_security_name] holds
    when the string is as long as the security: then the string comes
    back without its last character.  With any other length it comes back
    as it is. *)
Theorem trim_security_name_absent (sec_string sec_name : string) :
  rfind ("_" ++ sec_name) sec_string = (-1)%Z ->
  _trim_security_name sec_string sec_name
  = if (String.length sec_string =? String.length sec_name)%nat
    then String.substring 0 (String.length sec_string - 1) sec_string
    else sec_string.
Proof.
  intros Habs. unfold _trim_security_name. rewrite Habs.
  destruct (String.length sec_string =? String.length sec_name)%nat eqn:E.
  - apply Nat.eqb_eq in E.
    replace (-1 + Z.of_nat (String.length sec_name) + 1
             =? Z.of_nat (String.length sec_string))%Z
      with true by (symmetry; apply Z.eqb_eq; lia).
    unfold slice_to. cbn [Z.leb Z.compare].
    f_equal. lia.
  - apply Nat.eqb_neq in E.
    replace (-1 + Z.of_nat (String.length sec_name) + 1
             =? Z.of_nat (String.length sec_string))%Z
      with false by (symmetry; apply Z.eqb_neq; lia).
    reflexivity.
Qed.

Lemma trim_security_name_absent_witness :
  _trim_security_name "date" "aapl" = "dat".
Proof.
  apply (trim_security_name_absent "date" "aapl"). reflexivity.
Defined.

(** *** The names of the securities *)

Lemma last_component_go_no_underscore (s : string) : forall acc,
  no_underscore s = true -> last_component_go acc s = acc ++ s.
Proof.
  induction s as [|c s IH]; intros acc H; cbn in *.
  - symmetry. clear. induction acc as [|a acc IH]; [reflexivity|].
    rewrite append_cons. by rewrite IH.
  - apply andb_true_iff in H as [Hc Hs]. apply negb_true_iff in Hc. rewrite Hc.
    rewrite IH by done. rewrite append_assoc. by rewrite append_cons, append_nil.
Qed.

Lemma last_component_go_reset (base s : string) : forall acc,
  no_underscore s = true -> last_component_go acc (base ++ "_" ++ s) = s.
Proof.
  induction base as [|c base IH]; intros acc Hs.
  - rewrite append_nil. change ("_" ++ s) with (String "_" s).
    cbn [last_component_go]. cbn [Ascii.eqb Bool.eqb].
    by rewrite last_component_go_no_underscore.
  - rewrite append_cons. cbn [last_component_go].
    destruct (Ascii.eqb c "_"); by apply IH.
Qed.

(** X16.  The security of a column: [word.split('_')[-1]] of a name, an
    underscore and a security without an underscore is the security.  So
    [_get_security_names] of a frame that has columns, all of them a name,
    an underscore and the one security, is this security alone. *)
Theorem get_security_names_one (security_df : DataFrame) (security : string) :
  no_underscore security = true ->
  df_columns security_df <> [] ->
  (forall col, col ∈ df_columns security_df -> exists name, col = name ++ "_" ++ security) ->
  _get_security_names security_df = [security].
Proof.
  intros Hs Hne Hcols. unfold _get_security_names.
  revert Hne Hcols. generalize (df_columns security_df). intros cols Hne Hcols.
  assert (Hmap : map last_component cols = repeat security (length cols)).
  { clear Hne. induction cols as [|col cols IH]; [reflexivity|].
    cbn [map length repeat]. f_equal.
    - destruct (Hcols col) as [name ->]; [by left|].
      by apply last_component_go_reset.
    - apply IH. intros c Hc. apply Hcols. by right. }
  rewrite Hmap. destruct cols as [|col cols]; [done|].
  cbn [length]. clear.
  induction (length cols) as [|n IH]; [reflexivity|].
  change (repeat security (S (S n))) with (security :: repeat security (S n)).
  cbn [remove_dups]. case_decide as Hin; [exact IH|].
  exfalso. apply Hin. by left.
Qed.

Lemma get_security_names_one_witness :
  _get_security_names
    {| df_columns := ["open_aapl"; "high_aapl"; "low_aapl"; "close_aapl"; "volume_aapl"];
       df_rows := [] |}
  = ["aapl"].
Proof.
  apply (get_security_names_one
           {| df_columns := ["open_aapl"; "high_aapl"; "low_aapl"; "close_aapl";
                             "volume_aapl"];
              df_rows := [] |} "aapl").
  - reflexivity.
  - discriminate.
  - intros col Hcol. cbn [df_columns] in Hcol.
    repeat (apply elem_of_cons in Hcol as [->|Hcol];
            [by (exists "open" + exists "high" + exists "low" + exists "close"
                 + exists "volume")|]).
    by apply elem_of_nil in Hcol.
Defined.

End TrimFacts.

(** ** Returns *)

Module ReturnFacts.
Import Indicators Simulation Returns FrameFacts.

Lemma length_shift1 xs : length (shift1 xs) = length xs.
Proof.
  destruct xs as [|x xs]; [reflexivity|].
  unfold shift1. cbn [length]. rewrite length_removelast. cbn [length]. lia.
Qed.

Lemma shift1_first xs : xs <> [] -> shift1 xs !! 0%nat = Some None.
Proof. by destruct xs. Qed.

Lemma shift1_next xs d :
  (S d < length xs)%nat -> shift1 xs !! S d = xs !! d.
Proof.
  intros Hd. destruct xs as [|x xs]; [cbn in Hd; lia|].
  unfold shift1. change ((None :: ?l) !! S d) with (l !! d).
  by apply lookup_removelast.
Qed.

(** X17.  On a frame of one security whose column of the field holds
    floats, [generate_returns] returns one value per row: NaN in the
    first row, and in every later row whose previous price is a number
    other than zero, the change of the price over the previous price;
    where the previous price is zero the value is NaN for no change and
    an infinity of the sign of the change otherwise. *)
Theorem generate_returns_spec (security_df : DataFrame) (col_name security : string)
    (prices : list (option Q)) :
  _get_security_names security_df = [security] ->
  (do c <- get_column (col_name ++ "_" ++ security) security_df; as_floats c) = Ok prices ->
  exists sec_returns,
    generate_returns security_df col_name = inr sec_returns
    /\ length sec_returns = length prices
    /\ (prices <> [] -> sec_returns !! 0%nat = Some XNaN)
    /\ forall d p q,
         prices !! d = Some (Some p) -> prices !! S d = Some (Some q) ->
         sec_returns !! S d
         = Some (if Qeq_bool p 0 then
                   if Qeq_bool (q - p) 0 then XNaN else XInf (Qlt_bool (q - p) 0)
                 else XNum ((q - p) / p)).
Proof.
  intros Hnames Hprices. unfold generate_returns. rewrite Hnames. cbn [length Nat.ltb Nat.leb].
  rewrite Hprices. eexists. split; [reflexivity|].
  split; [|split].
  - rewrite length_zip_with, length_series_sub, length_shift1; rewrite ?length_shift1; lia.
  - intros Hne. rewrite lookup_zip_with, shift1_first by done.
    destruct (series_sub prices (shift1 prices) !! 0%nat) as [a|] eqn:E.
    + cbn. by destruct a.
    + apply lookup_ge_None in E.
      rewrite length_series_sub in E by (by rewrite length_shift1).
      destruct prices; [done|]. cbn in E. lia.
  - intros d p q Hp Hq.
    assert (Hd : (S d < length prices)%nat) by (by apply lookup_lt_Some in Hq).
    rewrite lookup_zip_with. unfold series_sub. rewrite lookup_zip_with.
    rewrite shift1_next, Hq, Hp by done. reflexivity.
Qed.

Lemma generate_returns_spec_witness :
  let security_df := price_frame "close_x" [10; 12; 9] in
  let prices := [Some 10; Some 12; Some 9] in
  exists sec_returns,
    generate_returns security_df "close" = inr sec_returns
    /\ length sec_returns = length prices
    /\ (prices <> [] -> sec_returns !! 0%nat = Some XNaN)
    /\ forall d p q,
         prices !! d = Some (Some p) -> prices !! S d = Some (Some q) ->
         sec_returns !! S d
         = Some (if Qeq_bool p 0 then
                   if Qeq_bool (q - p) 0 then XNaN else XInf (Qlt_bool (q - p) 0)
                 else XNum ((q - p) / p)).
Proof.
  apply (generate_returns_spec (price_frame "close_x" [10; 12; 9]) "close" "x"
           [Some 10; Some 12; Some 9]); reflexivity.
Defined.

Lemma length_remove_dups_two {A} `{EqDecision A} (l : list A) (x y : A) :
  x ∈ l -> y ∈ l -> x <> y -> (1 < length (remove_dups l))%nat.
Proof.
  intros Hx Hy Hne.
  apply elem_of_remove_dups in Hx, Hy.
  destruct (remove_dups l) as [|a [|b l']]; cbn [length]; [| |lia].
  - by apply elem_of_nil in Hx.
  - apply list_elem_of_singleton in Hx, Hy. congruence.
Qed.

(** X18.  [generate_returns] takes a frame of one security: where the
    columns of the frame end in two different securities it raises its
    own exception before it reads a column, whatever the field asked
    for. *)
Theorem generate_returns_two_securities (security_df : DataFrame) (col_name c1 c2 : string) :
  c1 ∈ df_columns security_df -> c2 ∈ df_columns security_df ->
  last_component c1 <> last_component c2 ->
  generate_returns security_df col_name = inl OneSecurityOnly.
Proof.
  intros H1 H2 Hne. unfold generate_returns, _get_security_names.
  assert (Hlen : (1 < length (remove_dups (map last_component (df_columns security_df))))%nat).
  { apply (length_remove_dups_two _ (last_component c1) (last_component c2));
      [| |exact Hne].
    - apply list_elem_of_In, in_map, list_elem_of_In, H1.
    - apply list_elem_of_In, in_map, list_elem_of_In, H2. }
  apply Nat.ltb_lt in Hlen. by rewrite Hlen.
Qed.

Lemma generate_returns_two_securities_witness :
  generate_returns {| df_columns := ["close_x"; "close_y"]; df_rows := [] |} "close"
  = inl OneSecurityOnly.
Proof.
  apply (generate_returns_two_securities
           {| df_columns := ["close_x"; "close_y"]; df_rows := [] |} "close"
           "close_x" "close_y").
  - by left.
  - right. by left.
  - cbv. discriminate.
Defined.

(** On a frame without columns there is no first security to take. *)
Lemma generate_returns_no_column (security_df : DataFrame) (col_name : string) :
  df_columns security_df = [] ->
  generate_returns security_df col_name = inl IndexError.
Proof.
  intros Hcols. unfold generate_returns, _get_security_names. by rewrite Hcols.
Qed.

End ReturnFacts.

(** ** What the generators leave of a frame *)

Module KeptFacts.
Import Indicators Parts Kept NameFacts FrameFacts MaFacts BollingerFacts.

Lemma same_rows_refl P df : same_rows_except P df df.
Proof. split; [reflexivity|]. intros i idx r H. by exists r. Qed.

Lemma same_rows_trans P df1 df2 df3 :
  same_rows_except P df1 df2 -> same_rows_except P df2 df3 ->
  same_rows_except P df1 df3.
Proof.
  intros [Hl1 H1] [Hl2 H2]. split; [lia|].
  intros i idx r3 Hr3.
  destruct (H2 i idx r3 Hr3) as (r2 & Hr2 & Hsame2).
  destruct (H1 i idx r2 Hr2) as (r1 & Hr1 & Hsame1).
  exists r1. split; [exact Hr1|]. intros name Hn.
  by rewrite Hsame2, Hsame1.
Qed.

Lemma same_rows_weaken (P Q : string -> Prop) df df' :
  (forall name, P name -> Q name) ->
  same_rows_except P df df' -> same_rows_except Q df df'.
Proof.
  intros HPQ [Hl H]. split; [exact Hl|].
  intros i idx r' Hr'. destruct (H i idx r' Hr') as (r & Hr & Hsame).
  exists r. split; [exact Hr|]. intros name Hn. apply Hsame. auto.
Qed.

Lemma same_rows_nonempty P df df' :
  same_rows_except P df df' -> df_rows df <> [] -> df_rows df' <> [].
Proof.
  intros [Hl _] Hne E. rewrite E in Hl. destruct (df_rows df); [done|discriminate].
Qed.

Lemma same_rows_set_series (P : string -> Prop) name vals df :
  P name -> df_rows df <> [] ->
  same_rows_except P df (set_series name vals df).
Proof.
  intros HP Hne. split.
  - rewrite set_series_rows_nonempty by done. apply length_assign_rows.
  - intros i idx r' Hr'. apply set_series_row in Hr' as (r & Hr & ->); [|done].
    exists r. split; [exact Hr|]. intros n Hn.
    apply lookup_insert_ne. by intros <-.
Qed.

Lemma same_rows_then_set_series (P : string -> Prop) name vals df df1 :
  P name -> df_rows df <> [] ->
  same_rows_except P df df1 ->
  same_rows_except P df (set_series name vals df1).
Proof.
  intros HP Hne S. eapply same_rows_trans; [exact S|].
  apply same_rows_set_series; [exact HP|]. by apply (same_rows_nonempty P df).
Qed.

Lemma same_rows_set_array (P : string -> Prop) name vals df df' :
  P name -> df_rows df <> [] ->
  set_array name vals df = Ok df' ->
  same_rows_except P df df'.
Proof.
  intros HP Hne Hset. unfold set_array in Hset.
  destruct (df_rows df) as [|r rows] eqn:E; [done|].
  destruct (decide _); [|discriminate]. injection Hset as <-.
  apply same_rows_set_series; [exact HP|]. by rewrite E.
Qed.

Lemma same_rows_set_where (P : string -> Prop) mask name v df :
  P name -> same_rows_except P df (set_where mask name v df).
Proof.
  intros HP. split.
  - unfold set_where. cbn [df_rows]. apply length_imap.
  - intros i idx r' Hr'. apply set_where_row in Hr' as (r & Hr & Hsame).
    exists r. split; [exact Hr|]. intros n Hn. apply Hsame. by intros ->.
Qed.

Lemma same_rows_labels P df df' :
  same_rows_except P df df' -> map fst (df_rows df') = map fst (df_rows df).
Proof.
  intros [Hl H]. apply list_eq. intros i.
  change (map fst ?l) with (fst <$> l). rewrite !list_lookup_fmap.
  destruct (df_rows df' !! i) as [[idx r']|] eqn:E.
  - destruct (H i idx r' E) as (r & -> & _). reflexivity.
  - apply lookup_ge_None in E. rewrite Hl in E. apply lookup_ge_None in E.
    by rewrite E.
Qed.

(** *** The loop bodies *)

Lemma ma_security_keeps c n0 n1 df sec df' :
  df_rows df <> [] ->
  ma_security c n0 n1 df sec = Ok df' ->
  same_rows_except (fun name => name ∈ ma_columns (lower c) n0 n1 (lower sec)) df df'.
Proof.
  intros Hne Hrun. rewrite ma_security_unfold in Hrun.
  apply rbind_ok in Hrun as (xs & _ & Hrun).
  set (P := fun name => name ∈ ma_columns (lower c) n0 n1 (lower sec)).
  assert (P0 : P (ma_col (lower c) n0 (lower sec))) by (unfold P, ma_columns; rewrite !elem_of_cons; auto 10).
  assert (P1 : P (ma_col (lower c) n1 (lower sec))) by (unfold P, ma_columns; rewrite !elem_of_cons; auto 10).
  assert (P2 : P ("ma_diff_" ++ lower sec)) by (unfold P, ma_columns; rewrite !elem_of_cons; auto 10).
  assert (P3 : P ("crossover_" ++ lower sec)) by (unfold P, ma_columns; rewrite !elem_of_cons; auto 10).
  assert (P4 : P ("crossover_signal_" ++ lower sec)) by (unfold P, ma_columns; rewrite !elem_of_cons; auto 10).
  assert (H3 : same_rows_except P df (with_ma_diff (lower c) (lower sec) n0 n1 xs df)).
  { unfold with_ma_diff.
    apply same_rows_then_set_series; [exact P2|exact Hne|].
    apply same_rows_then_set_series; [exact P1|exact Hne|].
    by apply same_rows_set_series. }
  eapply same_rows_trans; [exact H3|].
  pose proof (same_rows_nonempty _ _ _ H3 Hne) as Hne3.
  unfold crossover_part in Hrun.
  apply rbind_ok in Hrun as (df4 & H4 & Hrun).
  apply rbind_ok in Hrun as (s0 & _ & Hrun).
  apply rbind_ok in Hrun as (flags & _ & Hrun).
  injection Hrun as <-.
  pose proof (same_rows_set_array P _ _ _ _ P3 Hne3 H4) as S4.
  pose proof (same_rows_nonempty _ _ _ S4 Hne3) as Hne4.
  eapply same_rows_trans; [exact S4|].
  eapply same_rows_trans; [|apply same_rows_set_where; exact P4].
  apply same_rows_then_set_series; [exact P4|exact Hne4|].
  by apply same_rows_set_series.
Qed.

Lemma fold_ma_security_keeps c n0 n1 secs : forall df df',
  df_rows df <> [] ->
  fold_result (ma_security c n0 n1) secs df = Ok df' ->
  same_rows_except
    (fun name => exists s, s ∈ secs /\ name ∈ ma_columns (lower c) n0 n1 (lower s)) df df'.
Proof.
  induction secs as [|sec secs IH]; intros df df' Hne Hrun; cbn [fold_result] in Hrun.
  - injection Hrun as <-. apply same_rows_refl.
  - apply rbind_ok in Hrun as (df1 & H1 & Hrun).
    pose proof (ma_security_keeps _ _ _ _ _ _ Hne H1) as S1.
    eapply same_rows_trans.
    + eapply same_rows_weaken; [|exact S1]. intros name Hn. exists sec. split; [by left|done].
    + eapply same_rows_weaken; [|apply (IH df1 df' (same_rows_nonempty _ _ _ S1 Hne) Hrun)].
      intros name (s & Hs & Hn). exists s. split; [by right|done].
Qed.

Lemma sublist_filter_labels {A B} (f : A -> bool) (g : A -> B) (l : list A) :
  sublist (map g (List.filter f l)) (map g l).
Proof.
  induction l as [|x l IH]; [constructor|]. cbn.
  destruct (f x); cbn; [by apply sublist_skip | by apply sublist_cons].
Qed.

Lemma dropna_keeps P df df' out :
  same_rows_except P df df' -> out = dropna df' ->
  sublist (map fst (df_rows out)) (map fst (df_rows df))
  /\ forall idx row, (idx, row) ∈ df_rows out ->
       exists day r0, df_rows df !! day = Some (idx, r0)
                      /\ forall name, ~ P name -> row !! name = r0 !! name.
Proof.
  intros S ->. split.
  - rewrite <- (same_rows_labels _ _ _ S). unfold dropna. cbn [df_rows].
    apply sublist_filter_labels.
  - intros idx row Hrow. apply dropna_rows in Hrow as [Hrow _].
    apply list_elem_of_lookup in Hrow as [day Hday].
    destruct S as [_ S]. destruct (S day idx row Hday) as (r0 & Hr0 & Hsame).
    by exists day, r0.
Qed.

(** X19.  [generate_ma_columns] on a frame that has rows keeps of it what
    it does not set: the rows of the output are rows of the input, with
    their labels and in their order, and every cell of a column that is
    none of the five columns set for one of the securities is the cell of
    the input. *)
Theorem generate_ma_columns_keeps_frame (security_df : DataFrame)
    (securities : list string) (col_name : string) (n0 n1 : nat) (out : DataFrame) :
  df_rows security_df <> [] ->
  generate_ma_columns security_df securities col_name [n0; n1] = Ok out ->
  sublist (map fst (df_rows out)) (map fst (df_rows security_df))
  /\ forall idx row, (idx, row) ∈ df_rows out ->
       exists day r0,
         df_rows security_df !! day = Some (idx, r0)
         /\ forall name,
              (forall s, s ∈ securities ->
                 name ∉ ma_columns (lower col_name) n0 n1 (lower s)) ->
              row !! name = r0 !! name.
Proof.
  intros Hne Hrun. unfold generate_ma_columns in Hrun.
  apply rbind_ok in Hrun as (df' & Hfold & [= <-]).
  pose proof (fold_ma_security_keeps _ _ _ _ _ _ Hne Hfold) as S.
  destruct (dropna_keeps _ _ _ _ S eq_refl) as [Hsub Hcells].
  split; [exact Hsub|].
  intros idx row Hrow. destruct (Hcells idx row Hrow) as (day & r0 & Hr0 & Hsame).
  exists day, r0. split; [exact Hr0|]. intros name Hname. apply Hsame.
  intros (s & Hs & Hn). by apply (Hname s Hs).
Qed.

Lemma generate_ma_columns_keeps_frame_witness :
  let security_df := price_frame "close_x" [10; 10; 12; 8; 9; 11] in
  let out := match generate_ma_columns security_df ["x"] "close" [2%nat; 3%nat] with
             | Ok o => o
             | Raise _ => security_df
             end in
  sublist (map fst (df_rows out)) (map fst (df_rows security_df))
  /\ forall idx row, (idx, row) ∈ df_rows out ->
       exists day r0,
         df_rows security_df !! day = Some (idx, r0)
         /\ forall name,
              (forall s, s ∈ ["x"] -> name ∉ ma_columns (lower "close") 2 3 (lower s)) ->
              row !! name = r0 !! name.
Proof.
  intros security_df out.
  apply (generate_ma_columns_keeps_frame security_df ["x"] "close" 2 3 out).
  - discriminate.
  - vm_compute. reflexivity.
Defined.

(** *** Bollinger columns *)

Section Bands.
Variable np_sqrt : Q -> Q.

Lemma bollinger_security_keeps c k len df sec df' :
  df_rows df <> [] ->
  bollinger_security np_sqrt c k len df sec = Ok df' ->
  same_rows_except (fun name => name ∈ bollinger_columns (lower c) (lower sec)) df df'.
Proof.
  intros Hne Hrun. rewrite bollinger_security_unfold in Hrun.
  apply rbind_ok in Hrun as (xs & _ & [= <-]).
  set (P := fun name => name ∈ bollinger_columns (lower c) (lower sec)).
  assert (P0 : P (lower c ++ "_bollinger_high_" ++ lower sec))
    by (unfold P, bollinger_columns; rewrite !elem_of_cons; auto 10).
  assert (P1 : P (lower c ++ "_bollinger_low_" ++ lower sec))
    by (unfold P, bollinger_columns; rewrite !elem_of_cons; auto 10).
  assert (P2 : P ("bollinger_signal_" ++ lower sec))
    by (unfold P, bollinger_columns; rewrite !elem_of_cons; auto 10).
  unfold with_bands.
  apply same_rows_then_set_series; [exact P2|exact Hne|].
  apply same_rows_then_set_series; [exact P1|exact Hne|].
  by apply same_rows_set_series.
Qed.

Lemma fold_bollinger_security_keeps c k len secs : forall df df',
  df_rows df <> [] ->
  fold_result (bollinger_security np_sqrt c k len) secs df = Ok df' ->
  same_rows_except
    (fun name => exists s, s ∈ secs /\ name ∈ bollinger_columns (lower c) (lower s)) df df'.
Proof.
  induction secs as [|sec secs IH]; intros df df' Hne Hrun; cbn [fold_result] in Hrun.
  - injection Hrun as <-. apply same_rows_refl.
  - apply rbind_ok in Hrun as (df1 & H1 & Hrun).
    pose proof (bollinger_security_keeps _ _ _ _ _ _ Hne H1) as S1.
    eapply same_rows_trans.
    + eapply same_rows_weaken; [|exact S1]. intros name Hn. exists sec. split; [by left|done].
    + eapply same_rows_weaken; [|apply (IH df1 df' (same_rows_nonempty _ _ _ S1 Hne) Hrun)].
      intros name (s & Hs & Hn). exists s. split; [by right|done].
Qed.

(** X20.  [generate_bollinger_columns] on a frame that has rows keeps of
    it what it does not set: the rows of the output are rows of the input, with their labels
    and in their order, and every cell of a column that is none of the
    three columns set for one of the securities is the cell of the
    input. *)
Theorem generate_bollinger_columns_keeps_frame (security_df : DataFrame)
    (securities : list string) (col_name : string) (k : Q) (len : nat) (out : DataFrame) :
  df_rows security_df <> [] ->
  generate_bollinger_columns np_sqrt security_df securities col_name k len = Ok out ->
  sublist (map fst (df_rows out)) (map fst (df_rows security_df))
  /\ forall idx row, (idx, row) ∈ df_rows out ->
       exists day r0,
         df_rows security_df !! day = Some (idx, r0)
         /\ forall name,
              (forall s, s ∈ securities ->
                 name ∉ bollinger_columns (lower col_name) (lower s)) ->
              row !! name = r0 !! name.
Proof.
  intros Hne Hrun. unfold generate_bollinger_columns in Hrun.
  apply rbind_ok in Hrun as (df' & Hfold & [= <-]).
  pose proof (fold_bollinger_security_keeps _ _ _ _ _ _ Hne Hfold) as S.
  destruct (dropna_keeps _ _ _ _ S eq_refl) as [Hsub Hcells].
  split; [exact Hsub|].
  intros idx row Hrow. destruct (Hcells idx row Hrow) as (day & r0 & Hr0 & Hsame).
  exists day, r0. split; [exact Hr0|]. intros name Hname. apply Hsame.
  intros (s & Hs & Hn). by apply (Hname s Hs).
Qed.

End Bands.

Lemma generate_bollinger_columns_keeps_frame_witness :
  let security_df := price_frame "close_x" [0; 3; 6; 3] in
  let out := match generate_bollinger_columns sqrt_exact security_df ["x"] "close" 2 3 with
             | Ok o => o
             | Raise _ => security_df
             end in
  sublist (map fst (df_rows out)) (map fst (df_rows security_df))
  /\ forall idx row, (idx, row) ∈ df_rows out ->
       exists day r0,
         df_rows security_df !! day = Some (idx, r0)
         /\ forall name,
              (forall s, s ∈ ["x"] -> name ∉ bollinger_columns (lower "close") (lower s)) ->
              row !! name = r0 !! name.
Proof.
  intros security_df out.
  apply (generate_bollinger_columns_keeps_frame sqrt_exact security_df ["x"] "close" 2 3 out).
  - discriminate.
  - vm_compute. reflexivity.
Defined.

End KeptFacts.

(** ** The data store *)

Module StorageFacts.
Import Storage.

Lemma filter_sublist {A} (f : A -> bool) (l : list A) : sublist (List.filter f l) l.
Proof.
  induction l as [|x l IH]; [constructor|]. cbn.
  destruct (f x); [by apply sublist_skip | by apply sublist_cons].
Qed.

Lemma query_spec keep df :
  df_columns (query keep df) = df_columns df
  /\ sublist (df_rows (query keep df)) (df_rows df)
  /\ forall r, r ∈ df_rows (query keep df) <-> r ∈ df_rows df /\ keep (fst r) = true.
Proof.
  split; [reflexivity|]. split; [apply filter_sublist|].
  intros r. unfold query. cbn [df_rows].
  rewrite !list_elem_of_In. apply filter_In.
Qed.

(** X21.  [load_security_data] raises the KeyError exactly for a security
    that is not in the dict; for a stored one it returns the stored
    frame's columns and, in their order, exactly its rows whose label is
    not before [start_date] and not after [end_date], where given. *)
Theorem load_security_data_spec (security : string) (start_date end_date : option Z)
    (self : data_storage) :
  match data_store_dict self !! security with
  | None =>
      load_security_data security start_date end_date self
      = Raise (KeyError "security not in data dictionary.")
  | Some security_df =>
      exists out,
        load_security_data security start_date end_date self = Ok out
        /\ df_columns out = df_columns security_df
        /\ sublist (df_rows out) (df_rows security_df)
        /\ forall r, r ∈ df_rows out <->
             r ∈ df_rows security_df
             /\ (forall s, start_date = Some s -> (s <= fst r)%Z)
             /\ (forall e, end_date = Some e -> (fst r <= e)%Z)
  end.
Proof.
  unfold load_security_data.
  destruct (data_store_dict self !! security) as [df|]; [|reflexivity].
  destruct start_date as [s|], end_date as [e|]; eexists; (split; [reflexivity|]).
  - destruct (query_spec (fun index => (index >=? s)%Z && (index <=? e)%Z) df)
      as (Hc & Hs & Hr).
    split; [exact Hc|]. split; [exact Hs|]. intros r. rewrite Hr.
    rewrite andb_true_iff, Z.geb_le, Z.leb_le. split.
    + intros (Hin & H1 & H2). split; [exact Hin|].
      split; intros ? [= <-]; assumption.
    + intros (Hin & H1 & H2). split; [exact Hin|]. split; auto.
  - destruct (query_spec (fun index => (index >=? s)%Z) df) as (Hc & Hs & Hr).
    split; [exact Hc|]. split; [exact Hs|]. intros r. rewrite Hr, Z.geb_le. split.
    + intros (Hin & H1). split; [exact Hin|].
      split; [intros ? [= <-]; assumption | discriminate].
    + intros (Hin & H1 & _). split; [exact Hin|]. auto.
  - destruct (query_spec (fun index => (index <=? e)%Z) df) as (Hc & Hs & Hr).
    split; [exact Hc|]. split; [exact Hs|]. intros r. rewrite Hr, Z.leb_le. split.
    + intros (Hin & H1). split; [exact Hin|].
      split; [discriminate | intros ? [= <-]; assumption].
    + intros (Hin & _ & H2). split; [exact Hin|]. auto.
  - split; [reflexivity|]. split; [reflexivity|]. intros r. split.
    + intros Hin. split; [exact Hin|]. split; discriminate.
    + by intros [Hin _].
Qed.

(** X22.  A frame stored by [get_security_data] is the frame a load of
    that security without dates returns, whatever was stored under the
    name before; with dates the load is the load from a store that holds
    this frame only; and loads of every other name are as before the
    call.  The names are compared as given: the store does not fold
    case. *)
Theorem get_then_load (security_df : DataFrame) (security : string) (return_df : bool)
    (self : data_storage) :
  let self' := snd (get_security_data security_df security return_df self) in
  load_security_data security None None self' = Ok security_df
  /\ (forall start_date end_date,
        load_security_data security start_date end_date self'
        = load_security_data security start_date end_date
            (snd (get_security_data security_df security return_df init)))
  /\ (forall other start_date end_date, other <> security ->
        load_security_data other start_date end_date self'
        = load_security_data other start_date end_date self)
  /\ fst (get_security_data security_df security return_df self)
     = (if return_df then Some security_df else None).
Proof.
  cbn. unfold load_security_data. cbn [data_store_dict].
  rewrite !lookup_insert_eq. split; [reflexivity|]. split; [reflexivity|].
  split; [|reflexivity].
  intros other s e Hne. by rewrite lookup_insert_ne.
Qed.

(** X23.  Narrowing the dates of a load gives what the narrower query
    gives on the result of the wider load: the frame loaded for a range
    within another is the wider load's frame restricted to the narrower
    range, so its rows are, in order, rows of the wider load. *)
Theorem load_security_data_narrow (security : string) (s s' e e' : Z)
    (self : data_storage) (wide narrow : DataFrame) :
  (s <= s')%Z -> (e' <= e)%Z ->
  load_security_data security (Some s) (Some e) self = Ok wide ->
  load_security_data security (Some s') (Some e') self = Ok narrow ->
  narrow = query (fun index => (index >=? s')%Z && (index <=? e')%Z) wide
  /\ sublist (df_rows narrow) (df_rows wide).
Proof.
  intros Hs He. unfold load_security_data.
  destruct (data_store_dict self !! security) as [df|]; [|discriminate].
  intros [= <-] [= <-].
  assert (E : query (fun index => (index >=? s')%Z && (index <=? e')%Z)
                (query (fun index => (index >=? s)%Z && (index <=? e)%Z) df)
              = query (fun index => (index >=? s')%Z && (index <=? e')%Z) df).
  { unfold query. cbn [df_columns df_rows]. f_equal.
    induction (df_rows df) as [|r rows IH]; [reflexivity|]. cbn.
    destruct ((fst r >=? s)%Z && (fst r <=? e)%Z) eqn:E1; cbn.
    - by rewrite IH.
    - rewrite IH.
      destruct ((fst r >=? s')%Z && (fst r <=? e')%Z) eqn:E2; [|reflexivity].
      apply andb_true_iff in E2 as [E2 E3]. apply Z.geb_le in E2. apply Z.leb_le in E3.
      apply andb_false_iff in E1 as [E1|E1];
        [rewrite Z.geb_leb in E1|]; apply Z.leb_gt in E1; lia. }
  split; [by rewrite E|]. rewrite <- E. apply filter_sublist.
Qed.

Lemma load_security_data_narrow_witness :
  let df := price_frame "close_x" [10; 11; 12; 13; 14] in
  let self := snd (get_security_data df "x" true init) in
  query (fun index => (index >=? 2)%Z && (index <=? 3)%Z) df
  = query (fun index => (index >=? 2)%Z && (index <=? 3)%Z)
      (query (fun index => (index >=? 1)%Z && (index <=? 4)%Z) df)
  /\ sublist (df_rows (query (fun index => (index >=? 2)%Z && (index <=? 3)%Z) df))
       (df_rows (query (fun index => (index >=? 1)%Z && (index <=? 4)%Z) df)).
Proof.
  intros df self.
  apply (load_security_data_narrow "x" 1 2 4 3 self); [lia | lia | reflexivity | reflexivity].
Defined.

End StorageFacts.

(** ** The purchases on binary64 floats *)

Module Binary64Facts.
Import Binary64.

#[local] Set Warnings "-inexact-float".

(** How [buy_max_securities] comes to raise: the rounded quotient floors
    to an amount whose cost, rounded, is above the cash. *)
Lemma buy_max_securities_above_cash (ticker_symbol : string) (security_price : float)
    (trans_date : Z) (self : security_portfolio) (amount : Z) :
  PrimFloat.is_zero security_price = false ->
  floor_int (total_cash_amt self / security_price)%float = Ok amount ->
  PrimFloat.is_infinity (of_int amount) = false ->
  (of_int amount * security_price <=? total_cash_amt self)%float = false ->
  buy_max_securities ticker_symbol security_price trans_date self
  = Raised InsufficientCash self.
Proof.
  intros Hp Hfloor Hfin Hle. unfold buy_max_securities, buy_securities.
  by rewrite Hp, Hfloor, Hfin, Hle.
Qed.

(** C2.  [buy_max_securities] does not always buy [floor(C/P)] shares.
    With a cash balance of 1.7 and a price of 0.1, as floats, [floor(C/P)]
    is 16 and 16 shares can be bought.  The quotient of the two floats is
    rounded to 17.0: the method asks for 17 shares, whose cost
    1.7000000000000002 is above the cash, and raises the exception of
    [buy_securities]; nothing is bought.  The same happens with a cash
    balance of 10794.4 at a price of 10.3, where the quotient is rounded
    to 1048.0 and [floor(C/P)] is 1047. *)
Theorem buy_max_securities_rounds_up :
  let self := init 1.7 false in
  let self' := init 10794.4 false in
  (Qfloor (to_Q 1.7 / to_Q 0.1) = 16%Z
   /\ floor_int (1.7 / 0.1)%float = Ok 17%Z
   /\ (of_int 17 * 0.1)%float = 1.7000000000000002%float
   /\ buy_max_securities "x" 0.1 0 self = Raised InsufficientCash self
   /\ exists bought,
        buy_securities "x" 16 0.1 0 self = Returned bought
        /\ security_dict bought !! "x" = Some 16%Z)
  /\ (Qfloor (to_Q 10794.4 / to_Q 10.3) = 1047%Z
      /\ floor_int (10794.4 / 10.3)%float = Ok 1048%Z
      /\ buy_max_securities "x" 10.3 0 self' = Raised InsufficientCash self'
      /\ exists bought,
           buy_securities "x" 1047 10.3 0 self' = Returned bought
           /\ security_dict bought !! "x" = Some 1047%Z).
Proof.
  intros self self'. split.
  - split; [vm_compute; reflexivity|].
    split; [vm_compute; reflexivity|].
    split; [vm_compute; reflexivity|].
    split; [vm_compute; reflexivity|].
    eexists. split; [vm_compute; reflexivity|]. vm_compute. reflexivity.
  - split; [vm_compute; reflexivity|].
    split; [vm_compute; reflexivity|].
    split; [vm_compute; reflexivity|].
    eexists. split; [vm_compute; reflexivity|]. vm_compute. reflexivity.
Qed.

End Binary64Facts.
